(** * Timora: insight helpers, page figures and safe async utilities

    A shallow embedding of the analytics helpers (AIInsightsHelpers), of the
    streak computation and the figures of the Insights and Dashboard pages,
    and of [safeAsyncUtils.js] ([safeAsync], [safeCRUD] with [validateData],
    [safeBatchOperation] and the [OfflineQueue] class), followed by the
    properties that were checked against them.

    Conventions of the embedding.
    - A JavaScript number that the application keeps integral (minutes,
      epoch milliseconds, counters) is a [Z]; a quotient of such numbers is a
      [Q].  The comparisons made on those quotients ([> 10], [> 8], rounding
      at one half) have exactly representable thresholds, so as long as the
      integers involved stay far below 2^53 the double arithmetic of the
      engine and the exact arithmetic used here take the same branches.
    - An optional field is an [option]; [None] stands for every falsy way of
      not having it ([undefined], [null], the empty string).
    - Host functions (the clock, [localStorage], [JSON], [navigator.onLine],
      the date library) are explicit arguments; so is the test for the
      properties an object inherits, where a property is read under a name
      that comes from the data. *)

From Stdlib Require Import ZArith QArith Qround List String Ascii Bool Lia.
From Stdlib Require Import Permutation Sorted DecimalString OrderedTypeEx.
Import ListNotations.

Local Open Scope string_scope.
Local Open Scope Z_scope.

(* ===================================================================== *)
(** ** Array helpers of the host language *)
(* ===================================================================== *)

Module JSArray.

(** [Array.prototype.sort] with a comparator.  The standard requires the
    sort to be stable and, when the comparator is consistent on the array
    (a strict weak order), fixes the result; for other comparators it leaves
    the order to the engine.  The sort is modelled by the insertion sort:
    each element in turn is moved towards the front past every element of
    the part already sorted that the comparator places strictly after it,
    and stops at the first element that is not.  [insert] works on that
    part kept last element first.  On an array on which the comparator is
    not consistent another engine may return another order: what is stated
    below about the order of a sorted array is stated for consistent
    comparators only, and otherwise only that the result is a permutation
    of the array is used. *)
Fixpoint insert {A : Type} (cmp : A -> A -> Z) (x : A) (back : list A)
  : list A :=
  match back with
  | [] => [x]
  | y :: back' => if 0 <? cmp y x then y :: insert cmp x back' else x :: back
  end.

Definition sort {A : Type} (cmp : A -> A -> Z) (l : list A) : list A :=
  rev (fold_left (fun back x => insert cmp x back) l []).

(** The comparator of [sort()] called without argument on strings: order of
    the code units. *)
Definition defaultCompare (a b : string) : Z :=
  match String.compare a b with
  | Lt => -1
  | Eq => 0
  | Gt => 1
  end.

(** Strict order of the code units. *)
Definition before (a b : string) : Prop := String.compare a b = Lt.

(** [[...new Set(l)]]: the distinct elements in order of first occurrence. *)
Fixpoint uniq_from (seen l : list string) : list string :=
  match l with
  | [] => []
  | x :: l' =>
      if existsb (String.eqb x) seen then uniq_from seen l'
      else x :: uniq_from (x :: seen) l'
  end.

Definition fromSet (l : list string) : list string := uniq_from [] l.

(** [slice(0, n)] *)
Definition slice0 {A : Type} (n : nat) (l : list A) : list A := firstn n l.

End JSArray.

(* ===================================================================== *)
(** ** Entities *)
(* ===================================================================== *)

Inductive Priority := low | medium | high.

Definition priority_name (p : Priority) : string :=
  match p with
  | low => "low"
  | medium => "medium"
  | high => "high"
  end.

(** A task.  [due_date] is the epoch value [new Date(due_date)] yields,
    [completed_at] the epoch milliseconds of the completion, and
    [time_estimate] is in minutes. *)
Record Task := mkTask {
  title : string;
  status : string;
  priority : Priority;
  category : string;
  due_date : option Z;
  completed_at : option Z;
  time_estimate : option Z
}.

(** A focus session.  [started_at] is the epoch milliseconds
    [new Date(started_at)] yields, [duration] is in minutes. *)
Record FocusSession := mkSession {
  duration : option Z;
  started_at : option Z;
  completed : bool
}.

(** [x || 0] on an optional number. *)
Definition or0 (x : option Z) : Z :=
  match x with
  | Some n => n
  | None => 0
  end.

(** Truthiness of an optional number: present and not zero. *)
Definition truthy (x : option Z) : bool :=
  match x with
  | Some n => negb (n =? 0)
  | None => false
  end.

(** Truthiness of an optional date string: present. *)
Definition present {A : Type} (x : option A) : bool :=
  match x with
  | Some _ => true
  | None => false
  end.

(* ===================================================================== *)
(** ** Properties that objects inherit *)
(* ===================================================================== *)

Module JSObject.

(** A property read [object[name]] that finds no own property goes on to
    the prototype.  For an object literal that is [Object.prototype], and
    what it holds is the host's: the functions below take the test
    [inherited : string -> bool] -- is there an inherited property of that
    name -- as an argument.  The members of [Object.prototype] are
    functions, and [__proto__] is the prototype object itself: none of them
    is a string, a number, a boolean, an array, [null] or [undefined], and
    all are truthy. *)
Definition standard_prototype (name : string) : bool :=
  existsb (String.eqb name)
    ["constructor"; "hasOwnProperty"; "isPrototypeOf";
     "propertyIsEnumerable"; "toLocaleString"; "toString"; "valueOf";
     "__proto__"; "__defineGetter__"; "__defineSetter__";
     "__lookupGetter__"; "__lookupSetter__"].

(** An object without prototype, as [Object.create(null)] makes. *)
Definition no_prototype (name : string) : bool := false.

End JSObject.

(* ===================================================================== *)
(** ** AIInsightsHelpers *)
(* ===================================================================== *)

Module AIInsightsHelpers.

(** [a > b] on numbers. *)
Definition Qgtb (a b : Q) : bool := negb (Qle_bool a b).

(** The object [analyzeBurnoutRisk] returns.  [hoursPerDay] and
    [totalWeeklyHours] hold the numbers that the source then prints with
    [toFixed(1)]. *)
Record BurnoutAnalysis := mkBurnout {
  riskLevel : string;
  hoursPerDay : Q;
  recommendation : string;
  totalWeeklyHours : Q
}.

Definition week_ms : Z := 7 * 24 * 60 * 60 * 1000.

Definition recentSessions (now : Z) (focusSessions : list FocusSession)
  : list FocusSession :=
  let sevenDaysAgo := now - week_ms in
  filter (fun session =>
            match started_at session with
            | Some t => sevenDaysAgo <? t
            | None => false
            end) focusSessions.

Definition totalMinutes (now : Z) (focusSessions : list FocusSession) : Z :=
  fold_left (fun sum session => sum + or0 (duration session))
            (recentSessions now focusSessions) 0.

(** [now] is the value of [new Date()] at the call; [tasks] is not read. *)
Definition analyzeBurnoutRisk (now : Z) (focusSessions : list FocusSession)
           (tasks : list Task) : BurnoutAnalysis :=
  let total := totalMinutes now focusSessions in
  let dailyAverage := (inject_Z total / 7)%Q in
  let hours := (dailyAverage / 60)%Q in
  let weekly := (inject_Z total / 60)%Q in
  if Qgtb hours 10 then
    mkBurnout "high" hours
      "You're working very long hours. Consider taking breaks and delegating tasks."
      weekly
  else if Qgtb hours 8 then
    mkBurnout "medium" hours
      "Your workload is high. Try to schedule regular breaks throughout the day."
      weekly
  else
    mkBurnout "low" hours
      "You're maintaining a healthy work balance."
      weekly.

(** *** detectProductivityPatterns *)

Record HourStat := mkStat { count : Z; totalDuration : Z }.

(** [hourlyStats] is an object whose keys are hours.  Its entries are kept
    in the order [Object.entries] enumerates them: integer keys come in
    ascending numeric order, whatever the order of their creation. *)
Definition HourlyStats := list (Z * HourStat).

(** The body of the [forEach] on one session that has a start: create the
    bucket of [hour] if it is missing, then count the session in it. *)
Fixpoint record_hour (hour d : Z) (stats : HourlyStats) : HourlyStats :=
  match stats with
  | [] => [(hour, mkStat (0 + 1) (0 + d))]
  | (k, st) :: rest =>
      if hour =? k then (k, mkStat (count st + 1) (totalDuration st + d)) :: rest
      else if hour <? k then (hour, mkStat (0 + 1) (0 + d)) :: (k, st) :: rest
      else (k, st) :: record_hour hour d rest
  end.

(** [new Date(t).getHours()] in a zone [tz] milliseconds ahead of UTC. *)
Definition getHours (tz t : Z) : Z := ((t + tz) / 3600000) mod 24.

Definition hourlyStats (tz : Z) (completedSessions : list FocusSession)
  : HourlyStats :=
  fold_left (fun stats session =>
               match started_at session with
               | None => stats
               | Some t => record_hour (getHours tz t) (or0 (duration session)) stats
               end) completedSessions [].

(** The scan for the best hour: [(bestHour, bestCount)], from [(null, 0)]. *)
Definition bestOf (stats : HourlyStats) : option Z * Z :=
  fold_left (fun best entry =>
               if snd best <? count (snd entry)
               then (Some (fst entry), count (snd entry))
               else best) stats (None, 0).

(** [bestHour < 12 ? "morning" : bestHour < 17 ? "afternoon" : "evening"];
    in a comparison [null] is the number 0. *)
Definition timeLabelOf (bestHour : option Z) : string :=
  let h := or0 bestHour in
  if h <? 12 then "morning" else if h <? 17 then "afternoon" else "evening".

(** A number, or [null], inside a template string. *)
Definition show (x : option Z) : string :=
  match x with
  | Some n => NilZero.string_of_int (Z.to_int n)
  | None => "null"
  end.

Inductive ProductivityPattern :=
| insufficient_data (message : string)
| identified (peakHour : option Z) (peakTimeLabel : string)
             (sessionsInPeakHour : Z) (message : string).

Definition detectProductivityPatterns (tz : Z)
           (focusSessions : list FocusSession) : ProductivityPattern :=
  let completedSessions := filter completed focusSessions in
  if (List.length completedSessions <? 5)%nat then
    insufficient_data
      "Complete more focus sessions to see your productivity patterns."
  else
    let '(bestHour, bestCount) := bestOf (hourlyStats tz completedSessions) in
    let timeLabel := timeLabelOf bestHour in
    identified bestHour timeLabel bestCount
      ("You're most productive in the " ++ timeLabel ++ " (around "
         ++ show bestHour
         ++ ":00). Schedule important tasks during this time.").

(** *** generateSmartTaskRecommendations *)

Definition priorityWeight (p : Priority) : Z :=
  match p with
  | high => 3
  | medium => 2
  | low => 1
  end.

(** The comparator handed to [sort]. *)
Definition compareTasks (a b : Task) : Z :=
  if negb (priorityWeight (priority a) =? priorityWeight (priority b)) then
    priorityWeight (priority b) - priorityWeight (priority a)
  else
    match due_date a, due_date b with
    | Some da, Some db => da - db
    | _, _ => 0
    end.

Record Recommendation := mkRec { task : Task; reason : string }.

Record TaskRecommendations := mkRecs {
  recommendations : list Recommendation;
  message : string
}.

Definition pendingTasks (tasks : list Task) : list Task :=
  filter (fun t => negb (status t =? "completed")%string) tasks.

Definition prioritized (tasks : list Task) : list Task :=
  JSArray.slice0 3 (JSArray.sort compareTasks (pendingTasks tasks)).

Definition generateSmartTaskRecommendations (tasks : list Task)
  : TaskRecommendations :=
  match pendingTasks tasks with
  | [] => mkRecs [] "All caught up! No pending tasks."
  | _ :: _ =>
      mkRecs
        (map (fun t =>
                mkRec t (priority_name (priority t) ++ " priority"
                           ++ (if present (due_date t) then ", due soon" else "")))
             (prioritized tasks))
        "Here are your top priorities for today:"
  end.

(** *** estimateTaskDuration *)

(** The own properties of the [defaults] object literal. *)
Definition defaults (category : string) : option Z :=
  if (category =? "daily")%string then Some 15
  else if (category =? "weekly")%string then Some 30
  else if (category =? "project")%string then Some 60
  else if (category =? "someday")%string then Some 45
  else None.

(** [Math.round]: the nearest integer, a half going up. *)
Definition Math_round (x : Q) : Z := Qfloor (x + (1 # 2)).

Definition similar (t0 : Task) (historicalTasks : list Task) : list Task :=
  filter (fun t => (category t =? category t0)%string
                   && (status t =? "completed")%string
                   && truthy (time_estimate t)) historicalTasks.

(** What the function returns: a number of minutes, or what
    [defaults[task.category]] finds under a name that is not in the table
    but that [defaults] inherits ([constructor], [toString], ...): the
    member of [Object.prototype] of that name, which is truthy and not a
    number. *)
Inductive Estimate :=
| minutes (m : Z)
| inherited_member (name : string).

(** [defaults[category] || 30]: the own property if there is one, the
    inherited one otherwise. *)
Definition default_for (inherited : string -> bool) (category : string)
  : Estimate :=
  match defaults category with
  | Some m => if m =? 0 then minutes 30 else minutes m
  | None => if inherited category then inherited_member category else minutes 30
  end.

Definition estimateTaskDuration (inherited : string -> bool)
           (t0 : Task) (historicalTasks : list Task) : Estimate :=
  if truthy (time_estimate t0) then minutes (or0 (time_estimate t0))
  else
    let sim := similar t0 historicalTasks in
    match sim with
    | [] => default_for inherited (category t0)
    | _ :: _ =>
        let total := fold_left (fun sum t => sum + or0 (time_estimate t)) sim 0 in
        let avg := (inject_Z total / inject_Z (Z.of_nat (List.length sim)))%Q in
        minutes (Math_round avg)
    end.

End AIInsightsHelpers.

(* ===================================================================== *)
(** ** The streak computation of the Insights and Dashboard pages *)
(* ===================================================================== *)

Module Streak.

Section Streak.

(** [formatDay t] is [format(startOfDay(new Date(t)), "yyyy-MM-dd")] and
    [prevDay d] is the key the loop computes from [checkDate = d]:
    [new Date(d)], [setDate(getDate() - 1)], then [format]. *)
Variable formatDay : Z -> string.
Variable prevDay : string -> string.

Definition completedDates (tasks : list Task) : list string :=
  map (fun t => formatDay (or0 (completed_at t)))
      (filter (fun t => present (completed_at t)) tasks).

Definition uniqueDates (tasks : list Task) : list string :=
  rev (JSArray.sort JSArray.defaultCompare
         (JSArray.fromSet (completedDates tasks))).

(** The [for ... of] loop, from the current [checkDate] and [streak]. *)
Fixpoint walk (dates : list string) (checkDate : string) (streak : Z) : Z :=
  match dates with
  | [] => streak
  | date :: rest =>
      if (date =? checkDate)%string
      then walk rest (prevDay checkDate) (streak + 1)
      else streak
  end.

(** [today] is [format(new Date(), "yyyy-MM-dd")]. *)
Definition streak (today : string) (tasks : list Task) : Z :=
  walk (uniqueDates tasks) today 0.

End Streak.

End Streak.

(* ===================================================================== *)
(** ** safeAsyncUtils: the OfflineQueue class *)
(* ===================================================================== *)

Module OfflineQueue.

#[local] Set Warnings "-register-all".

(** A value of the JSON data model: what [JSON.parse] returns and what the
    payload of an operation is. *)
Inductive JSValue :=
| JNull
| JBool (b : bool)
| JNum (q : Q)
| JStr (s : string)
| JArr (items : list JSValue)
| JObj (fields : list (string * JSValue)).

Definition isArray (v : JSValue) : bool :=
  match v with
  | JArr _ => true
  | _ => false
  end.

Record QueuedOperation := mkOp {
  id : Q;
  operation : string;
  data : JSValue;
  metadata : JSValue;
  timestamp : string;
  attempts : Z
}.

(** What the methods print on the console. *)
Inductive ConsoleEntry :=
| log_processing (item : QueuedOperation)
| error_failed_to_process
| warn_removing (item : QueuedOperation)
| error_failed_to_save
| error_failed_to_load.

(** The host as the class sees it: the string kept under the key
    ["offline_operation_queue"], whether reading or writing the storage
    throws, [navigator.onLine], and the console. *)
Record Host := mkHost {
  stored : option string;
  getItem_throws : bool;
  setItem_throws : bool;
  onLine : bool;
  console : list ConsoleEntry
}.

Definition print (e : ConsoleEntry) (h : Host) : Host :=
  mkHost (stored h) (getItem_throws h) (setItem_throws h) (onLine h)
         (console h ++ [e])%list.

Definition setItem (value : string) (h : Host) : Host :=
  mkHost (Some value) (getItem_throws h) (setItem_throws h) (onLine h)
         (console h).

(** The fields of an instance.  The methods below are modelled on instances
    whose [queue] is an array of operations. *)
Record This := mkThis {
  queue : list QueuedOperation;
  processing : bool
}.

(** How one pass of the loop of [processQueue] leaves the head item. *)
Inductive Outcome :=
| processed (item : QueuedOperation)
| discarded (item : QueuedOperation)
| requeued (item : QueuedOperation).

Section Methods.

(** [JSON.parse], with [None] for a thrown [SyntaxError], and
    [JSON.stringify] on a queue. *)
Variable JSON_parse : string -> option JSValue.
Variable JSON_stringify : list QueuedOperation -> string.

(** The [try] block of [processQueue] opens with the comment
    [Execute the operation] and makes no call there: the function that an
    operation tag maps to is not part of the class.  [execute item] stands
    for that step: [true] when it returns, [false] when it throws.  The
    class as it is written is the instance [fun _ => true]; what it has
    at that place, before the increment, is the call of [console.log], a
    function of the host, and a throw of that call is a step that throws
    as well. *)
Variable execute : QueuedOperation -> bool.

(** The constructor keeps the value of [loadQueue] in the field [queue] as
    it is. *)
Definition loadQueue (h : Host) : JSValue * Host :=
  if getItem_throws h then (JArr [], print error_failed_to_load h)
  else
    match stored h with
    | None => (JArr [], h)
    | Some saved =>
        if (saved =? "")%string then (JArr [], h)
        else
          match JSON_parse saved with
          | Some v => (v, h)
          | None => (JArr [], print error_failed_to_load h)
          end
    end.

Definition saveQueue (q : list QueuedOperation) (h : Host) : Host :=
  if setItem_throws h then print error_failed_to_save h
  else setItem (JSON_stringify q) h.

(** [item.attempts++] *)
Definition increment (item : QueuedOperation) : QueuedOperation :=
  mkOp (id item) (operation item) (data item) (metadata item)
       (timestamp item) (attempts item + 1).

(** One turn of the [while] loop on the queue [item :: rest]: the [try]
    block and its handler.  The result is the fate of the head item, the
    queue and the host the turn leaves, and whether the loop goes on
    ([false] after [break]). *)
Definition turn (item : QueuedOperation) (rest : list QueuedOperation)
           (h : Host) : Outcome * list QueuedOperation * Host * bool :=
  if execute item then
    let h1 := print (log_processing item) h in
    let item' := increment item in
    (processed item', rest, saveQueue rest h1, true)
  else
    let h1 := print error_failed_to_process h in
    if 3 <=? attempts item then
      let h2 := print (warn_removing item) h1 in
      (discarded item, rest, saveQueue rest h2, false)
    else
      let q := (rest ++ [item])%list in
      (requeued item, q, saveQueue q h1, false).

(** The [while] loop.  A turn that does not break removes the head, so the
    loop is a recursion on the queue.  It returns the fates of the items it
    handled, in order, with the queue and the host it leaves. *)
Fixpoint drain (q : list QueuedOperation) (h : Host)
  : list Outcome * list QueuedOperation * Host :=
  match q with
  | [] => ([], [], h)
  | item :: rest =>
      if negb (onLine h) then ([], q, h)
      else
        match turn item rest h with
        | (o, q', h', true) =>
            (* [q'] is [rest] here *)
            let '(os, q'', h'') := drain rest h' in (o :: os, q'', h'')
        | (o, q', h', false) => ([o], q', h')
        end
  end.

Definition processQueue (this : This) (h : Host)
  : list Outcome * This * Host :=
  if processing this || (List.length (queue this) =? 0)%nat then ([], this, h)
  else
    let '(os, q, h') := drain (queue this) h in
    (os, mkThis q false, h').

(** The part of [add] that precedes the test of [navigator.onLine]. *)
Definition push (now : Z) (random : Q) (iso : string)
           (operation : string) (data : JSValue) (metadata : option JSValue)
           (this : This) (h : Host) : Q * This * Host :=
  let id := (inject_Z now + random)%Q in
  let md := match metadata with Some m => m | None => JObj [] end in
  let q := (queue this ++ [mkOp id operation data md iso 0])%list in
  (id, mkThis q (processing this), saveQueue q h).

(** [add] calls [processQueue] and awaits it.  The body of [processQueue]
    has no suspension point, so the pass runs to its end inside the call:
    the identifier is returned in the state the pass leaves.  [now],
    [random] and [iso] are the values of [Date.now()], [Math.random()] and
    [new Date().toISOString()]. *)
Definition add (now : Z) (random : Q) (iso : string)
           (operation : string) (data : JSValue) (metadata : option JSValue)
           (this : This) (h : Host) : Q * This * Host :=
  let '(id, this1, h1) := push now random iso operation data metadata this h in
  if onLine h1 then
    let '(_, this2, h2) := processQueue this1 h1 in (id, this2, h2)
  else (id, this1, h1).

Definition getQueueLength (this : This) : Z := Z.of_nat (List.length (queue this)).

Definition clearQueue (this : This) (h : Host) : This * Host :=
  (mkThis [] (processing this), saveQueue [] h).

End Methods.

End OfflineQueue.

(* ===================================================================== *)
(** * Reference definitions and sample data for the insight helpers *)
(* ===================================================================== *)

Module InsightSpec.

Import AIInsightsHelpers.

(** Minutes of the sessions that started strictly after [bound]. *)
Fixpoint minutesAfter (bound : Z) (sessions : list FocusSession) : Z :=
  match sessions with
  | [] => 0
  | s :: rest =>
      match started_at s with
      | Some t => if bound <? t then or0 (duration s) + minutesAfter bound rest
                  else minutesAfter bound rest
      | None => minutesAfter bound rest
      end
  end.

(** The window as the specification words it: started-at within the
    trailing seven days of [now], the bound [now - 7 * 24h] included. *)
Definition trailingWeekInclusive (now : Z) (sessions : list FocusSession)
  : list FocusSession :=
  filter (fun s => match started_at s with
                   | Some t => (now - week_ms <=? t) && (t <=? now)
                   | None => false
                   end) sessions.

(** The risk level over that window: the thresholds applied to the minutes
    of the inclusive window. *)
Definition riskLevelInclusive (now : Z) (sessions : list FocusSession) : string :=
  let total := fold_right Z.add 0
                 (map (fun s => or0 (duration s))
                      (trailingWeekInclusive now sessions)) in
  if Qgtb (inject_Z total / 7 / 60) 10 then "high"
  else if Qgtb (inject_Z total / 7 / 60) 8 then "medium" else "low".

(** A completed session that carries a duration and a start. *)
Definition session (d t : Z) : FocusSession := mkSession (Some d) (Some t) true.

Definition noon_2023_11_14 : Z := 1699963200000.

Definition day_ms : Z := 24 * 60 * 60 * 1000.

(** Ten sessions of 90 minutes, one every four hours back from [now]. *)
Definition ten_sessions (now : Z) : list FocusSession :=
  map (fun k => session 90 (now - Z.of_nat k * 4 * 3600000)) (seq 0 10).

(** The tasks of the example of [generateSmartTaskRecommendations]: a low
    priority task without due date, a high priority task without due date,
    and a high priority task due on 1 January 2024. *)
Definition task_low : Task :=
  mkTask "tidy desk" "todo" low "someday" None None None.

Definition task_high : Task :=
  mkTask "call bank" "todo" high "daily" None None None.

Definition task_high_due : Task :=
  mkTask "file taxes" "todo" high "project" (Some 1704067200000) None None.

Definition task_high_due_earlier : Task :=
  mkTask "renew passport" "in_progress" high "weekly" (Some 1701388800000)
         None None.

(** The tasks a result recommends, in order. *)
Definition recommended (tasks : list Task) : list Task :=
  map task (recommendations (generateSmartTaskRecommendations tasks)).

(** [a] may stand before [b]: it has the higher priority, or the same
    priority and, when both have a due date, a due date that is not
    later. *)
Definition ranks_before (a b : Task) : Prop :=
  priorityWeight (priority b) < priorityWeight (priority a)
  \/ (priority a = priority b
      /\ forall da db, due_date a = Some da -> due_date b = Some db ->
                       da <= db).

(** The comparison does not separate [a] and [b]: they have the same
    priority and not two different due dates. *)
Definition ties (a b : Task) : bool :=
  (priorityWeight (priority a) =? priorityWeight (priority b))
  && match due_date a, due_date b with
     | Some da, Some db => da =? db
     | _, _ => true
     end.

(** The comparator is consistent on [l], in the sense the standard asks of
    a comparator for the result of [sort] to be determined: no priority
    holds a task without due date together with two different due
    dates. *)
Definition consistent (l : list Task) : Prop :=
  forall a b c da dc,
    In a l -> In b l -> In c l ->
    priority a = priority b -> priority b = priority c ->
    due_date a = Some da -> due_date b = None -> due_date c = Some dc ->
    da = dc.

(** [ranked] holds the tasks of [l] by priority, high first, and within a
    priority by due date where both tasks have one, the tasks that tie
    being left in the order they have in [l]. *)
Definition arranges (l ranked : list Task) : Prop :=
  Permutation ranked l
  /\ StronglySorted ranks_before ranked
  /\ forall x, In x l -> filter (ties x) ranked = filter (ties x) l.

(** Sample tasks for [estimateTaskDuration]. *)
Definition daily_task (estimate : option Z) : Task :=
  mkTask "write report" "todo" medium "daily" None None estimate.

(** A task whose category is not in the table of defaults. *)
Definition unfiled_task (estimate : option Z) : Task :=
  mkTask "sort photos" "todo" low "errands" None None estimate.

Definition done_daily (estimate : Z) : Task :=
  mkTask "earlier report" "completed" medium "daily" None
         (Some noon_2023_11_14) (Some estimate).

(** Number of the sessions of [l] that start in the hour [h]. *)
Definition sessionsInHour (tz h : Z) (l : list FocusSession) : Z :=
  Z.of_nat (List.length
              (filter (fun s => match started_at s with
                                | Some t => getHours tz t =? h
                                | None => false
                                end) l)).

(** The count kept for the hour [h] in the buckets. *)
Fixpoint countAt (h : Z) (stats : HourlyStats) : Z :=
  match stats with
  | [] => 0
  | (k, st) :: rest => if h =? k then count st else countAt h rest
  end.

(** The buckets as the specification assumes them to be enumerated: in the
    order in which the hours are first seen. *)
Fixpoint record_first_seen (hour d : Z) (stats : HourlyStats) : HourlyStats :=
  match stats with
  | [] => [(hour, mkStat 1 d)]
  | (k, st) :: rest =>
      if hour =? k then (k, mkStat (count st + 1) (totalDuration st + d)) :: rest
      else (k, st) :: record_first_seen hour d rest
  end.

(** The peak hour with the first-seen hour winning ties. *)
Definition peakHourFirstSeen (tz : Z) (focusSessions : list FocusSession)
  : option Z :=
  fst (bestOf
         (fold_left (fun stats session =>
                       match started_at session with
                       | None => stats
                       | Some t => record_first_seen (getHours tz t)
                                     (or0 (duration session)) stats
                       end) (filter completed focusSessions) [])).

(** A completed session of 25 minutes that starts at the hour [h] UTC of
    14 November 2023. *)
Definition session_at (h : Z) : FocusSession :=
  session 25 (noon_2023_11_14 - 12 * 3600000 + h * 3600000).

(** Five completed sessions without a start. *)
Definition five_unstarted : list FocusSession :=
  repeat (mkSession (Some 25) None true) 5.

End InsightSpec.

(* ===================================================================== *)
(** * A calendar for the streak computation *)
(* ===================================================================== *)

Module Calendar.

(** The date library in a browser whose zone is UTC: days are counted from
    1 January 1970 and written [yyyy-MM-dd]. *)
Definition civil_of_days (days : Z) : Z * Z * Z :=
  let z := days + 719468 in
  let era := z / 146097 in
  let doe := z - era * 146097 in
  let yoe := (doe - doe / 1460 + doe / 36524 - doe / 146096) / 365 in
  let doy := doe - (365 * yoe + yoe / 4 - yoe / 100) in
  let mp := (5 * doy + 2) / 153 in
  let d := doy - (153 * mp + 2) / 5 + 1 in
  let m := if mp <? 10 then mp + 3 else mp - 9 in
  let y := yoe + era * 400 in
  (if m <=? 2 then y + 1 else y, m, d).

Definition days_of_civil (y m d : Z) : Z :=
  let y := if m <=? 2 then y - 1 else y in
  let era := y / 400 in
  let yoe := y - era * 400 in
  let mp := if 2 <? m then m - 3 else m + 9 in
  let doy := (153 * mp + 2) / 5 + d - 1 in
  let doe := yoe * 365 + yoe / 4 - yoe / 100 + doy in
  era * 146097 + doe - 719468.

Definition digits (n : Z) : string := NilZero.string_of_int (Z.to_int n).

Definition two_digits (n : Z) : string :=
  if n <? 10 then "0" ++ digits n else digits n.

Definition format_days (days : Z) : string :=
  let '(y, m, d) := civil_of_days days in
  digits y ++ "-" ++ two_digits m ++ "-" ++ two_digits d.

Definition number (s : string) : Z :=
  match NilZero.uint_of_string s with
  | Some u => Z.of_uint u
  | None => 0
  end.

Definition parse_days (key : string) : Z :=
  days_of_civil (number (substring 0 4 key)) (number (substring 5 2 key))
                (number (substring 8 2 key)).

Definition day_ms : Z := 24 * 60 * 60 * 1000.

(** [format(startOfDay(new Date(t)), "yyyy-MM-dd")] *)
Definition formatDay (t : Z) : string := format_days (t / day_ms).

(** [new Date(key)], [setDate(getDate() - 1)], [format] *)
Definition prevDay (key : string) : string := format_days (parse_days key - 1).

Definition noon_2023_11_14 : Z := 1699963200000.

(** A task completed [k] days before 14 November 2023. *)
Definition completed_days_ago (k : Z) : Task :=
  mkTask "done" "completed" medium "daily" None
         (Some (noon_2023_11_14 - k * day_ms)) None.

Definition open_task : Task :=
  mkTask "open" "todo" medium "daily" None None None.

End Calendar.

(* ===================================================================== *)
(** * Reference definitions and sample data for the offline queue *)
(* ===================================================================== *)

Module QueueSpec.

Import OfflineQueue.

(** The class as it is written: nothing is executed, so nothing throws. *)
Definition as_written (item : QueuedOperation) : bool := true.

(** An execution step that throws for every operation: an operation call
    at the place the comment marks that fails each time, or, in the class
    as it is written, a console whose [log] throws. *)
Definition always_throws (item : QueuedOperation) : bool := false.

(** The longest prefix of the queue whose attempts all complete, and the
    queue from the first attempt that throws. *)
Fixpoint completing (execute : QueuedOperation -> bool)
         (q : list QueuedOperation) : list QueuedOperation :=
  match q with
  | [] => []
  | x :: rest => if execute x then x :: completing execute rest else []
  end.

Fixpoint from_first_failure (execute : QueuedOperation -> bool)
         (q : list QueuedOperation) : list QueuedOperation :=
  match q with
  | [] => []
  | x :: rest => if execute x then from_first_failure execute rest else q
  end.

(** What the handler does with an operation whose attempt threw. *)
Definition fate_of_failed (x : QueuedOperation) : Outcome :=
  if 3 <=? attempts x then discarded x else requeued x.

Definition queue_after_failure (q : list QueuedOperation)
  : list QueuedOperation :=
  match q with
  | [] => []
  | x :: rest => if 3 <=? attempts x then rest else (rest ++ [x])%list
  end.

(** [n] passes of [processQueue], one per trigger. *)
Fixpoint passes (stringify : list QueuedOperation -> string)
         (execute : QueuedOperation -> bool) (n : nat)
         (this : This) (h : Host) : This * Host :=
  match n with
  | O => (this, h)
  | S k =>
      let '(_, this', h') := processQueue stringify execute this h in
      passes stringify execute k this' h'
  end.

(** A stand-in for [JSON.stringify] that writes the operation tags only;
    nothing below depends on the text that is stored. *)
Definition stringify_tags (q : list QueuedOperation) : string :=
  "[" ++ String.concat "," (map operation q) ++ "]".

(** [JSON.parse] on the JSON texts [null], [[]] and [{}]; every other text
    is treated as a syntax error. *)
Definition parse_literal (text : string) : option JSValue :=
  if (text =? "null")%string then Some JNull
  else if (text =? "[]")%string then Some (JArr [])
  else if (text =? "{}")%string then Some (JObj [])
  else None.

Definition create_task : QueuedOperation :=
  mkOp (1699963200000 + (1 # 4))%Q "create_task" (JObj [("title", JStr "a")])
       (JObj []) "2023-11-14T12:00:00.000Z" 0.

Definition update_note : QueuedOperation :=
  mkOp (1699963200001 + (3 # 4))%Q "update_note" (JObj [("body", JStr "b")])
       (JObj []) "2023-11-14T12:00:00.001Z" 0.

Definition online : Host := mkHost None false false true [].

Definition offline : Host := mkHost None false false false [].

Definition idle (q : list QueuedOperation) : This := mkThis q false.

(** A storage that holds the JSON text [null] under the key of the queue. *)
Definition holds_null : Host := mkHost (Some "null") false false true [].

(** A storage that holds the JSON text of the empty array. *)
Definition holds_empty_array : Host := mkHost (Some "[]") false false true [].

End QueueSpec.

(* ===================================================================== *)
(** * Sequences of calls on the offline queue *)
(* ===================================================================== *)

Module QueueRuns.

Import OfflineQueue.

(** The arguments of one call of [add], with the values the clock and the
    random generator give during it. *)
Record AddCall := mkAdd {
  at_ms : Z;
  rnd : Q;
  iso : string;
  tag : string;
  payload : JSValue;
  meta : option JSValue
}.

(** What can happen to an instance: a call of one of its methods, or the
    browser going online or offline.  The constructor registers
    [() => this.processQueue()] as listener of the [online] event, so going
    online makes a drain pass.  A call that can make a pass carries the
    behaviour of the execution step during that pass. *)
Inductive Command :=
| call_add (a : AddCall) (execute : QueuedOperation -> bool)
| call_processQueue (execute : QueuedOperation -> bool)
| call_clearQueue
| event_online (execute : QueuedOperation -> bool)
| event_offline.

Definition set_onLine (b : bool) (h : Host) : Host :=
  mkHost (stored h) (getItem_throws h) (setItem_throws h) b (console h).

(** The operation a call of [add] creates. *)
Definition created (a : AddCall) : QueuedOperation :=
  mkOp (inject_Z (at_ms a) + rnd a)%Q (tag a) (payload a)
       (match meta a with Some m => m | None => JObj [] end) (iso a) 0.

Definition step (stringify : list QueuedOperation -> string) (c : Command)
           (st : list Outcome * This * Host) : list Outcome * This * Host :=
  let '(seen, this, h) := st in
  match c with
  | call_add a execute =>
      let '(_, this1, h1) :=
        push stringify (at_ms a) (rnd a) (iso a) (tag a) (payload a) (meta a)
             this h in
      if onLine h1 then
        let '(os, this2, h2) := processQueue stringify execute this1 h1 in
        ((seen ++ os)%list, this2, h2)
      else (seen, this1, h1)
  | call_processQueue execute =>
      let '(os, this', h') := processQueue stringify execute this h in
      ((seen ++ os)%list, this', h')
  | call_clearQueue =>
      let '(this', h') := clearQueue stringify this h in (seen, this', h')
  | event_online execute =>
      let '(os, this', h') :=
        processQueue stringify execute this (set_onLine true h) in
      ((seen ++ os)%list, this', h')
  | event_offline => (seen, this, set_onLine false h)
  end.

(** A run: the commands in order, with the fates of the operations handled
    so far. *)
Definition run (stringify : list QueuedOperation -> string)
           (cs : list Command) (st : list Outcome * This * Host)
  : list Outcome * This * Host :=
  fold_left (fun st c => step stringify c st) cs st.

(** Every attempt counter of the queue is 0. *)
Definition zero_counters (q : list QueuedOperation) : Prop :=
  Forall (fun op => attempts op = 0) q.

Definition is_discarded (o : Outcome) : bool :=
  match o with
  | discarded _ => true
  | _ => false
  end.

Definition is_warning (e : ConsoleEntry) : bool :=
  match e with
  | warn_removing _ => true
  | _ => false
  end.

(** A fresh instance on a browser with nothing stored. *)
Definition fresh : list Outcome * This * Host :=
  ([], mkThis [] false, mkHost None false false false []).

Definition sample_add (n : Z) : AddCall :=
  mkAdd (1699963200000 + n) (1 # 4) "2023-11-14T12:00:00.000Z" "create_task"
        (JObj [("title", JStr "a")]) None.

End QueueRuns.

(* ===================================================================== *)
(** * Orders on the answers of the insight helpers *)
(* ===================================================================== *)

Module InsightOrder.

(** The risk levels in increasing order. *)
Definition rank (level : string) : Z :=
  if (level =? "high")%string then 2
  else if (level =? "medium")%string then 1
  else 0.

End InsightOrder.

(* ===================================================================== *)
(** * The Insights page *)
(* ===================================================================== *)

Module InsightsPage.

Import AIInsightsHelpers.

(** A number inside a template string. *)
Definition decimal (n : Z) : string := NilZero.string_of_int (Z.to_int n).

(** One entry of the array [insights]; the icon is left out. *)
Record Insight := mkInsight {
  type : string;
  title : string;
  message : string;
  show : bool
}.

Definition is_completed (t : Task) : bool := (status t =? "completed")%string.

Definition is_high (t : Task) : bool :=
  match priority t with
  | high => true
  | _ => false
  end.

Definition completedTasks (tasks : list Task) : Z :=
  Z.of_nat (List.length (filter is_completed tasks)).

Definition totalFocusTime (focusSessions : list FocusSession) : Z :=
  fold_left (fun sum s => sum + or0 (duration s)) focusSessions 0.

Definition avgSessionDuration (focusSessions : list FocusSession) : Z :=
  if (0 <? List.length focusSessions)%nat
  then Math_round (inject_Z (totalFocusTime focusSessions)
                   / inject_Z (Z.of_nat (List.length focusSessions)))%Q
  else 0.

Definition pendingTasks (tasks : list Task) : Z :=
  Z.of_nat (List.length (filter (fun t => negb (is_completed t)) tasks)).

Definition highPriorityPending (tasks : list Task) : Z :=
  Z.of_nat (List.length
              (filter (fun t => negb (is_completed t) && is_high t) tasks)).

(** The field [pattern] and the field [message] of a productivity
    pattern. *)
Definition pattern_of (p : ProductivityPattern) : string :=
  match p with
  | insufficient_data _ => "insufficient_data"
  | identified _ _ _ _ => "identified"
  end.

Definition message_of (p : ProductivityPattern) : string :=
  match p with
  | insufficient_data m => m
  | identified _ _ _ m => m
  end.

Section Page.

(** [isThisWeek t] is [isThisWeek(new Date(t))] of the date library;
    [formatDay] and [prevDay] are those of the streak computation; [now],
    [today] and [tz] are the clock, the key of the current day and the
    offset of the zone. *)
Variable isThisWeek : Z -> bool.
Variable formatDay : Z -> string.
Variable prevDay : string -> string.
Variable now : Z.
Variable today : string.
Variable tz : Z.

Definition completedThisWeek (tasks : list Task) : Z :=
  Z.of_nat (List.length
              (filter (fun t => is_completed t && present (completed_at t)
                                && isThisWeek (or0 (completed_at t))) tasks)).

Definition insights (tasks : list Task) (focusSessions : list FocusSession)
  : list Insight :=
  let streak := Streak.streak formatDay prevDay today tasks in
  let burnoutAnalysis := analyzeBurnoutRisk now focusSessions tasks in
  let productivityPatterns := detectProductivityPatterns tz focusSessions in
  [ mkInsight "success" "Great Progress!"
      ("You've completed " ++ decimal (completedThisWeek tasks)
         ++ " tasks this week. Keep up the momentum!")
      (5 <=? completedThisWeek tasks);
    mkInsight "warning" "Burnout Alert"
      (recommendation burnoutAnalysis)
      ((riskLevel burnoutAnalysis =? "high")%string
       || (riskLevel burnoutAnalysis =? "medium")%string);
    mkInsight "warning" "High Priority Tasks"
      ("You have " ++ decimal (highPriorityPending tasks)
         ++ " high-priority tasks pending. Consider tackling them first.")
      (3 <? highPriorityPending tasks);
    mkInsight "info" "Productivity Pattern"
      (if (message_of productivityPatterns =? "")%string
       then "Keep tracking to see your patterns"
       else message_of productivityPatterns)
      (pattern_of productivityPatterns =? "identified")%string;
    mkInsight "info" "Focus Pattern"
      ("Your average focus session is "
         ++ decimal (avgSessionDuration focusSessions)
         ++ " minutes. Try extending to 45 minutes for deeper work.")
      ((avgSessionDuration focusSessions <? 30)
       && (5 <? List.length focusSessions)%nat);
    mkInsight "success" "Consistency Win"
      (decimal streak
         ++ " day streak! Daily progress leads to long-term success.")
      (3 <=? streak) ].

Definition activeInsights (tasks : list Task)
           (focusSessions : list FocusSession) : list Insight :=
  filter show (insights tasks focusSessions).

End Page.

(** Sample data: no task is counted in the current week, days are those of
    the UTC calendar. *)
Definition never_this_week (t : Z) : bool := false.

End InsightsPage.

(* ===================================================================== *)
(** * The Dashboard page *)
(* ===================================================================== *)

Module DashboardPage.

(** The greeting the effect sets from [new Date().getHours()]. *)
Definition greeting (hour : Z) : string :=
  if hour <? 12 then "Good morning"
  else if hour <? 18 then "Good afternoon"
  else "Good evening".

Section Page.

(** [isToday t] is [isToday(new Date(t))] of the date library. *)
Variable isToday : Z -> bool.

Definition completedToday (tasks : list Task) : Z :=
  Z.of_nat (List.length
              (filter (fun t => (status t =? "completed")%string
                                && present (completed_at t)
                                && isToday (or0 (completed_at t))) tasks)).

Definition todaySessions (focusSessions : list FocusSession)
  : list FocusSession :=
  filter (fun s => present (started_at s) && isToday (or0 (started_at s)))
         focusSessions.

Definition focusMinutesToday (focusSessions : list FocusSession) : Z :=
  fold_left (fun sum s => sum + or0 (duration s)) (todaySessions focusSessions) 0.

End Page.

(** The object [handleToggleTask] hands to the update: the task with its
    status replaced and its completion time set to the current instant for
    the status [completed] and to [null] otherwise.  [now] is the instant of
    [new Date()]. *)
Definition handleToggleTask (t : Task) (newStatus : string) (now : Z) : Task :=
  mkTask (title t) newStatus (priority t) (category t) (due_date t)
         (if (newStatus =? "completed")%string then Some now else None)
         (time_estimate t).

End DashboardPage.

(* ===================================================================== *)
(** * safeAsyncUtils: safeAsync *)
(* ===================================================================== *)

Module SafeAsync.

Section SafeAsync.

(** The type of what [asyncFn] resolves to and the type of what is thrown. *)
Variable Data : Type.
Variable Err : Type.

(** How a call of [asyncFn] ends. *)
Inductive Settled :=
| returns (d : Data)
| throws (e : Err).

(** The options after destructuring.  A callback answers [None] when it
    returns and [Some e] when it throws [e]. *)
Record Options := mkOptions {
  errorMessage : string;
  showNotification : bool;
  retryCount : Z;
  retryDelay : Z;
  onError : option (Err -> option Err);
  onSuccess : option (Data -> option Err)
}.

(** The defaults of the destructuring. *)
Definition defaults : Options :=
  mkOptions "An error occurred" false 0 1000 None None.

(** What the function does, in order: calls of [asyncFn] (numbered from 0),
    calls of the callbacks, lines on the console and waits. *)
Inductive Event :=
| called (attempt : nat)
| told_success (d : Data)
| told_error (e : Err)
| logged_attempt (number : nat) (e : Err)
| waited (ms : Z)
| logged_message (text : string) (e : Err).

(** The object the promise resolves to. *)
Record Result := mkResult {
  success : bool;
  data : option Data;
  error : option Err;
  message : option string
}.

(** The promise is resolved with a result or rejected with what was
    thrown. *)
Inductive Promise :=
| resolved (r : Result)
| rejected (e : Err).

(** [asyncFn k] is how the call number [k] of [asyncFn] ends; [hasWindow]
    is [typeof window !== "undefined"]. *)
Variable asyncFn : nat -> Settled.
Variable hasWindow : bool.
Variable options : Options.

(** The handler of the [try] block in the turn [attempt], with the turns
    that remain given by [next]. *)
Definition handler (attempt : nat) (e : Err) (trace : list Event)
           (next : option Err -> list Event -> Promise * list Event)
  : Promise * list Event :=
  let lastError := Some e in
  let trace := (trace ++ [logged_attempt (attempt + 1) e])%list in
  if Z.of_nat attempt <? retryCount options then
    next lastError (trace ++ [waited (retryDelay options)])%list
  else
    let after_callback :=
      match onError options with
      | Some f => (f e, (trace ++ [told_error e])%list)
      | None => (None, trace)
      end in
    match after_callback with
    | (Some thrown, trace) => (rejected thrown, trace)
    | (None, trace) =>
        let trace :=
          if showNotification options && hasWindow
          then (trace ++ [logged_message (errorMessage options) e])%list
          else trace in
        (resolved (mkResult false None lastError (Some (errorMessage options))),
         trace)
    end.

(** The [for] loop: [remaining] turns are left, the next one being the
    turn [attempt]; after the last turn comes the [return] that follows the
    loop. *)
Fixpoint loop (remaining attempt : nat) (lastError : option Err)
         (trace : list Event) : Promise * list Event :=
  match remaining with
  | O =>
      (resolved (mkResult false None lastError (Some (errorMessage options))),
       trace)
  | S remaining' =>
      let trace := (trace ++ [called attempt])%list in
      let next := loop remaining' (S attempt) in
      match asyncFn attempt with
      | returns result =>
          match onSuccess options with
          | Some f =>
              let trace := (trace ++ [told_success result])%list in
              match f result with
              | Some e => handler attempt e trace next
              | None =>
                  (resolved (mkResult true (Some result) None None), trace)
              end
          | None => (resolved (mkResult true (Some result) None None), trace)
          end
      | throws e => handler attempt e trace next
      end
  end.

(** The loop runs for [attempt = 0, ..., retryCount]. *)
Definition safeAsync : Promise * list Event :=
  loop (Z.to_nat (retryCount options + 1)) 0 None [].

(** The calls of [asyncFn] and the waits among the events. *)
Definition calls (trace : list Event) : list nat :=
  flat_map (fun ev => match ev with called k => [k] | _ => [] end) trace.

Definition waits (trace : list Event) : list Z :=
  flat_map (fun ev => match ev with waited ms => [ms] | _ => [] end) trace.

Definition errors_told (trace : list Event) : list Err :=
  flat_map (fun ev => match ev with told_error e => [e] | _ => [] end) trace.

(** What the turn [k] hands to the handler of the [try] block: the error
    [asyncFn] throws, or the one [onSuccess] throws on its result; [None]
    when the turn completes. *)
Definition attempt_error (k : nat) : option Err :=
  match asyncFn k with
  | throws e => Some e
  | returns d =>
      match onSuccess options with
      | Some f => f d
      | None => None
      end
  end.

(** What [asyncFn] returns in the turn [k], if it returns. *)
Definition attempt_data (k : nat) : option Data :=
  match asyncFn k with
  | returns d => Some d
  | throws _ => None
  end.

(** [onError] returns on every error (or there is no [onError]). *)
Definition onError_returns : Prop :=
  match onError options with
  | Some f => forall e, f e = None
  | None => True
  end.

End SafeAsync.

Arguments called {Data Err} attempt.
Arguments told_success {Data Err} d.
Arguments told_error {Data Err} e.
Arguments logged_attempt {Data Err} number e.
Arguments waited {Data Err} ms.
Arguments logged_message {Data Err} text e.
Arguments returns {Data Err} d.
Arguments throws {Data Err} e.
Arguments mkOptions {Data Err}.
Arguments defaults {Data Err}.
Arguments resolved {Data Err} r.
Arguments rejected {Data Err} e.
Arguments mkResult {Data Err}.
Arguments errorMessage {Data Err} o.
Arguments showNotification {Data Err} o.
Arguments retryCount {Data Err} o.
Arguments retryDelay {Data Err} o.
Arguments onError {Data Err} o.
Arguments onSuccess {Data Err} o.
Arguments success {Data Err} r.
Arguments data {Data Err} r.
Arguments error {Data Err} r.
Arguments message {Data Err} r.
Arguments handler {Data Err}.
Arguments loop {Data Err}.
Arguments safeAsync {Data Err}.
Arguments calls {Data Err}.
Arguments waits {Data Err}.
Arguments errors_told {Data Err}.
Arguments attempt_error {Data Err}.
Arguments attempt_data {Data Err}.
Arguments onError_returns {Data Err}.

(** A function that throws on its first [k] calls and then returns. *)
Definition flaky (k : nat) (attempt : nat) : @Settled Z string :=
  if (attempt <? k)%nat then throws "fetch failed" else returns 200.

End SafeAsync.

(* ===================================================================== *)
(** * safeAsyncUtils: validateData and safeCRUD *)
(* ===================================================================== *)

Module SafeCRUD.

(** The data handed to [safeCRUD] is [null] or an object whose own
    properties hold JSON values.  A JS string is taken with one character
    per code unit. *)
Definition Fields := list (string * OfflineQueue.JSValue).

(** What [data[field]] finds: nothing ([undefined]), an own property, or a
    property that [data] inherits, which is a member of [Object.prototype]
    and so neither a string, a number, a boolean, an array nor [null]. *)
Inductive Property :=
| absent
| own (value : OfflineQueue.JSValue)
| member (name : string).

Fixpoint get_own (data : Fields) (field : string)
  : option OfflineQueue.JSValue :=
  match data with
  | [] => None
  | (name, value) :: rest =>
      if (name =? field)%string then Some value else get_own rest field
  end.

(** [data[field]]: the own property first, the inherited one otherwise. *)
Definition get (inherited : string -> bool) (data : Fields) (field : string)
  : Property :=
  match get_own data field with
  | Some value => own value
  | None => if inherited field then member field else absent
  end.

Definition typeof (value : OfflineQueue.JSValue) : string :=
  match value with
  | OfflineQueue.JNull => "object"
  | OfflineQueue.JBool _ => "boolean"
  | OfflineQueue.JNum _ => "number"
  | OfflineQueue.JStr _ => "string"
  | OfflineQueue.JArr _ => "object"
  | OfflineQueue.JObj _ => "object"
  end.

(** [value === undefined || value === null]. *)
Definition nullish (value : Property) : bool :=
  match value with
  | absent => true
  | own OfflineQueue.JNull => true
  | _ => false
  end.

(** [value === undefined || value === null || value === ""]. *)
Definition blank (value : Property) : bool :=
  match value with
  | own (OfflineQueue.JStr s) => (s =? "")%string
  | _ => nullish value
  end.

Definition ltb (x y : Q) : bool := negb (Qle_bool y x).

(** What is thrown: an object with an optional [message] and an optional
    [status]. *)
Record Error := mkError {
  message : option string;
  status : option Q
}.

(** One rule.  [required] is the truthiness of [rule.required]; the other
    properties are [None] when the rule does not have them.  A validator
    returns a string, or [None] for [null] or [undefined], or it throws. *)
Record Rule := mkRule {
  required : bool;
  type : option string;
  minLength : option Q;
  maxLength : option Q;
  min : option Q;
  max : option Q;
  validate : option (Property -> @SafeAsync.Settled (option string) Error)
}.

(** Truthiness of an optional number, and of an optional string. *)
Definition truthy_number (x : option Q) : option Q :=
  match x with
  | Some q => if Qeq_bool q 0 then None else Some q
  | None => None
  end.

Definition truthy_string (x : option string) : option string :=
  match x with
  | Some s => if (s =? "")%string then None else Some s
  | None => None
  end.

Section Validate.

(** The conversion of a number to a string inside a template string, and
    the test for the properties that the data inherits. *)
Variable toString : Q -> string.
Variable inherited : string -> bool.

(** The tests of the block under [// Type check] on a value that is
    neither a string, a number, a boolean nor an array when [plain] is
    [None], and of the type of [plain] otherwise. *)
Definition type_error (field ty : string)
           (plain : option OfflineQueue.JSValue) : option string :=
  let type_is name := match plain with
                      | Some v => (typeof v =? name)%string
                      | None => false
                      end in
  let is_array := match plain with
                  | Some v => OfflineQueue.isArray v
                  | None => false
                  end in
  if (ty =? "string")%string && negb (type_is "string")
  then Some (field ++ " must be a string")%string
  else if (ty =? "number")%string && negb (type_is "number")
  then Some (field ++ " must be a number")%string
  else if (ty =? "boolean")%string && negb (type_is "boolean")
  then Some (field ++ " must be a boolean")%string
  else if (ty =? "array")%string && negb is_array
  then Some (field ++ " must be an array")%string
  else None.

(** The block under [// Type check]. *)
Definition type_check (field : string) (rule : Rule) (value : Property)
  : option string :=
  match truthy_string (type rule) with
  | Some ty =>
      match value with
      | absent => None
      | own OfflineQueue.JNull => None
      | own v => type_error field ty (Some v)
      | member _ => type_error field ty None
      end
  | None => None
  end.

(** The first of two answers that is an error. *)
Definition orElse (first second : option string) : option string :=
  match first with
  | Some m => Some m
  | None => second
  end.

(** The two tests under [// Min/max length for strings]. *)
Definition length_check (field : string) (rule : Rule) (value : Property)
  : option string :=
  match value with
  | own (OfflineQueue.JStr s) =>
      let length := inject_Z (Z.of_nat (String.length s)) in
      orElse
        match truthy_number (minLength rule) with
        | Some n =>
            if ltb length n
            then Some (field ++ " must be at least " ++ toString n
                             ++ " characters")%string
            else None
        | None => None
        end
        match truthy_number (maxLength rule) with
        | Some m =>
            if ltb m length
            then Some (field ++ " must be no more than " ++ toString m
                             ++ " characters")%string
            else None
        | None => None
        end
  | _ => None
  end.

(** The two tests under [// Min/max value for numbers]. *)
Definition range_check (field : string) (rule : Rule) (value : Property)
  : option string :=
  match value with
  | own (OfflineQueue.JNum x) =>
      orElse
        match min rule with
        | Some n =>
            if ltb x n
            then Some (field ++ " must be at least " ++ toString n)%string
            else None
        | None => None
        end
        match max rule with
        | Some m =>
            if ltb m x
            then Some (field ++ " must be no more than " ++ toString m)%string
            else None
        | None => None
        end
  | _ => None
  end.

(** The tests that precede the custom validation function. *)
Definition builtin_check (field : string) (rule : Rule) (value : Property)
  : option string :=
  if required rule && blank value
  then Some (field ++ " is required")%string
  else orElse (type_check field rule value)
         (orElse (length_check field rule value)
            (range_check field rule value)).

(** The call of the custom validation function: its answer when it is
    truthy, or what it throws. *)
Definition custom_check (rule : Rule) (value : Property)
  : @SafeAsync.Settled (option string) Error :=
  match validate rule with
  | Some f =>
      match f value with
      | SafeAsync.returns answer => SafeAsync.returns (truthy_string answer)
      | SafeAsync.throws e => SafeAsync.throws e
      end
  | None => SafeAsync.returns None
  end.

(** The body of the [for] loop for one entry of [rules]: the error
    message it returns, [None] when it goes on to the next entry, or what
    it throws. *)
Definition check (field : string) (rule : Rule) (value : Property)
  : @SafeAsync.Settled (option string) Error :=
  match builtin_check field rule value with
  | Some m => SafeAsync.returns (Some m)
  | None => custom_check rule value
  end.

(** [rules] is given as [Object.entries(rules)] lists it. *)
Fixpoint validateData (data : Fields) (rules : list (string * Rule))
  : @SafeAsync.Settled (option string) Error :=
  match rules with
  | [] => SafeAsync.returns None
  | (field, rule) :: rest =>
      match check field rule (get inherited data field) with
      | SafeAsync.returns None => validateData data rest
      | outcome => outcome
      end
  end.

(** [text.includes(word)]. *)
Definition includes (text word : string) : bool :=
  match String.index 0 word text with
  | Some _ => true
  | None => false
  end.

(** [error.message?.includes(word)], as a condition. *)
Definition mentions (e : Error) (word : string) : bool :=
  match message e with
  | Some text => includes text word
  | None => false
  end.

Definition status_is (e : Error) (code : Q) : bool :=
  match status e with
  | Some s => Qeq_bool s code
  | None => false
  end.

(** The third argument of [safeCRUD]. *)
Record Validation := mkValidation {
  rules : option (list (string * Rule));
  errorMessage : option string
}.

Variable Data : Type.

(** How [operation(data)] ends. *)
Variable operation : option Fields -> @SafeAsync.Settled Data Error.

Record Result := mkResult {
  success : bool;
  data : option Data;
  error : option Error;
  result_message : option string;
  isNetworkError : bool;
  isAuthError : bool
}.

Inductive Event :=
| called (argument : option Fields)
| logged (e : Error).

(** The [catch] block. *)
Definition classify (validation : Validation) (e : Error) : Result :=
  if mentions e "network" || mentions e "fetch"
  then mkResult false None (Some e)
         (Some "Network error. Please check your connection and try again.")
         true false
  else if mentions e "unauthorized" || status_is e 401
  then mkResult false None (Some e)
         (Some "Session expired. Please log in again.")
         false true
  else mkResult false None (Some e)
         (Some match truthy_string (errorMessage validation) with
               | Some m => m
               | None => "Operation failed. Please try again."
               end)
         false false.

(** The validation that opens the [try] block: the validation error,
    [None] when there is nothing to validate or nothing wrong, or what a
    validator throws. *)
Definition validationError (input : option Fields) (validation : Validation)
  : @SafeAsync.Settled (option string) Error :=
  match input, rules validation with
  | Some fields, Some rs =>
      match validateData fields rs with
      | SafeAsync.returns answer => SafeAsync.returns (truthy_string answer)
      | SafeAsync.throws e => SafeAsync.throws e
      end
  | _, _ => SafeAsync.returns None
  end.

(** The function: the validation and the call of the operation are both
    inside the [try] block, so that what either throws reaches the
    [catch] block. *)
Definition safeCRUD (input : option Fields) (validation : Validation)
  : Result * list Event :=
  match validationError input validation with
  | SafeAsync.returns (Some m) =>
      (mkResult false None (Some (mkError (Some m) None)) (Some m) false false,
       [])
  | SafeAsync.throws e => (classify validation e, [logged e])
  | SafeAsync.returns None =>
      match operation input with
      | SafeAsync.returns result =>
          (mkResult true (Some result) None None false false, [called input])
      | SafeAsync.throws e =>
          (classify validation e, [called input; logged e])
      end
  end.

(** The calls of the operation in a trace. *)
Definition calls (trace : list Event) : list (option Fields) :=
  flat_map (fun ev => match ev with
                      | called argument => [argument]
                      | logged _ => []
                      end) trace.

End Validate.

Arguments mkResult {Data}.
Arguments success {Data} r.
Arguments data {Data} r.
Arguments error {Data} r.
Arguments result_message {Data} r.
Arguments isNetworkError {Data} r.
Arguments isAuthError {Data} r.
Arguments classify {Data}.
Arguments safeCRUD toString inherited {Data}.

(** A reading of the rules: what a value must satisfy for the entry
    [rule] to let it through. *)
Definition accepted (rule : Rule) (value : Property) : Prop :=
  (required rule = true -> blank value = false)
  /\ (forall ty, type rule = Some ty -> nullish value = false ->
        (ty = "string" -> exists s, value = own (OfflineQueue.JStr s))
        /\ (ty = "number" -> exists x, value = own (OfflineQueue.JNum x))
        /\ (ty = "boolean" -> exists b, value = own (OfflineQueue.JBool b))
        /\ (ty = "array" ->
            exists items, value = own (OfflineQueue.JArr items)))
  /\ (forall s, value = own (OfflineQueue.JStr s) ->
        (forall n, minLength rule = Some n -> ~ n == 0 ->
                   n <= inject_Z (Z.of_nat (String.length s)))
        /\ (forall m, maxLength rule = Some m -> ~ m == 0 ->
                      inject_Z (Z.of_nat (String.length s)) <= m))%Q
  /\ (forall x, value = own (OfflineQueue.JNum x) ->
        (forall n, min rule = Some n -> n <= x)
        /\ (forall m, max rule = Some m -> x <= m))%Q
  /\ (forall f, validate rule = Some f ->
                f value = SafeAsync.returns None
                \/ f value = SafeAsync.returns (Some "")).

(** What [safeCRUD] asks of its input before it calls the operation. *)
Definition valid (inherited : string -> bool) (input : option Fields)
           (validation : Validation) : Prop :=
  forall fields rs,
    input = Some fields -> rules validation = Some rs ->
    forall field rule,
      In (field, rule) rs -> accepted rule (get inherited fields field).

(** The first entry of the rules that does not accept its value is
    [(field, rule)]. *)
Definition first_failure (inherited : string -> bool)
           (input : option Fields) (validation : Validation)
           (field : string) (rule : Rule) (value : Property) : Prop :=
  exists fields before after,
    input = Some fields
    /\ rules validation = Some (before ++ (field, rule) :: after)%list
    /\ (forall f r, In (f, r) before -> accepted r (get inherited fields f))
    /\ value = get inherited fields field
    /\ ~ accepted rule value.

(** The error [e] is thrown inside the [try] block of [safeCRUD]: by the
    operation, called on an input that is valid, or by the validator of
    the first entry that does not accept its value, reached because the
    tests before it found nothing. *)
Definition thrown_in_try {Data : Type} (toString : Q -> string)
           (inherited : string -> bool)
           (operation : option Fields -> @SafeAsync.Settled Data Error)
           (input : option Fields) (validation : Validation) (e : Error)
  : Prop :=
  (valid inherited input validation /\ operation input = SafeAsync.throws e)
  \/ (exists field rule value,
        first_failure inherited input validation field rule value
        /\ check toString field rule value = SafeAsync.throws e).

(** A rule without its zero length bounds. *)
Definition without_zero_lengths (rule : Rule) : Rule :=
  mkRule (required rule) (type rule)
    (truthy_number (minLength rule)) (truthy_number (maxLength rule))
    (min rule) (max rule) (validate rule).

(** Sample rules and data. *)
Definition title_rule : Rule :=
  mkRule true (Some "string") (Some 1%Q) (Some 100%Q) None None None.

Definition estimate_rule : Rule :=
  mkRule false (Some "number") None None (Some 0%Q) (Some 480%Q) None.

Definition task_rules : list (string * Rule) :=
  [("title", title_rule); ("time_estimate", estimate_rule)].

Definition task_fields : Fields :=
  [("title", OfflineQueue.JStr "Write report");
   ("time_estimate", OfflineQueue.JNum 30%Q)].

(** A rule on a name that every object inherits, and a rule whose
    validator throws. *)
Definition constructor_rule : Rule :=
  mkRule true None None None None None None.

Definition lookup_failed : Error :=
  mkError (Some "network unreachable while checking the title") None.

Definition remote_rule : Rule :=
  mkRule false None None None None None
    (Some (fun _ => SafeAsync.throws lookup_failed)).

Definition show_integer (q : Q) : string :=
  InsightsPage.decimal (Qfloor q).

Definition saves (input : option Fields) : @SafeAsync.Settled Z Error :=
  SafeAsync.returns 1.

Definition offline_fetch (input : option Fields) : @SafeAsync.Settled Z Error :=
  SafeAsync.throws (mkError (Some "Failed to fetch: unauthorized") (Some 401%Q)).

End SafeCRUD.

(* ===================================================================== *)
(** * safeAsyncUtils: safeBatchOperation *)
(* ===================================================================== *)

Module SafeBatch.

(** [Array.prototype.slice] with its two arguments: a negative index
    counts from the end, and both are brought into the array. *)
Definition clamp (len k : Z) : Z :=
  if k <? 0 then Z.max (len + k) 0 else Z.min k len.

Definition slice {A : Type} (l : list A) (start finish : Z) : list A :=
  let len := Z.of_nat (List.length l) in
  let from := clamp len start in
  let to := clamp len finish in
  firstn (Z.to_nat (to - from)) (skipn (Z.to_nat from) l).

(** What [onProgress] is called with. *)
Record Progress := mkProgress {
  current : Z;
  progress_total : Z;
  progress_success : Z;
  progress_failed : Z
}.

Section Batch.

Variable Item : Type.
Variable Data : Type.
Variable Err : Type.

(** [onProgress] is [true] when a callback is given; the callback is
    taken to return. *)
Record Options := mkOptions {
  concurrency : Z;
  continueOnError : bool;
  onProgress : bool
}.

Definition defaults : Options := mkOptions 5 true false.

(** One entry of [results]: [{success: true, item, data}] or
    [{success: false, item, error}]. *)
Inductive ItemResult :=
| done (item : Item) (data : Data)
| failure (item : Item) (error : Err).

Record Summary := mkSummary {
  success : Z;
  failed : Z;
  total : Z;
  results : list ItemResult
}.

(** The promise [safeBatchOperation] returns; [pending] when the turns
    allowed did not settle it. *)
Inductive Promise :=
| resolved (s : Summary)
| rejected (e : Err)
| pending.

Inductive Event :=
| started (item : Item)
| logged (item : Item) (e : Err)
| progress (p : Progress).

Variable items : list Item.

(** How the promise of [operation(item)] settles. *)
Variable operation : Item -> @SafeAsync.Settled Data Err.

(** The order in which the operations of one batch settle; the entries
    are the items of the batch with their index in it. *)
Variable settle : list (nat * Item) -> list (nat * Item).

Variable options : Options.

Definition indexed (batch : list Item) : list (nat * Item) :=
  combine (seq 0 (List.length batch)) batch.

Definition report (i : Z) (index : nat) (success failed : Z) : list Event :=
  if onProgress options
  then [progress (mkProgress (i + Z.of_nat index + 1)
                    (Z.of_nat (List.length items)) success failed)]
  else [].

(** What happens when the operation of one item settles: the rest of the
    callback given to [batch.map], on the counters and the trace. *)
Definition settled (i : Z) (state : Z * Z * list Event) (entry : nat * Item)
  : Z * Z * list Event :=
  let '(success, failed, trace) := state in
  let '(index, item) := entry in
  match operation item with
  | SafeAsync.returns _ =>
      let success := success + 1 in
      (success, failed, (trace ++ report i index success failed)%list)
  | SafeAsync.throws e =>
      let failed := failed + 1 in
      (success, failed,
       (trace ++ [logged item e] ++ report i index success failed)%list)
  end.

(** What the promise of one item is fulfilled with, if it is. *)
Definition result_of (item : Item) : ItemResult :=
  match operation item with
  | SafeAsync.returns result => done item result
  | SafeAsync.throws e => failure item e
  end.

(** The first rejection among the promises of a batch, in the order in
    which they settle: what [Promise.all] rejects with. *)
Fixpoint first_rejection (entries : list (nat * Item)) : option Err :=
  match entries with
  | [] => None
  | (_, item) :: rest =>
      match operation item with
      | SafeAsync.throws e =>
          if continueOnError options then first_rejection rest else Some e
      | SafeAsync.returns _ => first_rejection rest
      end
  end.

(** The [for] loop, with [fuel] turns allowed. *)
Fixpoint loop (fuel : nat) (i : Z) (success failed : Z)
         (results : list ItemResult) (trace : list Event)
  : Promise * list Event :=
  match fuel with
  | O => (pending, trace)
  | S fuel =>
      if i <? Z.of_nat (List.length items) then
        let batch := slice items i (i + concurrency options) in
        let trace := (trace ++ map started batch)%list in
        let '(success, failed, trace) :=
          fold_left (settled i) (settle (indexed batch))
            (success, failed, trace) in
        match first_rejection (settle (indexed batch)) with
        | Some e => (rejected e, trace)
        | None =>
            loop fuel (i + concurrency options) success failed
              (results ++ map result_of batch)%list trace
        end
      else
        (resolved (mkSummary success failed
                     (Z.of_nat (List.length items)) results),
         trace)
  end.

Definition safeBatchOperation (fuel : nat) : Promise * list Event :=
  loop fuel 0 0 0 [] [].

(** The items whose operation was started, and the items that returned or
    threw. *)
Definition started_items (trace : list Event) : list Item :=
  flat_map (fun ev => match ev with
                      | started item => [item]
                      | _ => []
                      end) trace.

(** What [onProgress] was called with, call after call. *)
Definition reports (trace : list Event) : list Progress :=
  flat_map (fun ev => match ev with
                      | progress p => [p]
                      | _ => []
                      end) trace.

Definition returned (item : Item) : bool :=
  match operation item with
  | SafeAsync.returns _ => true
  | SafeAsync.throws _ => false
  end.

Definition threw (item : Item) : bool := negb (returned item).

Definition count (p : Item -> bool) (l : list Item) : Z :=
  Z.of_nat (List.length (filter p l)).

End Batch.

Arguments mkOptions : clear implicits.
Arguments done {Item Data Err}.
Arguments failure {Item Data Err}.
Arguments mkSummary {Item Data Err}.
Arguments success {Item Data Err} s.
Arguments failed {Item Data Err} s.
Arguments total {Item Data Err} s.
Arguments results {Item Data Err} s.
Arguments resolved {Item Data Err} s.
Arguments rejected {Item Data Err} e.
Arguments pending {Item Data Err}.
Arguments started {Item Err} item.
Arguments logged {Item Err} item e.
Arguments progress {Item Err} p.
Arguments indexed {Item}.
Arguments report {Item Err}.
Arguments settled {Item Data Err}.
Arguments result_of {Item Data Err}.
Arguments first_rejection {Item Data Err}.
Arguments loop {Item Data Err}.
Arguments safeBatchOperation {Item Data Err}.
Arguments started_items {Item Err}.
Arguments reports {Item Err}.
Arguments returned {Item Data Err}.
Arguments threw {Item Data Err}.
Arguments count {Item}.

(** The numbers [base + 1], ..., [base + n]. *)
Definition upto (base : Z) (n : nat) : list Z :=
  map (fun k => base + Z.of_nat k) (seq 1 n).

(** The number of operations settled that a progress report shows. *)
Definition settled_so_far (p : Progress) : Z :=
  progress_success p + progress_failed p.

(** An operation that throws on the odd numbers. *)
Definition even_only (n : Z) : @SafeAsync.Settled Z string :=
  if Z.even n then SafeAsync.returns (2 * n) else SafeAsync.throws "odd".

(** Two orders of settlement: the order of the calls, and its reverse. *)
Definition in_order (entries : list (nat * Z)) : list (nat * Z) := entries.

Definition last_first (entries : list (nat * Z)) : list (nat * Z) :=
  rev entries.

End SafeBatch.

(* ===================================================================== *)
(** * Properties of the array helpers *)
(* ===================================================================== *)

Module JSArrayFacts.

Lemma insert_perm {A : Type} (cmp : A -> A -> Z) (x : A) (back : list A) :
  Permutation (x :: back) (JSArray.insert cmp x back).
Proof.
  induction back as [|y back IH]; simpl; [reflexivity|].
  destruct (0 <? cmp y x); [|reflexivity].
  rewrite perm_swap. apply perm_skip, IH.
Qed.

Lemma sort_perm {A : Type} (cmp : A -> A -> Z) (l : list A) :
  Permutation l (JSArray.sort cmp l).
Proof.
  unfold JSArray.sort. rewrite <- Permutation_rev.
  assert (H : forall back,
             Permutation (back ++ l)%list
               (fold_left (fun back x => JSArray.insert cmp x back) l back)).
  { induction l as [|x l IH]; intros back; simpl.
    - rewrite app_nil_r. reflexivity.
    - rewrite <- IH. rewrite <- insert_perm.
      rewrite <- Permutation_middle. reflexivity. }
  apply (H []).
Qed.

Lemma insert_In {A : Type} (cmp : A -> A -> Z) (x y : A) (back : list A) :
  In y (JSArray.insert cmp x back) <-> y = x \/ In y back.
Proof.
  split; intros H.
  - apply (Permutation_in _ (Permutation_sym (insert_perm cmp x back))) in H.
    destruct H as [H|H]; [left; symmetry; exact H|right; exact H].
  - apply (Permutation_in _ (insert_perm cmp x back)).
    destruct H as [H|H]; [left; symmetry; exact H|right; exact H].
Qed.

Lemma StronglySorted_rev {A : Type} (R : A -> A -> Prop) (l : list A) :
  StronglySorted (fun a b => R b a) l -> StronglySorted R (rev l).
Proof.
  induction l as [|x l IH]; simpl; intros Hs; [constructor|].
  apply StronglySorted_inv in Hs. destruct Hs as [Hs Hall].
  specialize (IH Hs). clear Hs.
  assert (Hx : Forall (fun a => R a x) (rev l)).
  { apply Forall_forall. intros a Ha. apply in_rev in Ha.
    rewrite Forall_forall in Hall. apply Hall, Ha. }
  clear Hall. induction (rev l) as [|a r IHr]; simpl.
  - constructor; constructor.
  - apply StronglySorted_inv in IH. destruct IH as [IH Ha].
    inversion Hx as [|? ? Hax Hx']; subst.
    constructor; [apply IHr; assumption|].
    apply Forall_app. split; [exact Ha|]. constructor; [exact Hax|constructor].
Qed.

Lemma StronglySorted_firstn {A : Type} (R : A -> A -> Prop) (n : nat) (l : list A) :
  StronglySorted R l -> StronglySorted R (firstn n l).
Proof.
  revert n; induction l as [|x l IH]; intros n Hs.
  - rewrite firstn_nil. constructor.
  - destruct n as [|n]; simpl; [constructor|].
    apply StronglySorted_inv in Hs. destruct Hs as [Hs Hall].
    constructor; [apply IH, Hs|].
    apply Forall_forall. intros y Hy.
    rewrite Forall_forall in Hall. apply Hall.
    rewrite <- (firstn_skipn n l). apply in_or_app. left. exact Hy.
Qed.

Lemma StronglySorted_app_cross {A : Type} (R : A -> A -> Prop) (l1 l2 : list A) :
  StronglySorted R (l1 ++ l2)%list ->
  forall a b, In a l1 -> In b l2 -> R a b.
Proof.
  induction l1 as [|x l1 IH]; simpl; intros Hs a b Ha Hb; [contradiction|].
  apply StronglySorted_inv in Hs. destruct Hs as [Hs Hall].
  destruct Ha as [<-|Ha].
  - rewrite Forall_forall in Hall. apply Hall, in_or_app. right. exact Hb.
  - apply IH; assumption.
Qed.

End JSArrayFacts.

(* ===================================================================== *)
(** * Properties of the insight helpers *)
(* ===================================================================== *)

Module InsightFacts.

Import AIInsightsHelpers InsightSpec JSArrayFacts.

(** ** Burnout risk *)

Lemma fold_minutes_shift (l : list FocusSession) (a : Z) :
  fold_left (fun sum session => sum + or0 (duration session)) l a
  = a + fold_left (fun sum session => sum + or0 (duration session)) l 0.
Proof.
  revert a; induction l as [|s l IH]; intros a; simpl.
  - lia.
  - rewrite IH, (IH (or0 (duration s))). lia.
Qed.

Lemma totalMinutes_minutesAfter (now : Z) (sessions : list FocusSession) :
  totalMinutes now sessions = minutesAfter (now - week_ms) sessions.
Proof.
  unfold totalMinutes, recentSessions.
  induction sessions as [|s l IH]; simpl; [reflexivity|].
  destruct (started_at s) as [t|]; [|exact IH].
  destruct (now - week_ms <? t); [|exact IH].
  simpl. rewrite fold_minutes_shift, IH. reflexivity.
Qed.

Lemma hours_gt_10 (total : Z) :
  Qgtb (inject_Z total / 7 / 60) 10 = (4200 <? total).
Proof.
  unfold Qgtb, Qle_bool; simpl.
  destruct (Z.leb_spec (total * 1 * 1 * 1) 4200), (Z.ltb_spec 4200 total);
    simpl; try reflexivity; lia.
Qed.

Lemma hours_gt_8 (total : Z) :
  Qgtb (inject_Z total / 7 / 60) 8 = (3360 <? total).
Proof.
  unfold Qgtb, Qle_bool; simpl.
  destruct (Z.leb_spec (total * 1 * 1 * 1) 3360), (Z.ltb_spec 3360 total);
    simpl; try reflexivity; lia.
Qed.

Lemma riskLevel_by_total (now : Z) (sessions : list FocusSession)
      (tasks : list Task) :
  riskLevel (analyzeBurnoutRisk now sessions tasks)
  = if 4200 <? totalMinutes now sessions then "high"
    else if 3360 <? totalMinutes now sessions then "medium" else "low".
Proof.
  unfold analyzeBurnoutRisk.
  rewrite hours_gt_10, hours_gt_8.
  destruct (4200 <? _); [reflexivity|].
  destruct (3360 <? _); reflexivity.
Qed.

Lemma minutesAfter_uniform (bound d : Z) (sessions : list FocusSession) :
  Forall (fun s => duration s = Some d
                   /\ exists t, started_at s = Some t /\ bound < t) sessions ->
  minutesAfter bound sessions = d * Z.of_nat (List.length sessions).
Proof.
  induction 1 as [|s l [Hd [t [Ht Hlt]]] _ IH]; [simpl; lia|].
  cbn [minutesAfter List.length]. rewrite Ht, Hd.
  destruct (Z.ltb_spec bound t); [|lia].
  rewrite IH. simpl or0. lia.
Qed.

(** C5 (as amended).  [analyzeBurnoutRisk] sums the durations of the
    sessions whose start is strictly later than [now - 7 * 24h] (a start at
    that very instant is left out, and no upper bound is put at [now]),
    divides the total by 7 and by 60, and answers "high" above 10 hours a
    day, "medium" above 8 and "low" otherwise; ten sessions of 90 minutes
    started within the last two days give "low". *)
Theorem analyzeBurnoutRisk_levels (now : Z) (focusSessions : list FocusSession)
        (tasks : list Task) :
  let r := analyzeBurnoutRisk now focusSessions tasks in
  let total := minutesAfter (now - week_ms) focusSessions in
  (hoursPerDay r == inject_Z total / 7 / 60)%Q
  /\ (totalWeeklyHours r == inject_Z total / 60)%Q
  /\ (4200 < total -> riskLevel r = "high")
  /\ (3360 < total <= 4200 -> riskLevel r = "medium")
  /\ (total <= 3360 -> riskLevel r = "low")
  /\ (List.length focusSessions = 10%nat ->
      Forall (fun s => duration s = Some 90
                       /\ exists t, started_at s = Some t
                                    /\ now - 2 * day_ms < t <= now)
             focusSessions ->
      riskLevel r = "low").
Proof.
  intros r total.
  assert (Htot : totalMinutes now focusSessions = total)
    by apply totalMinutes_minutesAfter.
  assert (Hrisk := riskLevel_by_total now focusSessions tasks).
  fold r in Hrisk. rewrite Htot in Hrisk.
  assert (Hh : (hoursPerDay r == inject_Z total / 7 / 60)%Q
               /\ (totalWeeklyHours r == inject_Z total / 60)%Q).
  { subst r. unfold analyzeBurnoutRisk. rewrite Htot.
    destruct (Qgtb _ 10); [|destruct (Qgtb _ 8)]; simpl; split; reflexivity. }
  destruct Hh as [Hh Hw].
  split; [exact Hh|]. split; [exact Hw|].
  repeat split.
  - intros H. rewrite Hrisk. destruct (Z.ltb_spec 4200 total); [reflexivity|lia].
  - intros H. rewrite Hrisk.
    destruct (Z.ltb_spec 4200 total); [lia|].
    destruct (Z.ltb_spec 3360 total); [reflexivity|lia].
  - intros H. rewrite Hrisk.
    destruct (Z.ltb_spec 4200 total); [lia|].
    destruct (Z.ltb_spec 3360 total); [lia|reflexivity].
  - intros Hlen Hall. rewrite Hrisk.
    assert (Ht : total = 900).
    { subst total. rewrite (minutesAfter_uniform _ 90).
      - rewrite Hlen. reflexivity.
      - eapply Forall_impl; [|exact Hall].
        intros s [Hd [t [Hs Hb]]]. split; [exact Hd|].
        exists t. split; [exact Hs|]. unfold week_ms, day_ms in *. lia. }
    rewrite Ht. reflexivity.
Qed.

Lemma ten_sessions_recent :
  Forall (fun s => duration s = Some 90
                   /\ exists t, started_at s = Some t
                                /\ noon_2023_11_14 - 2 * day_ms < t
                                   <= noon_2023_11_14)
         (ten_sessions noon_2023_11_14).
Proof.
  unfold ten_sessions; simpl.
  repeat (constructor;
          [split; [reflexivity|eexists; split; [reflexivity|vm_compute; split; congruence]]|]).
  constructor.
Qed.

Lemma analyzeBurnoutRisk_levels_witness :
  riskLevel (analyzeBurnoutRisk noon_2023_11_14 (ten_sessions noon_2023_11_14) [])
  = "low".
Proof.
  apply (analyzeBurnoutRisk_levels noon_2023_11_14
           (ten_sessions noon_2023_11_14) []).
  - reflexivity.
  - exact ten_sessions_recent.
Defined.

(** C5 (as stated) fails: a session of 6000 minutes that started exactly
    seven days before [now] belongs to the inclusive window of the claim,
    which would make the risk "high"; the source leaves it out and answers
    "low". *)
Lemma analyzeBurnoutRisk_excludes_boundary :
  let now := noon_2023_11_14 in
  let s := session 6000 (now - week_ms) in
  trailingWeekInclusive now [s] = [s]
  /\ recentSessions now [s] = []
  /\ riskLevelInclusive now [s] = "high"
  /\ riskLevel (analyzeBurnoutRisk now [s] []) = "low".
Proof.
  vm_compute. repeat split; reflexivity.
Qed.

(** ** Duration estimate *)

Lemma fold_estimates_shift (l : list Task) (a : Z) :
  fold_left (fun sum t => sum + or0 (time_estimate t)) l a
  = a + fold_right Z.add 0 (map (fun t => or0 (time_estimate t)) l).
Proof.
  revert a; induction l as [|t l IH]; intros a; simpl.
  - lia.
  - rewrite IH. lia.
Qed.

Lemma Math_round_quotient (a : Z) (p : positive) :
  Math_round (inject_Z a / inject_Z (Zpos p))
  = (2 * a + Zpos p) / (2 * Zpos p).
Proof.
  unfold Math_round, Qdiv, Qinv, Qmult, Qplus, inject_Z, Qfloor.
  cbn [Qnum Qden]. rewrite !Pos2Z.inj_mul.
  f_equal; lia.
Qed.

Lemma nearest_bounds (a n : Z) :
  0 < n ->
  2 * a - n < 2 * n * ((2 * a + n) / (2 * n)) <= 2 * a + n.
Proof.
  intros Hn.
  pose proof (Z.mul_div_le (2 * a + n) (2 * n) ltac:(lia)).
  pose proof (Z.mul_succ_div_gt (2 * a + n) (2 * n) ltac:(lia)).
  lia.
Qed.

Lemma truthy_Some (x : option Z) :
  truthy x = true <-> exists e, x = Some e /\ e <> 0.
Proof.
  destruct x as [e|]; simpl.
  - destruct (Z.eqb_spec e 0); simpl; split.
    + discriminate.
    + intros [e' [He Hne]]. congruence.
    + intros _. exists e. auto.
    + reflexivity.
  - split; [discriminate|]. intros [e [He _]]. discriminate.
Qed.

Lemma similar_In (t0 t : Task) (historicalTasks : list Task) :
  In t (similar t0 historicalTasks)
  <-> In t historicalTasks
      /\ category t = category t0
      /\ status t = "completed"
      /\ exists e, time_estimate t = Some e /\ e <> 0.
Proof.
  unfold similar. rewrite filter_In, !andb_true_iff, !String.eqb_eq, truthy_Some.
  tauto.
Qed.

(** C7 (as amended).  A task that carries a non-zero estimate gets it back
    unchanged, whatever the history.  Otherwise the estimates of the
    completed historical tasks of the same category that have a non-zero
    estimate are averaged and the average is rounded to the nearest integer
    (a half goes up); when there is no such task the answer is 15, 30, 60 or
    45 for the categories daily, weekly, project and someday, and 30 for a
    category that is neither in that table nor the name of a property that
    objects inherit. *)
Theorem estimateTaskDuration_cases (inherited : string -> bool)
        (t0 : Task) (historicalTasks : list Task) :
  let r := estimateTaskDuration inherited t0 historicalTasks in
  let sim := similar t0 historicalTasks in
  let n := Z.of_nat (List.length sim) in
  let total := fold_right Z.add 0 (map (fun t => or0 (time_estimate t)) sim) in
  (forall e, time_estimate t0 = Some e -> e <> 0 -> r = minutes e)
  /\ (forall t, In t sim <->
                In t historicalTasks /\ category t = category t0
                /\ status t = "completed"
                /\ exists e, time_estimate t = Some e /\ e <> 0)
  /\ (truthy (time_estimate t0) = false -> sim <> [] ->
      exists m, r = minutes m /\ 2 * total - n < 2 * n * m <= 2 * total + n)
  /\ (truthy (time_estimate t0) = false -> sim = [] ->
      (category t0 = "daily" -> r = minutes 15)
      /\ (category t0 = "weekly" -> r = minutes 30)
      /\ (category t0 = "project" -> r = minutes 60)
      /\ (category t0 = "someday" -> r = minutes 45)
      /\ (category t0 <> "daily" -> category t0 <> "weekly" ->
          category t0 <> "project" -> category t0 <> "someday" ->
          inherited (category t0) = false -> r = minutes 30)).
Proof.
  intros r sim n total.
  split; [|split; [|split]].
  - intros e He Hne. subst r. unfold estimateTaskDuration.
    assert (Ht : truthy (time_estimate t0) = true)
      by (apply truthy_Some; exists e; auto).
    rewrite Ht, He. reflexivity.
  - intros t. apply similar_In.
  - intros Hf Hsim. subst r. unfold estimateTaskDuration. rewrite Hf.
    fold sim. destruct sim as [|t1 l] eqn:Es; [congruence|].
    rewrite fold_estimates_shift. fold total.
    change (inject_Z (Z.of_nat (List.length (t1 :: l)))) with (inject_Z n).
    assert (Hn : 0 < n) by (subst n; simpl List.length; lia).
    destruct n as [|pn|pn]; try lia.
    rewrite Z.add_0_l, Math_round_quotient.
    eexists. split; [reflexivity|].
    apply nearest_bounds. lia.
  - intros Hf Hsim. subst r. unfold estimateTaskDuration. rewrite Hf.
    fold sim. rewrite Hsim. unfold default_for, defaults.
    repeat split.
    + intros ->. reflexivity.
    + intros ->. reflexivity.
    + intros ->. reflexivity.
    + intros ->. reflexivity.
    + intros H1 H2 H3 H4 Hi.
      apply String.eqb_neq in H1, H2, H3, H4.
      rewrite H1, H2, H3, H4, Hi. reflexivity.
Qed.

Lemma estimateTaskDuration_cases_witness :
  estimateTaskDuration JSObject.standard_prototype (daily_task (Some 45))
    [done_daily 10; done_daily 15]
  = minutes 45
  /\ estimateTaskDuration JSObject.standard_prototype (unfiled_task None) []
     = minutes 30.
Proof.
  split.
  - apply (estimateTaskDuration_cases JSObject.standard_prototype
             (daily_task (Some 45)) [done_daily 10; done_daily 15])
      with (e := 45).
    + reflexivity.
    + lia.
  - apply (estimateTaskDuration_cases JSObject.standard_prototype
             (unfiled_task None) []);
      try reflexivity; discriminate.
Defined.

(** C7 (as stated) fails twice.  With no estimate of its own and a history
    of 10 and 15 minutes the answer is 13, which is not the average 25/2;
    and a task that carries the estimate 0 does not get 0 back but the
    estimate drawn from the history. *)
Lemma estimateTaskDuration_not_the_average :
  estimateTaskDuration JSObject.standard_prototype (daily_task None)
    [done_daily 10; done_daily 15]
  = minutes 13
  /\ ~ (inject_Z 13 == 25 # 2)%Q
  /\ time_estimate (daily_task (Some 0)) = Some 0
  /\ estimateTaskDuration JSObject.standard_prototype (daily_task (Some 0))
       [done_daily 10]
     = minutes 10.
Proof.
  repeat split; try reflexivity.
  vm_compute. discriminate.
Qed.

(** The category is looked up in [defaults] with its prototype: for a task
    without estimate and without history whose category is the name of an
    inherited property, what comes back is that property and not a number
    of minutes. *)
Lemma estimateTaskDuration_inherited_category (inherited : string -> bool)
      (t0 : Task) (historicalTasks : list Task) :
  truthy (time_estimate t0) = false ->
  similar t0 historicalTasks = [] ->
  defaults (category t0) = None ->
  inherited (category t0) = true ->
  estimateTaskDuration inherited t0 historicalTasks
  = inherited_member (category t0).
Proof.
  intros Hf Hsim Hd Hi. unfold estimateTaskDuration, default_for.
  rewrite Hf, Hsim, Hd, Hi. reflexivity.
Qed.

(** ** Productivity patterns *)

Lemma hourlyStats_unstarted (tz : Z) (l : list FocusSession) (acc : HourlyStats) :
  Forall (fun s => started_at s = None) l ->
  fold_left (fun stats session =>
               match started_at session with
               | None => stats
               | Some t => record_hour (getHours tz t) (or0 (duration session)) stats
               end) l acc = acc.
Proof.
  induction 1 as [|s l Hs _ IH]; simpl; [reflexivity|].
  rewrite Hs. exact IH.
Qed.

(** C10.  Completed sessions without a start count for the threshold of
    five and are left out of the hour buckets: when there are five or more
    completed sessions and none of them has a start, the answer is the
    pattern "identified" with a null peak hour, no session in the peak hour
    and the label "morning". *)
Theorem detectProductivityPatterns_unstarted (tz : Z)
        (focusSessions : list FocusSession) :
  (5 <= List.length (filter completed focusSessions))%nat ->
  (forall s, In s focusSessions -> completed s = true -> started_at s = None) ->
  detectProductivityPatterns tz focusSessions
  = identified None "morning" 0
      "You're most productive in the morning (around null:00). Schedule important tasks during this time.".
Proof.
  intros Hlen Hnone. unfold detectProductivityPatterns.
  destruct (Nat.ltb_spec (List.length (filter completed focusSessions)) 5);
    [lia|].
  unfold hourlyStats. rewrite hourlyStats_unstarted.
  - reflexivity.
  - apply Forall_forall. intros s Hs. apply filter_In in Hs.
    destruct Hs as [Hin Hc]. auto.
Qed.

Lemma detectProductivityPatterns_unstarted_witness :
  detectProductivityPatterns 0 five_unstarted
  = identified None "morning" 0
      "You're most productive in the morning (around null:00). Schedule important tasks during this time.".
Proof.
  apply detectProductivityPatterns_unstarted.
  - simpl. lia.
  - intros s Hs _. simpl in Hs.
    repeat (destruct Hs as [Hs|Hs]; [subst s; reflexivity|]).
    contradiction.
Defined.

Lemma countAt_cases (h : Z) (stats : HourlyStats) :
  countAt h stats = 0
  \/ exists st, In (h, st) stats /\ countAt h stats = count st.
Proof.
  induction stats as [|[k st] rest IH]; simpl; [left; reflexivity|].
  destruct (Z.eqb_spec h k) as [->|Hne].
  - right. exists st. split; [left; reflexivity|reflexivity].
  - destruct IH as [IH|[st' [Hin Hc]]]; [left; exact IH|].
    right. exists st'. split; [right; exact Hin|exact Hc].
Qed.

Lemma countAt_below (h : Z) (stats : HourlyStats) :
  Forall (Z.lt h) (map fst stats) -> countAt h stats = 0.
Proof.
  induction stats as [|[k st] rest IH]; simpl; intros H; [reflexivity|].
  inversion H as [|? ? Hk Hrest]; subst.
  destruct (Z.eqb_spec h k); [lia|]. apply IH, Hrest.
Qed.

Lemma countAt_In (k : Z) (st : HourStat) (stats : HourlyStats) :
  StronglySorted Z.lt (map fst stats) ->
  In (k, st) stats -> countAt k stats = count st.
Proof.
  induction stats as [|[k0 st0] rest IH]; simpl; intros Hs Hin; [contradiction|].
  apply StronglySorted_inv in Hs. destruct Hs as [Hs Hall].
  destruct Hin as [Heq|Hin].
  - inversion Heq; subst. rewrite Z.eqb_refl. reflexivity.
  - destruct (Z.eqb_spec k k0) as [->|Hne].
    + rewrite Forall_forall in Hall.
      specialize (Hall k0 (in_map fst _ _ Hin)). simpl in Hall. lia.
    + apply IH; assumption.
Qed.

Lemma record_hour_keys (h d k : Z) (stats : HourlyStats) :
  In k (map fst (record_hour h d stats)) -> k = h \/ In k (map fst stats).
Proof.
  induction stats as [|[k0 st0] rest IH]; simpl.
  - intros [H|[]]; left; congruence.
  - destruct (Z.eqb_spec h k0) as [->|Hne]; simpl.
    + intros [H|H]; [right; left; exact H|right; right; exact H].
    + destruct (Z.ltb_spec h k0) as [Hlt|Hge]; simpl.
      * intros [H|[H|H]]; [left; congruence|right; left; exact H|right; right; exact H].
      * intros [H|H]; [right; left; exact H|].
        destruct (IH H) as [H1|H1]; [left; exact H1|right; right; exact H1].
Qed.

Lemma record_hour_sorted (h d : Z) (stats : HourlyStats) :
  StronglySorted Z.lt (map fst stats) ->
  StronglySorted Z.lt (map fst (record_hour h d stats)).
Proof.
  induction stats as [|[k0 st0] rest IH]; simpl; intros Hs.
  - constructor; constructor.
  - apply StronglySorted_inv in Hs. destruct Hs as [Hs Hall].
    destruct (Z.eqb_spec h k0) as [->|Hne]; simpl.
    + constructor; assumption.
    + destruct (Z.ltb_spec h k0); simpl.
      * constructor; [constructor; assumption|].
        constructor; [assumption|].
        eapply Forall_impl; [|exact Hall]. intros a Ha. simpl in Ha. lia.
      * constructor; [apply IH; exact Hs|].
        apply Forall_forall. intros k Hk.
        apply record_hour_keys in Hk. destruct Hk as [->|Hk]; [lia|].
        rewrite Forall_forall in Hall. apply Hall, Hk.
Qed.

Lemma record_hour_positive (h d : Z) (stats : HourlyStats) :
  Forall (fun e => 0 < count (snd e)) stats ->
  Forall (fun e => 0 < count (snd e)) (record_hour h d stats).
Proof.
  induction stats as [|[k0 st0] rest IH]; simpl; intros Hp.
  - constructor; [simpl; lia|constructor].
  - inversion Hp as [|? ? H0 Hrest]; subst. simpl in H0.
    destruct (h =? k0); [constructor; [simpl; lia|assumption]|].
    destruct (h <? k0).
    + constructor; [simpl; lia|]. constructor; assumption.
    + constructor; [exact H0|apply IH, Hrest].
Qed.

Lemma countAt_record_hour (h d h' : Z) (stats : HourlyStats) :
  StronglySorted Z.lt (map fst stats) ->
  countAt h' (record_hour h d stats)
  = countAt h' stats + (if h' =? h then 1 else 0).
Proof.
  induction stats as [|[k0 st0] rest IH]; simpl; intros Hs.
  - destruct (h' =? h); reflexivity.
  - apply StronglySorted_inv in Hs. destruct Hs as [Hs Hall].
    destruct (Z.eqb_spec h k0) as [->|Hne]; simpl.
    + destruct (Z.eqb_spec h' k0); [reflexivity|lia].
    + destruct (Z.ltb_spec h k0); simpl.
      * destruct (Z.eqb_spec h' h) as [->|Hne'].
        -- destruct (Z.eqb_spec h k0); [lia|].
           rewrite countAt_below; [lia|].
           eapply Forall_impl; [|exact Hall]. intros a Ha. simpl in Ha. lia.
        -- lia.
      * destruct (Z.eqb_spec h' k0) as [->|Hne'].
        -- destruct (Z.eqb_spec k0 h); [lia|lia].
        -- apply IH, Hs.
Qed.

Lemma hourlyStats_invariant (tz : Z) (l : list FocusSession) (acc : HourlyStats) :
  let stats :=
    fold_left (fun stats session =>
                 match started_at session with
                 | None => stats
                 | Some t => record_hour (getHours tz t) (or0 (duration session)) stats
                 end) l acc in
  StronglySorted Z.lt (map fst acc) ->
  Forall (fun e => 0 < count (snd e)) acc ->
  StronglySorted Z.lt (map fst stats)
  /\ Forall (fun e => 0 < count (snd e)) stats
  /\ forall h, countAt h stats = countAt h acc + sessionsInHour tz h l.
Proof.
  revert acc; induction l as [|s l IH]; intros acc; simpl; intros Hs Hp.
  - repeat split; try assumption. intros h. unfold sessionsInHour. simpl. lia.
  - destruct (started_at s) as [t|] eqn:Et.
    + destruct (IH (record_hour (getHours tz t) (or0 (duration s)) acc)
                   (record_hour_sorted _ _ _ Hs) (record_hour_positive _ _ _ Hp))
        as [H1 [H2 H3]].
      repeat split; try assumption.
      intros h. rewrite H3, countAt_record_hour by exact Hs.
      unfold sessionsInHour. simpl. rewrite Et.
      rewrite (Z.eqb_sym h). destruct (getHours tz t =? h); simpl List.length; lia.
    + destruct (IH acc Hs Hp) as [H1 [H2 H3]].
      repeat split; try assumption.
      intros h. rewrite H3. unfold sessionsInHour. simpl. rewrite Et. reflexivity.
Qed.

Lemma sessionsInHour_range (tz h : Z) (l : list FocusSession) :
  0 < sessionsInHour tz h l -> 0 <= h < 24.
Proof.
  unfold sessionsInHour.
  destruct (filter _ l) as [|s l'] eqn:Ef; simpl List.length; [lia|].
  intros _.
  assert (Hin : In s (filter (fun s => match started_at s with
                                       | Some t => getHours tz t =? h
                                       | None => false
                                       end) l))
    by (rewrite Ef; left; reflexivity).
  apply filter_In in Hin. destruct Hin as [_ Hh].
  destruct (started_at s) as [t|]; [|discriminate].
  apply Z.eqb_eq in Hh. subst h. unfold getHours.
  apply Z.mod_pos_bound. lia.
Qed.

Lemma bestOf_scan (stats : HourlyStats) (b0 : option Z) (c0 : Z) :
  let r := fold_left (fun best entry =>
                        if snd best <? count (snd entry)
                        then (Some (fst entry), count (snd entry))
                        else best) stats (b0, c0) in
  c0 <= snd r
  /\ (forall e, In e stats -> count (snd e) <= snd r)
  /\ (r = (b0, c0)
      \/ exists pre e post,
           stats = (pre ++ e :: post)%list
           /\ r = (Some (fst e), count (snd e))
           /\ c0 < count (snd e)
           /\ forall e', In e' pre -> count (snd e') < count (snd e)).
Proof.
  revert b0 c0; induction stats as [|e rest IH]; intros b0 c0; simpl.
  - repeat split; [lia|contradiction|left; reflexivity].
  - destruct (Z.ltb_spec c0 (count (snd e))) as [Hlt|Hge].
    + destruct (IH (Some (fst e)) (count (snd e))) as [H1 [H2 H3]].
      split; [lia|]. split.
      * intros e' [<-|Hin]; [exact H1|apply H2, Hin].
      * right. destruct H3 as [H3|[pre [e1 [post [Hs [Hr [Hc Hpre]]]]]]].
        -- exists [], e, rest. repeat split; try assumption. intros e' [].
        -- exists (e :: pre), e1, post.
           split; [rewrite Hs; reflexivity|]. split; [exact Hr|].
           split; [lia|].
           intros e' [<-|Hin]; [exact Hc|apply Hpre, Hin].
    + destruct (IH b0 c0) as [H1 [H2 H3]].
      split; [exact H1|]. split.
      * intros e' [<-|Hin]; [lia|apply H2, Hin].
      * destruct H3 as [H3|[pre [e1 [post [Hs [Hr [Hc Hpre]]]]]]]; [left; exact H3|].
        right. exists (e :: pre), e1, post.
        split; [rewrite Hs; reflexivity|]. split; [exact Hr|].
        split; [exact Hc|].
        intros e' [<-|Hin]; [lia|apply Hpre, Hin].
Qed.

Lemma sorted_before (pre post : HourlyStats) (e : Z * HourStat) (h : Z) (st : HourStat) :
  StronglySorted Z.lt (map fst (pre ++ e :: post)%list) ->
  In (h, st) (pre ++ e :: post)%list -> h < fst e -> In (h, st) pre.
Proof.
  induction pre as [|p pre IH]; simpl; intros Hs Hin Hlt.
  - apply StronglySorted_inv in Hs. destruct Hs as [_ Hall].
    destruct Hin as [->|Hin]; [simpl in Hlt; lia|].
    rewrite Forall_forall in Hall.
    specialize (Hall h (in_map fst _ _ Hin)). lia.
  - apply StronglySorted_inv in Hs. destruct Hs as [Hs _].
    destruct Hin as [->|Hin]; [left; reflexivity|right; apply IH; assumption].
Qed.

Lemma timeLabelOf_hours (h : Z) :
  (h < 12 -> timeLabelOf (Some h) = "morning")
  /\ (12 <= h < 17 -> timeLabelOf (Some h) = "afternoon")
  /\ (17 <= h -> timeLabelOf (Some h) = "evening").
Proof.
  unfold timeLabelOf; simpl.
  destruct (Z.ltb_spec h 12), (Z.ltb_spec h 17); repeat split; intros;
    try reflexivity; lia.
Qed.

(** C4 (as amended).  The answer is "insufficient data" exactly when fewer
    than five sessions are completed.  Otherwise the completed sessions that
    have a start are counted by hour of the day, and the peak hour is the
    hour with the highest count, the numerically smallest such hour winning
    ties (the hours are scanned in ascending order with a strict
    comparison); it is null when no completed session has a start.  The
    label is morning below 12, afternoon below 17 and evening from 17 on. *)
Theorem detectProductivityPatterns_peak (tz : Z)
        (focusSessions : list FocusSession) :
  let cs := filter completed focusSessions in
  let n := fun h => sessionsInHour tz h cs in
  ((List.length cs < 5)%nat <->
   exists m, detectProductivityPatterns tz focusSessions = insufficient_data m)
  /\ ((5 <= List.length cs)%nat ->
      exists best cnt m,
        detectProductivityPatterns tz focusSessions
        = identified best (timeLabelOf best) cnt m
        /\ match best with
           | Some h => 0 <= h < 24 /\ cnt = n h /\ 0 < cnt
                       /\ (forall h', n h' <= n h)
                       /\ (forall h', h' < h -> n h' < n h)
           | None => cnt = 0 /\ forall h, n h = 0
           end)
  /\ (forall h, (h < 12 -> timeLabelOf (Some h) = "morning")
                /\ (12 <= h < 17 -> timeLabelOf (Some h) = "afternoon")
                /\ (17 <= h -> timeLabelOf (Some h) = "evening")).
Proof.
  intros cs n.
  assert (Hid : (5 <= List.length cs)%nat ->
      exists best cnt m,
        detectProductivityPatterns tz focusSessions
        = identified best (timeLabelOf best) cnt m
        /\ match best with
           | Some h => 0 <= h < 24 /\ cnt = n h /\ 0 < cnt
                       /\ (forall h', n h' <= n h)
                       /\ (forall h', h' < h -> n h' < n h)
           | None => cnt = 0 /\ forall h, n h = 0
           end).
  { intros Hlen. subst n. cbv beta.
    unfold detectProductivityPatterns. fold cs.
    destruct (Nat.ltb_spec (List.length cs) 5) as [Hlt|_]; [lia|].
    destruct (hourlyStats_invariant tz cs [] (SSorted_nil _) (Forall_nil _))
      as [Hsorted [Hpos Hcount]].
    fold (hourlyStats tz cs) in Hsorted, Hpos, Hcount.
    simpl in Hcount.
    destruct (bestOf_scan (hourlyStats tz cs) None 0) as [_ [Hmax Hwho]].
    fold (bestOf (hourlyStats tz cs)) in Hmax, Hwho.
    destruct (bestOf (hourlyStats tz cs)) as [best cnt] eqn:Eb.
    simpl in Hmax.
    exists best, cnt. eexists. split; [reflexivity|].
    destruct Hwho as [Hinit|[pre [e [post [Hs [Hr [Hc Hpre]]]]]]].
    - inversion Hinit; subst. split; [reflexivity|].
      intros h. rewrite <- Hcount.
      destruct (countAt_cases h (hourlyStats tz cs)) as [H0|[st [Hin Hst]]];
        [exact H0|].
      specialize (Hmax _ Hin). rewrite Forall_forall in Hpos.
      specialize (Hpos _ Hin). simpl in Hmax, Hpos. lia.
    - inversion Hr; subst best cnt. destruct e as [k st]. simpl in *.
      assert (Hk : countAt k (hourlyStats tz cs) = count st).
      { apply countAt_In; [exact Hsorted|]. rewrite Hs.
        apply in_or_app. right. left. reflexivity. }
      rewrite Hcount in Hk.
      split; [apply (sessionsInHour_range tz k cs); lia|].
      split; [symmetry; exact Hk|]. split; [lia|]. split.
      + intros h'. rewrite Hk, <- Hcount.
        destruct (countAt_cases h' (hourlyStats tz cs)) as [H0|[st' [Hin Hst]]];
          [lia|].
        rewrite Hst. apply (Hmax _ Hin).
      + intros h' Hlt. rewrite Hk, <- Hcount.
        destruct (countAt_cases h' (hourlyStats tz cs)) as [H0|[st' [Hin Hst]]];
          [lia|].
        rewrite Hst. rewrite Hs in Hin, Hsorted.
        apply (Hpre (h', st')).
        apply (sorted_before pre post (k, st) h' st' Hsorted Hin Hlt). }
  split; [|split; [exact Hid|exact timeLabelOf_hours]].
  split.
  - intros Hlt. unfold detectProductivityPatterns. fold cs.
    destruct (Nat.ltb_spec (List.length cs) 5); [|lia].
    eexists. reflexivity.
  - intros [m Hm].
    destruct (Nat.lt_ge_cases (List.length cs) 5) as [Hlt|Hge]; [exact Hlt|].
    destruct (Hid Hge) as [best [cnt [m' [Hr _]]]]. congruence.
Qed.

Lemma detectProductivityPatterns_peak_witness :
  exists best cnt m,
    detectProductivityPatterns 0
      [session_at 14; session_at 14; session_at 9; session_at 9; session_at 10]
    = identified best (timeLabelOf best) cnt m.
Proof.
  destruct (detectProductivityPatterns_peak 0
              [session_at 14; session_at 14; session_at 9; session_at 9;
               session_at 10]) as [_ [H _]].
  destruct H as [best [cnt [m [H _]]]]; [simpl; lia|].
  exists best, cnt, m. exact H.
Defined.

(** C4 (as stated) fails.  With completed sessions at the hours 14, 14, 9, 9
    and 10 the hours 14 and 9 tie with two sessions each and 14 is seen
    first, yet the peak hour returned is 9. *)
Lemma detectProductivityPatterns_tie_not_first_seen :
  let sessions := [session_at 14; session_at 14; session_at 9; session_at 9;
                   session_at 10] in
  peakHourFirstSeen 0 sessions = Some 14
  /\ detectProductivityPatterns 0 sessions
     = identified (Some 9) "morning" 2
         "You're most productive in the morning (around 9:00). Schedule important tasks during this time.".
Proof.
  split; reflexivity.
Qed.

(** ** Task recommendations *)

Lemma priorityWeight_inj (p q : Priority) :
  priorityWeight p = priorityWeight q -> p = q.
Proof. destruct p, q; simpl; intros H; try reflexivity; discriminate. Qed.

(** The comparator places [y] strictly after [x]. *)
Lemma compareTasks_pos (y x : Task) :
  0 < compareTasks y x -> ranks_before x y /\ ties x y = false.
Proof.
  unfold compareTasks, ranks_before, ties.
  destruct (Z.eqb_spec (priorityWeight (priority y)) (priorityWeight (priority x)))
    as [He|Hne]; simpl.
  - rewrite He, Z.eqb_refl. simpl.
    destruct (due_date y) as [dy|] eqn:Ey, (due_date x) as [dx|] eqn:Ex; try lia.
    intros H. split.
    + right. split; [apply priorityWeight_inj; congruence|].
      intros da db Ha Hb. inversion Ha; inversion Hb; subst. lia.
    + apply Z.eqb_neq. lia.
  - intros H. split; [left; lia|].
    destruct (Z.eqb_spec (priorityWeight (priority x))
                (priorityWeight (priority y))); [congruence|reflexivity].
Qed.

(** The comparator does not place [y] strictly after [x]. *)
Lemma compareTasks_nonpos (y x : Task) :
  ~ 0 < compareTasks y x -> ranks_before y x.
Proof.
  unfold compareTasks, ranks_before.
  destruct (Z.eqb_spec (priorityWeight (priority y)) (priorityWeight (priority x)))
    as [He|Hne]; simpl.
  - intros H. right. split; [apply priorityWeight_inj; exact He|].
    intros da db Ha Hb. rewrite Ha, Hb in H. lia.
  - intros H. left. lia.
Qed.

Lemma ties_refl (x : Task) : ties x x = true.
Proof.
  unfold ties. rewrite Z.eqb_refl. simpl.
  destruct (due_date x); [apply Z.eqb_refl|reflexivity].
Qed.

(** Two tasks each of which may stand before the other tie. *)
Lemma ranks_before_antisym (a b : Task) :
  ranks_before a b -> ranks_before b a -> ties a b = true.
Proof.
  unfold ranks_before, ties. intros [H1|[H1 D1]] [H2|[H2 D2]]; try lia.
  - rewrite H2 in H1. lia.
  - rewrite H1 in H2. lia.
  - rewrite H1, Z.eqb_refl. simpl.
    destruct (due_date a) as [da|], (due_date b) as [db|]; try reflexivity.
    apply Z.eqb_eq. specialize (D1 da db eq_refl eq_refl).
    specialize (D2 db da eq_refl eq_refl). lia.
Qed.

Section Consistent.

Variable universe : list Task.
Hypothesis Hcons : consistent universe.

Lemma ranks_before_trans (a b c : Task) :
  In a universe -> In b universe -> In c universe ->
  ranks_before a b -> ranks_before b c -> ranks_before a c.
Proof.
  unfold ranks_before. intros Ha Hb Hc [H1|[H1 D1]] [H2|[H2 D2]].
  - left. lia.
  - left. rewrite <- H2. exact H1.
  - left. rewrite H1. exact H2.
  - right. split; [congruence|]. intros da dc Ea Ec.
    destruct (due_date b) as [db|] eqn:Eb.
    + specialize (D1 da db Ea eq_refl). specialize (D2 db dc eq_refl Ec). lia.
    + rewrite (Hcons a b c da dc Ha Hb Hc H1 H2 Ea Eb Ec). lia.
Qed.

Lemma ties_trans (z x y : Task) :
  In z universe -> In x universe -> In y universe ->
  ties z x = true -> ties z y = true -> ties x y = true.
Proof.
  unfold ties. intros Hz Hx Hy H1 H2.
  apply andb_true_iff in H1, H2. destruct H1 as [P1 D1], H2 as [P2 D2].
  apply Z.eqb_eq in P1, P2. apply andb_true_iff. split; [apply Z.eqb_eq; lia|].
  destruct (due_date x) as [dx|] eqn:Ex, (due_date y) as [dy|] eqn:Ey;
    try reflexivity.
  apply Z.eqb_eq.
  destruct (due_date z) as [dz|] eqn:Ez.
  - apply Z.eqb_eq in D1, D2. lia.
  - apply (Hcons x z y dx dy Hx Hz Hy); try assumption;
      apply priorityWeight_inj; lia.
Qed.

Lemma insert_ranked (x : Task) (back : list Task) :
  In x universe -> incl back universe ->
  StronglySorted (fun a b => ranks_before b a) back ->
  StronglySorted (fun a b => ranks_before b a)
    (JSArray.insert compareTasks x back).
Proof.
  intros Hx. induction back as [|y back IH]; simpl; intros Hin Hs.
  - constructor; constructor.
  - pose proof Hs as Hs0.
    apply StronglySorted_inv in Hs. destruct Hs as [Hs Hall].
    assert (Hy : In y universe) by (apply Hin; left; reflexivity).
    assert (Hback : incl back universe)
      by (intros t Ht; apply Hin; right; exact Ht).
    destruct (Z.ltb_spec 0 (compareTasks y x)) as [Hlt|Hge].
    + apply compareTasks_pos in Hlt. destruct Hlt as [Hxy _].
      constructor; [apply IH; assumption|].
      apply Forall_forall. intros z Hz. apply insert_In in Hz.
      destruct Hz as [->|Hz]; [exact Hxy|].
      rewrite Forall_forall in Hall. apply Hall, Hz.
    + assert (Hn : ~ 0 < compareTasks y x) by lia.
      apply compareTasks_nonpos in Hn.
      constructor; [exact Hs0|].
      constructor; [exact Hn|].
      apply Forall_forall. intros z Hz.
      rewrite Forall_forall in Hall.
      apply (ranks_before_trans z y x); auto.
Qed.

Lemma insert_keeps_ties (z x : Task) (back : list Task) :
  In z universe -> In x universe -> incl back universe ->
  filter (ties z) (JSArray.insert compareTasks x back)
  = filter (ties z) (x :: back).
Proof.
  intros Hz Hx. induction back as [|y back IH]; intros Hin; [reflexivity|].
  assert (Hy : In y universe) by (apply Hin; left; reflexivity).
  assert (Hback : incl back universe)
    by (intros t Ht; apply Hin; right; exact Ht).
  cbn [JSArray.insert].
  destruct (Z.ltb_spec 0 (compareTasks y x)) as [Hlt|Hge]; [|reflexivity].
  apply compareTasks_pos in Hlt. destruct Hlt as [_ Hxy].
  cbn [filter]. rewrite (IH Hback). cbn [filter].
  destruct (ties z y) eqn:Ty, (ties z x) eqn:Tx; try reflexivity.
  rewrite (ties_trans z x y Hz Hx Hy Tx Ty) in Hxy. discriminate.
Qed.

Lemma fold_insert_ranked (l back : list Task) :
  incl l universe -> incl back universe ->
  StronglySorted (fun a b => ranks_before b a) back ->
  incl (fold_left (fun back x => JSArray.insert compareTasks x back) l back)
       universe
  /\ StronglySorted (fun a b => ranks_before b a)
       (fold_left (fun back x => JSArray.insert compareTasks x back) l back)
  /\ forall z, In z universe ->
       filter (ties z)
         (fold_left (fun back x => JSArray.insert compareTasks x back) l back)
       = filter (ties z) (rev l ++ back)%list.
Proof.
  revert back. induction l as [|x l IH]; intros back Hl Hback Hs.
  - simpl. repeat split; assumption || reflexivity.
  - assert (Hx : In x universe) by (apply Hl; left; reflexivity).
    assert (Hl' : incl l universe)
      by (intros t Ht; apply Hl; right; exact Ht).
    assert (Hins : incl (JSArray.insert compareTasks x back) universe).
    { intros t Ht. apply insert_In in Ht.
      destruct Ht as [->|Ht]; [exact Hx|apply Hback, Ht]. }
    destruct (IH (JSArray.insert compareTasks x back) Hl' Hins
                (insert_ranked x back Hx Hback Hs)) as [H1 [H2 H3]].
    cbn [fold_left]. split; [exact H1|]. split; [exact H2|].
    intros z Hz. rewrite (H3 z Hz), !filter_app.
    rewrite (insert_keeps_ties z x back Hz Hx Hback).
    cbn [rev]. rewrite filter_app. rewrite <- app_assoc.
    f_equal. cbn [filter]. destruct (ties z x); reflexivity.
Qed.

End Consistent.

(** On a list on which the comparator is consistent the sort arranges
    the list. *)
Lemma sort_arranges (l : list Task) :
  consistent l -> arranges l (JSArray.sort compareTasks l).
Proof.
  intros Hc. unfold arranges, JSArray.sort.
  destruct (fold_insert_ranked l Hc l [] (incl_refl l))
    as [_ [H2 H3]]; [intros t []|constructor|].
  split; [|split].
  - apply Permutation_sym. apply (sort_perm compareTasks l).
  - apply StronglySorted_rev. exact H2.
  - intros x Hx. rewrite filter_rev, (H3 x Hx), app_nil_r, filter_rev.
    apply rev_involutive.
Qed.

(** Two lists with the same tasks, both by priority and due date, that
    have the tasks that tie in the same order, are equal. *)
Lemma ranked_unique (l1 l2 : list Task) :
  Permutation l1 l2 ->
  StronglySorted ranks_before l1 -> StronglySorted ranks_before l2 ->
  (forall x, In x l1 -> filter (ties x) l1 = filter (ties x) l2) ->
  l1 = l2.
Proof.
  revert l2. induction l1 as [|a l1 IH]; intros l2 Hp H1 H2 Hf.
  - apply Permutation_nil in Hp. symmetry. exact Hp.
  - destruct l2 as [|b l2];
      [apply Permutation_sym, Permutation_nil in Hp; discriminate|].
    assert (Hab : a = b).
    { assert (Ra : a = b \/ ranks_before a b).
      { assert (Hb : In b (a :: l1))
          by (apply (Permutation_in b (Permutation_sym Hp)); left; reflexivity).
        destruct Hb as [Hb|Hb]; [left; exact Hb|right].
        apply StronglySorted_inv in H1. destruct H1 as [_ Hall].
        rewrite Forall_forall in Hall. apply Hall, Hb. }
      assert (Rb : a = b \/ ranks_before b a).
      { assert (Ha : In a (b :: l2))
          by (apply (Permutation_in a Hp); left; reflexivity).
        destruct Ha as [Ha|Ha]; [left; symmetry; exact Ha|right].
        apply StronglySorted_inv in H2. destruct H2 as [_ Hall].
        rewrite Forall_forall in Hall. apply Hall, Ha. }
      destruct Ra as [Ra|Ra]; [exact Ra|].
      destruct Rb as [Rb|Rb]; [exact Rb|].
      pose proof (ranks_before_antisym a b Ra Rb) as T.
      specialize (Hf a (or_introl eq_refl)).
      cbn [filter] in Hf. rewrite ties_refl, T in Hf.
      inversion Hf. reflexivity. }
    subst b. f_equal.
    apply StronglySorted_inv in H1. destruct H1 as [H1 _].
    apply StronglySorted_inv in H2. destruct H2 as [H2 _].
    apply IH; try assumption.
    + apply Permutation_cons_inv in Hp. exact Hp.
    + intros x Hx. specialize (Hf x (or_intror Hx)).
      cbn [filter] in Hf. destruct (ties x a); [|exact Hf].
      inversion Hf. reflexivity.
Qed.

Lemma recommended_prioritized (tasks : list Task) :
  recommended tasks = prioritized tasks.
Proof.
  unfold recommended, generateSmartTaskRecommendations, prioritized.
  destruct (pendingTasks tasks) as [|t l]; [reflexivity|].
  simpl recommendations. rewrite map_map. simpl. apply map_id.
Qed.

(** C3 (as amended).  The recommendations are the first three tasks (all
    of them when there are fewer) of the pending tasks arranged by
    priority, high first, and, within a priority, by ascending due date
    as far as both tasks have one; tasks that the comparison does not
    separate -- same priority and no two different due dates -- stay in
    the order of the input.  That arrangement exists and is the only one,
    so the three tasks are determined by it, whenever the comparator is
    consistent on the pending tasks: no priority holds a task without due
    date together with two different due dates.  The list (low, no due
    date), (high, no due date), (high, due 2024-01-01) is such a list: its
    recommendations are the high-priority task without due date, then the
    high-priority task due 2024-01-01, then the low-priority task. *)
Theorem generateSmartTaskRecommendations_order (tasks : list Task) :
  consistent (pendingTasks tasks) ->
  (exists ranked,
     arranges (pendingTasks tasks) ranked
     /\ (forall ranked', arranges (pendingTasks tasks) ranked' ->
                         ranked' = ranked)
     /\ recommended tasks = firstn 3 ranked)
  /\ consistent (pendingTasks [task_low; task_high; task_high_due])
  /\ recommended [task_low; task_high; task_high_due]
     = [task_high; task_high_due; task_low].
Proof.
  intros Hc. split; [|split; [|reflexivity]].
  - exists (JSArray.sort compareTasks (pendingTasks tasks)).
    pose proof (sort_arranges _ Hc) as Ha.
    split; [exact Ha|]. split; [|apply recommended_prioritized].
    intros ranked' [P1 [S1 F1]]. destruct Ha as [P2 [S2 F2]].
    apply ranked_unique; try assumption.
    + rewrite P1, P2. reflexivity.
    + intros x Hx. rewrite F2.
      * apply F1. apply (Permutation_in x P1 Hx).
      * apply (Permutation_in x P1 Hx).
  - intros a b c da dc Ha Hb Hc'. simpl in Ha, Hb, Hc'.
    destruct Ha as [<-|[<-|[<-|[]]]]; destruct Hb as [<-|[<-|[<-|[]]]];
      destruct Hc' as [<-|[<-|[<-|[]]]]; simpl; intros; congruence.
Qed.

Lemma generateSmartTaskRecommendations_order_witness :
  recommended [task_low; task_high_due; task_high_due_earlier]
  = [task_high_due_earlier; task_high_due; task_low].
Proof.
  destruct (generateSmartTaskRecommendations_order
              [task_low; task_high_due; task_high_due_earlier])
    as [[ranked [_ [Huniq Hrec]]] _].
  - intros a b c da dc Ha Hb Hc. simpl in Ha, Hb, Hc.
    destruct Ha as [<-|[<-|[<-|[]]]]; destruct Hb as [<-|[<-|[<-|[]]]];
      destruct Hc as [<-|[<-|[<-|[]]]]; simpl; intros; congruence.
  - rewrite Hrec.
    rewrite <- (Huniq [task_high_due_earlier; task_high_due; task_low]);
      [reflexivity|].
    split; [|split].
    + apply Permutation_sym.
      apply (Permutation_rev [task_low; task_high_due; task_high_due_earlier]).
    + apply SSorted_cons.
      * apply SSorted_cons.
        -- apply SSorted_cons; [apply SSorted_nil|apply Forall_nil].
        -- apply Forall_cons; [left; simpl; lia|apply Forall_nil].
      * apply Forall_cons.
        -- right. split; [reflexivity|]. intros da db Ha Hb.
           inversion Ha; inversion Hb; lia.
        -- apply Forall_cons; [left; simpl; lia|apply Forall_nil].
    + intros x Hx. simpl in Hx.
      destruct Hx as [<-|[<-|[<-|[]]]]; reflexivity.
Defined.

(** C3 (as stated) fails on its own example: the list (low, no due date),
    (high, no due date), (high, due 2024-01-01) gets the high-priority task
    without due date as first recommendation; the high-priority task that
    has a due date comes second.  The comparison returns 0 for the two, as
    one of them has no due date, and the sort leaves them in the order of
    the input. *)
Lemma generateSmartTaskRecommendations_example_first :
  hd_error (recommended [task_low; task_high; task_high_due]) = Some task_high
  /\ due_date task_high = None
  /\ hd_error (recommended [task_low; task_high; task_high_due])
     <> Some task_high_due
  /\ ties task_high task_high_due = true.
Proof.
  repeat split; try reflexivity. discriminate.
Qed.

End InsightFacts.

(* ===================================================================== *)
(** * Properties of the streak computation *)
(* ===================================================================== *)

Module StreakFacts.

Import Streak.

Import JSArray.

Lemma before_trans (a b c : string) : before a b -> before b c -> before a c.
Proof.
  unfold before. intros H1 H2.
  apply String_as_OT.cmp_lt. apply String_as_OT.cmp_lt in H1, H2.
  exact (String_as_OT.lt_trans _ _ _ H1 H2).
Qed.

Lemma before_irrefl (a : string) : ~ before a a.
Proof.
  unfold before. intros H. apply String_as_OT.cmp_lt in H.
  apply (String_as_OT.lt_not_eq _ _ H). reflexivity.
Qed.

Lemma defaultCompare_pos (y x : string) :
  (0 <? JSArray.defaultCompare y x) = true -> before x y.
Proof.
  unfold JSArray.defaultCompare, before.
  rewrite (String.compare_antisym y x).
  destruct (String.compare x y); simpl; intros H; try discriminate.
  reflexivity.
Qed.

Lemma defaultCompare_nonpos (y x : string) :
  (0 <? JSArray.defaultCompare y x) = false -> y = x \/ before y x.
Proof.
  unfold JSArray.defaultCompare, before.
  destruct (String.compare y x) eqn:E; simpl; intros H.
  - left. apply String.compare_eq_iff, E.
  - right. reflexivity.
  - discriminate.
Qed.

Lemma insert_strictly_descending (x : string) (back : list string) :
  ~ In x back ->
  StronglySorted (fun a b => before b a) back ->
  StronglySorted (fun a b => before b a)
                 (JSArray.insert JSArray.defaultCompare x back).
Proof.
  induction back as [|y back IH]; simpl; intros Hnin Hs.
  - constructor; constructor.
  - pose proof Hs as Hs0.
    apply StronglySorted_inv in Hs. destruct Hs as [Hs Hall].
    destruct (0 <? JSArray.defaultCompare y x) eqn:E.
    + apply defaultCompare_pos in E.
      constructor; [apply IH; [tauto|exact Hs]|].
      apply Forall_forall. intros z Hz. apply JSArrayFacts.insert_In in Hz.
      destruct Hz as [->|Hz]; [exact E|].
      rewrite Forall_forall in Hall. apply Hall, Hz.
    + apply defaultCompare_nonpos in E.
      destruct E as [->|E]; [exfalso; apply Hnin; left; reflexivity|].
      constructor; [exact Hs0|].
      constructor; [exact E|].
      eapply Forall_impl; [|exact Hall].
      intros z Hz. exact (before_trans _ _ _ Hz E).
Qed.

Lemma sort_strictly_descending (l back : list string) :
  NoDup l -> (forall x, In x l -> ~ In x back) ->
  StronglySorted (fun a b => before b a) back ->
  let r := fold_left (fun back x => JSArray.insert JSArray.defaultCompare x back)
                     l back in
  StronglySorted (fun a b => before b a) r
  /\ forall x, In x r <-> In x back \/ In x l.
Proof.
  revert back; induction l as [|y l IH]; intros back Hnd Hdis Hs; simpl.
  - split; [exact Hs|]. intros x. tauto.
  - inversion Hnd as [|? ? Hy Hnd']; subst.
    destruct (IH (JSArray.insert JSArray.defaultCompare y back) Hnd') as [H1 H2].
    + intros x Hx Hin. apply JSArrayFacts.insert_In in Hin.
      destruct Hin as [->|Hin]; [exact (Hy Hx)|].
      exact (Hdis x (or_intror Hx) Hin).
    + apply insert_strictly_descending; [|exact Hs]. apply Hdis. left. reflexivity.
    + split; [exact H1|]. intros x. rewrite H2, JSArrayFacts.insert_In.
      split; intros H; intuition auto.
Qed.

Lemma seen_In (x : string) (seen : list string) :
  existsb (String.eqb x) seen = true <-> In x seen.
Proof.
  rewrite existsb_exists. split.
  - intros [y [Hy He]]. apply String.eqb_eq in He. subst. exact Hy.
  - intros H. exists x. split; [exact H|apply String.eqb_refl].
Qed.

Lemma uniq_from_spec (l seen : list string) :
  NoDup (JSArray.uniq_from seen l)
  /\ forall x, In x (JSArray.uniq_from seen l) <-> In x l /\ ~ In x seen.
Proof.
  revert seen; induction l as [|y l IH]; intros seen; simpl.
  - split; [constructor|]. intros x. tauto.
  - destruct (existsb (String.eqb y) seen) eqn:E.
    + apply seen_In in E. destruct (IH seen) as [H1 H2].
      split; [exact H1|]. intros x. rewrite H2.
      split; [tauto|]. intros [[<-|Hx] Hn]; [contradiction|tauto].
    + assert (Hy : ~ In y seen).
      { intros H. apply seen_In in H. congruence. }
      destruct (IH (y :: seen)) as [H1 H2].
      split.
      * constructor; [|exact H1]. rewrite H2. simpl. tauto.
      * intros x. simpl. rewrite H2. simpl.
        split.
        -- intros [<-|[Hx Hn]]; [tauto|tauto].
        -- intros [[<-|Hx] Hn]; [left; reflexivity|].
           destruct (string_dec y x) as [->|Hne]; [left; reflexivity|].
           right. tauto.
Qed.

Lemma strictly_descending_unique (l1 l2 : list string) :
  StronglySorted (fun a b => before b a) l1 ->
  StronglySorted (fun a b => before b a) l2 ->
  (forall x, In x l1 <-> In x l2) -> l1 = l2.
Proof.
  revert l2; induction l1 as [|a l1 IH]; intros l2 H1 H2 Hsame.
  - destruct l2 as [|b l2]; [reflexivity|].
    exfalso. apply (proj2 (Hsame b)). left. reflexivity.
  - destruct l2 as [|b l2].
    + exfalso. apply (proj1 (Hsame a)). left. reflexivity.
    + apply StronglySorted_inv in H1. destruct H1 as [H1 Ha].
      apply StronglySorted_inv in H2. destruct H2 as [H2 Hb].
      rewrite Forall_forall in Ha, Hb.
      assert (Hab : a = b).
      { destruct (proj1 (Hsame a) (or_introl eq_refl)) as [E|Hin]; [auto|].
        destruct (proj2 (Hsame b) (or_introl eq_refl)) as [E|Hin']; [auto|].
        exfalso. apply (before_irrefl a).
        exact (before_trans _ _ _ (Hb _ Hin) (Ha _ Hin')). }
      subst b. f_equal. apply IH; try assumption.
      intros x. split; intros Hx.
      * destruct (proj1 (Hsame x) (or_intror Hx)) as [E|Hin]; [|exact Hin].
        subst x. exfalso. exact (before_irrefl _ (Ha _ Hx)).
      * destruct (proj2 (Hsame x) (or_intror Hx)) as [E|Hin]; [|exact Hin].
        subst x. exfalso. exact (before_irrefl _ (Hb _ Hx)).
Qed.

Section Order.

Variable formatDay : Z -> string.
Variable prevDay : string -> string.

Lemma completedDates_perm (tasks tasks' : list Task) :
  Permutation tasks tasks' ->
  Permutation (completedDates formatDay tasks) (completedDates formatDay tasks').
Proof.
  intros H. unfold completedDates. apply Permutation_map.
  induction H; simpl.
  - reflexivity.
  - destruct (present (completed_at x)); [apply perm_skip|]; exact IHPermutation.
  - destruct (present (completed_at x)), (present (completed_at y));
      try reflexivity. apply perm_swap.
  - etransitivity; eassumption.
Qed.

Lemma uniqueDates_canonical (tasks : list Task) :
  StronglySorted (fun a b => before b a) (uniqueDates formatDay tasks)
  /\ forall x, In x (uniqueDates formatDay tasks)
               <-> In x (completedDates formatDay tasks).
Proof.
  unfold uniqueDates, JSArray.sort. rewrite rev_involutive.
  unfold JSArray.fromSet.
  destruct (uniq_from_spec (completedDates formatDay tasks) []) as [Hnd Hin].
  destruct (sort_strictly_descending
              (JSArray.uniq_from [] (completedDates formatDay tasks)) []
              Hnd (fun _ _ H => H) (SSorted_nil _)) as [Hs He].
  split; [exact Hs|].
  intros x. rewrite He, Hin. simpl. tauto.
Qed.

Lemma uniqueDates_perm (tasks tasks' : list Task) :
  Permutation tasks tasks' ->
  uniqueDates formatDay tasks = uniqueDates formatDay tasks'.
Proof.
  intros H.
  destruct (uniqueDates_canonical tasks) as [H1 E1].
  destruct (uniqueDates_canonical tasks') as [H2 E2].
  apply strictly_descending_unique; try assumption.
  intros x. rewrite E1, E2.
  pose proof (completedDates_perm _ _ H) as Hp.
  split; intros Hx.
  - exact (Permutation_in _ Hp Hx).
  - exact (Permutation_in _ (Permutation_sym Hp) Hx).
Qed.

(** C8.  The streak of the empty task list is 0, and the streak does not
    depend on the order of the tasks: two lists that are permutations of
    one another have the same streak. *)
Theorem streak_empty_and_order (today : string) :
  streak formatDay prevDay today [] = 0
  /\ forall tasks tasks',
       Permutation tasks tasks' ->
       streak formatDay prevDay today tasks
       = streak formatDay prevDay today tasks'.
Proof.
  split; [reflexivity|].
  intros tasks tasks' H. unfold streak.
  rewrite (uniqueDates_perm tasks tasks' H). reflexivity.
Qed.

End Order.

Lemma streak_empty_and_order_witness :
  Streak.streak Calendar.formatDay Calendar.prevDay "2023-11-14"
    [Calendar.completed_days_ago 3; Calendar.completed_days_ago 0;
     Calendar.open_task; Calendar.completed_days_ago 1]
  = Streak.streak Calendar.formatDay Calendar.prevDay "2023-11-14"
      [Calendar.completed_days_ago 1; Calendar.open_task;
       Calendar.completed_days_ago 3; Calendar.completed_days_ago 0].
Proof.
  apply (streak_empty_and_order Calendar.formatDay Calendar.prevDay "2023-11-14").
  apply Permutation_sym.
  apply (perm_trans (l' := [Calendar.completed_days_ago 1;
                            Calendar.completed_days_ago 3;
                            Calendar.open_task; Calendar.completed_days_ago 0])).
  - apply perm_skip, perm_swap.
  - apply (perm_trans (l' := [Calendar.completed_days_ago 3;
                              Calendar.completed_days_ago 1;
                              Calendar.open_task; Calendar.completed_days_ago 0])).
    + apply perm_swap.
    + apply perm_skip.
      apply (perm_trans (l' := [Calendar.completed_days_ago 1;
                                Calendar.completed_days_ago 0;
                                Calendar.open_task])).
      * apply perm_skip, perm_swap.
      * apply (perm_trans (l' := [Calendar.completed_days_ago 0;
                                  Calendar.completed_days_ago 1;
                                  Calendar.open_task])).
        -- apply perm_swap.
        -- apply perm_skip, perm_swap.
Defined.

End StreakFacts.

(* ===================================================================== *)
(** * Properties of the offline queue *)
(* ===================================================================== *)

Module QueueFacts.

Import OfflineQueue QueueSpec.

Section Pass.

Variable stringify : list QueuedOperation -> string.
Variable execute : QueuedOperation -> bool.

Lemma onLine_print (e : ConsoleEntry) (h : Host) : onLine (print e h) = onLine h.
Proof. reflexivity. Qed.

Lemma onLine_saveQueue (q : list QueuedOperation) (h : Host) :
  onLine (saveQueue stringify q h) = onLine h.
Proof. unfold saveQueue. destruct (setItem_throws h); reflexivity. Qed.

Lemma drain_offline (q : list QueuedOperation) (h : Host) :
  onLine h = false -> drain stringify execute q h = ([], q, h).
Proof.
  intros Hoff. destruct q as [|item rest]; simpl; [reflexivity|].
  rewrite Hoff. reflexivity.
Qed.

Lemma drain_online (q : list QueuedOperation) (h : Host) :
  onLine h = true ->
  fst (fst (drain stringify execute q h))
  = (map (fun x => processed (increment x)) (completing execute q)
       ++ map fate_of_failed (firstn 1 (from_first_failure execute q)))%list
  /\ snd (fst (drain stringify execute q h))
     = queue_after_failure (from_first_failure execute q).
Proof.
  revert h; induction q as [|item rest IH]; intros h Hon; simpl.
  - split; reflexivity.
  - rewrite Hon. simpl. unfold turn.
    destruct (execute item) eqn:Ex.
    + specialize (IH (saveQueue stringify rest (print (log_processing item) h))).
      rewrite onLine_saveQueue, onLine_print in IH. specialize (IH Hon).
      destruct (drain stringify execute rest _) as [[os q'] h'].
      simpl in *. destruct IH as [-> ->]. split; reflexivity.
    + unfold fate_of_failed. simpl.
      destruct (3 <=? attempts item); simpl; split; reflexivity.
Qed.

Lemma processQueue_online (this : This) (h : Host) :
  processing this = false -> onLine h = true ->
  fst (fst (processQueue stringify execute this h))
  = (map (fun x => processed (increment x)) (completing execute (queue this))
       ++ map fate_of_failed
            (firstn 1 (from_first_failure execute (queue this))))%list
  /\ queue (snd (fst (processQueue stringify execute this h)))
     = queue_after_failure (from_first_failure execute (queue this))
  /\ processing (snd (fst (processQueue stringify execute this h))) = false.
Proof.
  intros Hp Hon. unfold processQueue. rewrite Hp. simpl.
  destruct (queue this) as [|item rest] eqn:Eq.
  - simpl. rewrite Eq. repeat split; try reflexivity. exact Hp.
  - cbn [List.length Nat.eqb].
    destruct (drain_online (item :: rest) h Hon) as [H1 H2].
    destruct (drain stringify execute (item :: rest) h) as [[os q'] h'].
    simpl in *. repeat split; assumption.
Qed.

End Pass.

Lemma completing_as_written (q : list QueuedOperation) :
  completing as_written q = q /\ from_first_failure as_written q = [].
Proof.
  induction q as [|x q [IH1 IH2]]; simpl; [split; reflexivity|].
  rewrite IH1, IH2. split; reflexivity.
Qed.

(** C2 (as amended).  A drain pass that finds the flag [processing] set
    does nothing, and so does a pass made offline.  Otherwise the pass
    works through the queue from the head: every operation whose attempt
    completes is removed and the pass goes on with the next one; the pass
    ends when the queue is empty or after the first attempt that throws,
    that operation having been discarded (counter at 3 or more) or moved to
    the tail.  No operation is handled after one that failed. *)
Theorem processQueue_pass (stringify : list QueuedOperation -> string)
        (execute : QueuedOperation -> bool) (this : This) (h : Host) :
  let r := processQueue stringify execute this h in
  (processing this = true -> r = ([], this, h))
  /\ (onLine h = false -> r = ([], this, h))
  /\ (processing this = false -> onLine h = true ->
      fst (fst r)
      = (map (fun x => processed (increment x))
             (completing execute (queue this))
           ++ map fate_of_failed
                (firstn 1 (from_first_failure execute (queue this))))%list
      /\ queue (snd (fst r))
         = queue_after_failure (from_first_failure execute (queue this))
      /\ processing (snd (fst r)) = false).
Proof.
  intros r. subst r. split; [|split].
  - intros Hp. unfold processQueue. rewrite Hp. reflexivity.
  - intros Hoff. destruct this as [q [|]]; [reflexivity|].
    unfold processQueue. simpl.
    destruct q as [|item rest]; [reflexivity|].
    cbn [List.length Nat.eqb]. rewrite drain_offline by exact Hoff. reflexivity.
  - apply processQueue_online.
Qed.

Lemma processQueue_pass_witness :
  processQueue stringify_tags as_written (idle [create_task; update_note]) offline
  = ([], idle [create_task; update_note], offline)
  /\ fst (fst (processQueue stringify_tags always_throws
                 (idle [create_task; update_note]) online))
     = [requeued create_task].
Proof.
  split.
  - apply (processQueue_pass stringify_tags as_written
             (idle [create_task; update_note]) offline).
    reflexivity.
  - destruct (processQueue_pass stringify_tags always_throws
                (idle [create_task; update_note]) online) as [_ [_ H]].
    destruct H as [H1 _]; [reflexivity|reflexivity|].
    rewrite H1. reflexivity.
Defined.

(** C2 (as stated) fails: made online on a queue of two operations, one
    pass of the class as written handles both of them and leaves the queue
    empty. *)
Lemma processQueue_handles_whole_queue :
  fst (processQueue stringify_tags as_written
         (idle [create_task; update_note]) online)
  = ([processed (increment create_task); processed (increment update_note)],
     idle []).
Proof. reflexivity. Qed.

(** What the handler of [processQueue] does.  When the attempt on the head
    operation throws, the handler removes the operation and logs a warning
    if its counter is 3 or more, and otherwise moves it to the tail of the
    queue; either way the pass ends there.  The counter is incremented on
    the path on which the attempt completes, just before the operation is
    removed, and nowhere else. *)
Theorem failed_attempt_handling (stringify : list QueuedOperation -> string)
        (execute : QueuedOperation -> bool) (item : QueuedOperation)
        (rest : list QueuedOperation) (h : Host) :
  onLine h = true ->
  let r := processQueue stringify execute (mkThis (item :: rest) false) h in
  (execute item = false -> 3 <= attempts item ->
   fst (fst r) = [discarded item]
   /\ queue (snd (fst r)) = rest
   /\ In (warn_removing item) (console (snd r)))
  /\ (execute item = false -> attempts item < 3 ->
      fst (fst r) = [requeued item]
      /\ queue (snd (fst r)) = (rest ++ [item])%list)
  /\ (execute item = true ->
      hd_error (fst (fst r)) = Some (processed (increment item))
      /\ attempts (increment item) = attempts item + 1
      /\ queue (snd (fst r))
         = queue_after_failure (from_first_failure execute rest))
  /\ (forall this,
        processing this = false ->
        let r' := processQueue stringify as_written this h in
        fst (fst r') = map (fun x => processed (increment x)) (queue this)
        /\ queue (snd (fst r')) = []).
Proof.
  intros Hon r. subst r. split; [|split; [|split]].
  - intros Ex Hat. unfold processQueue. simpl. rewrite Hon. simpl.
    unfold turn. rewrite Ex.
    destruct (Z.leb_spec 3 (attempts item)); [|lia]. simpl.
    repeat split.
    unfold saveQueue. destruct (setItem_throws _); simpl;
      rewrite ?in_app_iff; simpl; tauto.
  - intros Ex Hat. unfold processQueue. simpl. rewrite Hon. simpl.
    unfold turn. rewrite Ex.
    destruct (Z.leb_spec 3 (attempts item)); [lia|]. simpl.
    split; reflexivity.
  - intros Ex.
    destruct (processQueue_online stringify execute
                (mkThis (item :: rest) false) h eq_refl Hon) as [H1 [H2 _]].
    rewrite H1, H2. simpl. rewrite Ex. simpl. repeat split; reflexivity.
  - intros this Hp r'. subst r'.
    destruct (processQueue_online stringify as_written this h Hp Hon)
      as [H1 [H2 _]].
    rewrite H1, H2.
    destruct (completing_as_written (queue this)) as [-> ->].
    simpl. rewrite app_nil_r. split; reflexivity.
Qed.

Lemma failed_attempt_handling_witness :
  fst (fst (processQueue stringify_tags always_throws
              (mkThis [create_task; update_note] false) online))
  = [requeued create_task]
  /\ queue (snd (fst (processQueue stringify_tags always_throws
                        (mkThis [create_task; update_note] false) online)))
     = [update_note; create_task].
Proof.
  apply (failed_attempt_handling stringify_tags always_throws create_task
           [update_note] online); [reflexivity|reflexivity|].
  simpl. lia.
Defined.

Lemma failing_operation_stays (n : nat) :
  fst (passes stringify_tags always_throws n (idle [create_task]) online)
  = idle [create_task].
Proof.
  assert (H : forall h, onLine h = true ->
                fst (passes stringify_tags always_throws n (idle [create_task]) h)
                = idle [create_task]).
  { induction n as [|n IH]; intros h Hon; [reflexivity|].
    cbn [passes]. unfold processQueue. simpl. rewrite Hon. simpl.
    apply IH. rewrite onLine_saveQueue. exact Hon. }
  apply H. reflexivity.
Qed.


(** C6 (as amended).  [add] appends to the queue in memory a new operation
    whose attempt counter is 0 and whose identifier is the one it returns,
    and writes the queue to the storage (the text is stored when the write
    does not throw).  Offline, that is all: no pass is made and
    [getQueueLength()] has grown by 1.  Online, [add] makes one drain pass
    and waits for it: the identifier is returned in the state that pass
    leaves, which for the class as written and an instance that is not
    already processing is an empty queue. *)
Theorem add_enqueues (stringify : list QueuedOperation -> string)
        (execute : QueuedOperation -> bool)
        (now : Z) (random : Q) (iso tag : string) (payload : JSValue)
        (meta : option JSValue) (this : This) (h : Host) :
  let pushed := push stringify now random iso tag payload meta this h in
  let this1 := snd (fst pushed) in
  let h1 := snd pushed in
  let r := add stringify execute now random iso tag payload meta this h in
  fst (fst r) = (inject_Z now + random)%Q
  /\ (exists op,
        queue this1 = (queue this ++ [op])%list
        /\ id op = fst (fst r) /\ attempts op = 0
        /\ operation op = tag /\ data op = payload /\ timestamp op = iso)
  /\ (setItem_throws h = false -> stored h1 = Some (stringify (queue this1)))
  /\ (onLine h = false ->
      r = pushed /\ getQueueLength (snd (fst r)) = getQueueLength this + 1)
  /\ (onLine h = true ->
      snd (fst r) = snd (fst (processQueue stringify execute this1 h1))
      /\ snd r = snd (processQueue stringify execute this1 h1))
  /\ (onLine h = true -> processing this = false ->
      getQueueLength
        (snd (fst (add stringify as_written now random iso tag payload meta
                       this h))) = 0).
Proof.
  intros pushed this1 h1 r.
  assert (Hon1 : onLine h1 = onLine h).
  { subst h1 pushed. unfold push. simpl. apply onLine_saveQueue. }
  assert (Hr : r = if onLine h then
                     (fst (fst pushed),
                      snd (fst (processQueue stringify execute this1 h1)),
                      snd (processQueue stringify execute this1 h1))
                   else pushed).
  { subst r this1 h1. unfold add. fold pushed.
    destruct pushed as [[i t1] h1'] eqn:Ep. simpl.
    simpl in Hon1. rewrite Hon1.
    destruct (onLine h); [|reflexivity].
    destruct (processQueue stringify execute t1 h1') as [[os t2] h2].
    reflexivity. }
  split; [|split; [|split; [|split; [|split]]]].
  - rewrite Hr. destruct (onLine h); reflexivity.
  - eexists. split; [reflexivity|].
    rewrite Hr. destruct (onLine h); simpl; repeat split; reflexivity.
  - intros Hs. subst h1 pushed. unfold push, saveQueue. simpl.
    rewrite Hs. reflexivity.
  - intros Hoff. rewrite Hr, Hoff. split; [reflexivity|].
    subst pushed. unfold push, getQueueLength. simpl.
    rewrite length_app. simpl. lia.
  - intros Hon. rewrite Hr, Hon. split; reflexivity.
  - intros Hon Hp. unfold add. fold pushed.
    destruct pushed as [[i t1] h1'] eqn:Ep. simpl in this1, h1, Hon1.
    subst this1 h1. rewrite Hon1, Hon.
    assert (Hp1 : processing t1 = false).
    { unfold push in Ep. inversion Ep. exact Hp. }
    destruct (processQueue_online stringify as_written t1 h1' Hp1
                (eq_trans Hon1 Hon)) as [_ [H2 _]].
    destruct (processQueue stringify as_written t1 h1') as [[os t2] h2].
    simpl in *. unfold getQueueLength. rewrite H2.
    destruct (completing_as_written (queue t1)) as [_ ->]. reflexivity.
Qed.

Lemma add_enqueues_witness :
  add stringify_tags as_written 1699963200000 (1 # 4)
      "2023-11-14T12:00:00.000Z" "create_task" (JObj [("title", JStr "a")])
      None (idle [update_note]) offline
  = push stringify_tags 1699963200000 (1 # 4)
      "2023-11-14T12:00:00.000Z" "create_task" (JObj [("title", JStr "a")])
      None (idle [update_note]) offline.
Proof.
  apply (add_enqueues stringify_tags as_written 1699963200000 (1 # 4)
           "2023-11-14T12:00:00.000Z" "create_task" (JObj [("title", JStr "a")])
           None (idle [update_note]) offline).
  reflexivity.
Defined.

(** C6 (as stated) fails in its last part: online, [add] does not hand the
    identifier back in the state the append leaves and let the drain follow.
    The drain pass runs to its end before [add] returns, and when the
    identifier of the only operation is returned the pass has already
    removed that operation: the queue length is 0, not 1. *)
Lemma add_returns_after_the_pass :
  let pushed := push stringify_tags 1699963200000 (1 # 4)
                  "2023-11-14T12:00:00.000Z" "create_task" JNull None
                  (idle []) online in
  let r := add stringify_tags as_written 1699963200000 (1 # 4)
             "2023-11-14T12:00:00.000Z" "create_task" JNull None
             (idle []) online in
  getQueueLength (snd (fst pushed)) = 1
  /\ getQueueLength (snd (fst r)) = 0
  /\ snd (fst r) <> snd (fst pushed).
Proof.
  repeat split; try reflexivity. discriminate.
Qed.

(** C9 (as amended).  [loadQueue] has a value in every case: the
    exceptions of the storage and of the parser are caught.  The value is
    the empty array when reading the storage throws, when nothing or the
    empty string is stored, and when the stored text is not valid JSON; it
    is the stored sequence when the stored text is the JSON text of an
    array.  The storage is left as it was. *)
Theorem loadQueue_fail_open (JSON_parse : string -> option JSValue) (h : Host) :
  let v := fst (loadQueue JSON_parse h) in
  (getItem_throws h = true -> v = JArr [])
  /\ (getItem_throws h = false -> stored h = None -> v = JArr [])
  /\ (getItem_throws h = false -> stored h = Some "" -> v = JArr [])
  /\ (forall text, getItem_throws h = false -> stored h = Some text ->
                   JSON_parse text = None -> v = JArr [])
  /\ (forall text items, getItem_throws h = false -> stored h = Some text ->
                         text <> "" -> JSON_parse text = Some (JArr items) ->
                         v = JArr items)
  /\ stored (snd (loadQueue JSON_parse h)) = stored h.
Proof.
  intros v. subst v. unfold loadQueue.
  split; [|split; [|split; [|split; [|split]]]].
  - intros ->. reflexivity.
  - intros -> ->. reflexivity.
  - intros -> ->. reflexivity.
  - intros text -> -> Hp. destruct (text =? "")%string; [reflexivity|].
    rewrite Hp. reflexivity.
  - intros text items -> -> Hne Hp.
    apply String.eqb_neq in Hne. rewrite Hne, Hp. reflexivity.
  - destruct (getItem_throws h); [reflexivity|].
    destruct (stored h) as [text|] eqn:E; [|simpl; congruence].
    destruct (text =? "")%string; [simpl; congruence|].
    destruct (JSON_parse text); simpl; congruence.
Qed.

Lemma loadQueue_fail_open_witness :
  fst (loadQueue parse_literal holds_empty_array) = JArr []
  /\ fst (loadQueue parse_literal online) = JArr [].
Proof.
  split.
  - destruct (loadQueue_fail_open parse_literal holds_empty_array)
      as [_ [_ [_ [_ [H _]]]]].
    apply (H "[]" []); try reflexivity. discriminate.
  - destruct (loadQueue_fail_open parse_literal online) as [_ [H _]].
    apply H; reflexivity.
Defined.

(** C9 (as stated) fails: when the stored string is the JSON text [null],
    which the parser accepts, the value loaded is [null] and not a queue. *)
Lemma loadQueue_returns_non_array :
  stored holds_null = Some "null"
  /\ parse_literal "null" = Some JNull
  /\ fst (loadQueue parse_literal holds_null) = JNull
  /\ isArray (fst (loadQueue parse_literal holds_null)) = false.
Proof. repeat split; reflexivity. Qed.

End QueueFacts.

(* ===================================================================== *)
(** * Invariants of the offline queue over sequences of calls *)
(* ===================================================================== *)

Module QueueRunFacts.

Import OfflineQueue QueueSpec QueueRuns QueueFacts.

Section Runs.

Variable stringify : list QueuedOperation -> string.

Lemma step_add_is_add (a : AddCall) (execute : QueuedOperation -> bool)
      (seen : list Outcome) (this : This) (h : Host) :
  let r := add stringify execute (at_ms a) (rnd a) (iso a) (tag a) (payload a)
               (meta a) this h in
  snd (fst (step stringify (call_add a execute) (seen, this, h))) = snd (fst r)
  /\ snd (step stringify (call_add a execute) (seen, this, h)) = snd r.
Proof.
  unfold step, add.
  destruct (push stringify (at_ms a) (rnd a) (iso a) (tag a) (payload a)
                 (meta a) this h) as [[i this1] h1].
  destruct (onLine h1); [|split; reflexivity].
  destruct (processQueue stringify execute this1 h1) as [[os this2] h2].
  split; reflexivity.
Qed.

Lemma warnings_print (e : ConsoleEntry) (h : Host) :
  is_warning e = false ->
  filter is_warning (console (print e h)) = filter is_warning (console h).
Proof.
  intros He. unfold print. simpl. rewrite filter_app. simpl. rewrite He.
  apply app_nil_r.
Qed.

Lemma warnings_saveQueue (q : list QueuedOperation) (h : Host) :
  filter is_warning (console (saveQueue stringify q h))
  = filter is_warning (console h).
Proof.
  unfold saveQueue. destruct (setItem_throws h); [|reflexivity].
  apply warnings_print. reflexivity.
Qed.

Lemma drain_zero_counters (execute : QueuedOperation -> bool)
      (q : list QueuedOperation) (h : Host) :
  zero_counters q ->
  filter is_discarded (fst (fst (drain stringify execute q h))) = []
  /\ zero_counters (snd (fst (drain stringify execute q h)))
  /\ filter is_warning (console (snd (drain stringify execute q h)))
     = filter is_warning (console h).
Proof.
  revert h; induction q as [|item rest IH]; intros h Hz; simpl.
  - repeat split. constructor.
  - destruct (onLine h); simpl; [|repeat split; exact Hz].
    inversion Hz as [|? ? H0 Hrest]; subst.
    unfold turn. destruct (execute item).
    + specialize (IH (saveQueue stringify rest (print (log_processing item) h))
                     Hrest).
      destruct (drain stringify execute rest _) as [[os q'] h'].
      simpl in *. destruct IH as [H1 [H2 H3]].
      split; [exact H1|]. split; [exact H2|].
      rewrite H3, warnings_saveQueue. apply warnings_print. reflexivity.
    + destruct (Z.leb_spec 3 (attempts item)); [lia|]. simpl.
      split; [reflexivity|]. split.
      * apply Forall_app. split; [exact Hrest|]. constructor; [exact H0|constructor].
      * rewrite warnings_saveQueue. apply warnings_print. reflexivity.
Qed.

Lemma processQueue_zero_counters (execute : QueuedOperation -> bool)
      (this : This) (h : Host) :
  zero_counters (queue this) ->
  filter is_discarded (fst (fst (processQueue stringify execute this h))) = []
  /\ zero_counters (queue (snd (fst (processQueue stringify execute this h))))
  /\ filter is_warning (console (snd (processQueue stringify execute this h)))
     = filter is_warning (console h).
Proof.
  intros Hz. unfold processQueue.
  destruct (processing this || (List.length (queue this) =? 0)%nat);
    [repeat split; exact Hz|].
  pose proof (drain_zero_counters execute (queue this) h Hz) as H.
  destruct (drain stringify execute (queue this) h) as [[os q'] h'].
  exact H.
Qed.

Lemma step_zero_counters (c : Command) (seen : list Outcome) (this : This)
      (h : Host) :
  zero_counters (queue this) ->
  let r := step stringify c (seen, this, h) in
  zero_counters (queue (snd (fst r)))
  /\ filter is_discarded (fst (fst r)) = filter is_discarded seen
  /\ filter is_warning (console (snd r)) = filter is_warning (console h).
Proof.
  intros Hz. destruct c as [a execute|execute| |execute|]; simpl.
  - assert (Hz1 : zero_counters (queue this ++ [created a])%list).
    { apply Forall_app. split; [exact Hz|]. constructor; [reflexivity|constructor]. }
    unfold push. fold (created a).
    rewrite onLine_saveQueue.
    destruct (onLine h).
    + pose proof (processQueue_zero_counters execute
                    (mkThis (queue this ++ [created a]) (processing this))
                    (saveQueue stringify (queue this ++ [created a]) h) Hz1) as H.
      destruct (processQueue stringify execute _ _) as [[os this2] h2].
      simpl in *. destruct H as [H1 [H2 H3]].
      split; [exact H2|]. split.
      * rewrite filter_app, H1. apply app_nil_r.
      * rewrite H3. apply warnings_saveQueue.
    + simpl. split; [exact Hz1|]. split; [reflexivity|].
      apply warnings_saveQueue.
  - pose proof (processQueue_zero_counters execute this h Hz) as H.
    destruct (processQueue stringify execute this h) as [[os this'] h'].
    simpl in *. destruct H as [H1 [H2 H3]].
    split; [exact H2|]. split; [|exact H3].
    rewrite filter_app, H1. apply app_nil_r.
  - split; [constructor|]. split; [reflexivity|]. apply warnings_saveQueue.
  - pose proof (processQueue_zero_counters execute this (set_onLine true h) Hz)
      as H.
    destruct (processQueue stringify execute this (set_onLine true h))
      as [[os this'] h'].
    simpl in *. destruct H as [H1 [H2 H3]].
    split; [exact H2|]. split; [|exact H3].
    rewrite filter_app, H1. apply app_nil_r.
  - repeat split. exact Hz.
Qed.

(** The attempt counters never leave 0.  Whatever calls are made and
    whichever execution steps throw, a queue whose operations have their
    counter at 0 -- as every operation made by [add] has -- keeps all
    counters at 0; so the removal after three attempts never takes place:
    no operation is discarded and no removal warning is printed. *)
Theorem counters_stay_zero (cs : list Command) (seen : list Outcome)
        (this : This) (h : Host) :
  Forall (fun op => attempts op = 0) (queue this) ->
  let r := run stringify cs (seen, this, h) in
  Forall (fun op => attempts op = 0) (queue (snd (fst r)))
  /\ filter is_discarded (fst (fst r)) = filter is_discarded seen
  /\ filter is_warning (console (snd r)) = filter is_warning (console h).
Proof.
  unfold run. revert seen this h.
  induction cs as [|c cs IH]; intros seen this h Hz; cbn [fold_left].
  - repeat split. exact Hz.
  - pose proof (step_zero_counters c seen this h Hz) as H.
    destruct (step stringify c (seen, this, h)) as [[seen1 this1] h1].
    cbn [fst snd] in H. destruct H as [H1 [H2 H3]].
    destruct (IH seen1 this1 h1 H1) as [G1 [G2 G3]].
    split; [exact G1|]. split; congruence.
Qed.

Lemma drain_stored (execute : QueuedOperation -> bool)
      (q : list QueuedOperation) (h : Host) :
  setItem_throws h = false ->
  let r := drain stringify execute q h in
  setItem_throws (snd r) = false
  /\ ((snd (fst r) = q /\ snd r = h)
      \/ stored (snd r) = Some (stringify (snd (fst r)))).
Proof.
  revert h; induction q as [|item rest IH]; intros h Hs; simpl.
  - split; [exact Hs|]. left. split; reflexivity.
  - destruct (onLine h); simpl; [|split; [exact Hs|left; split; reflexivity]].
    unfold turn. destruct (execute item).
    + assert (Hs1 : setItem_throws
                      (saveQueue stringify rest (print (log_processing item) h))
                    = false).
      { unfold saveQueue. simpl. rewrite Hs. exact Hs. }
      specialize (IH _ Hs1).
      destruct (drain stringify execute rest _) as [[os q'] h'].
      simpl in *. destruct IH as [H1 H2]. split; [exact H1|].
      right. destruct H2 as [[-> ->]|H2]; [|exact H2].
      unfold saveQueue. simpl. rewrite Hs. reflexivity.
    + destruct (3 <=? attempts item); simpl; unfold saveQueue; simpl;
        rewrite Hs; simpl; (split; [exact Hs|right; reflexivity]).
Qed.

Lemma step_stored (c : Command) (seen : list Outcome) (this : This) (h : Host) :
  setItem_throws h = false ->
  stored h = Some (stringify (queue this)) ->
  let r := step stringify c (seen, this, h) in
  setItem_throws (snd r) = false
  /\ stored (snd r) = Some (stringify (queue (snd (fst r)))).
Proof.
  assert (Hp : forall execute this h,
             setItem_throws h = false ->
             stored h = Some (stringify (queue this)) ->
             let r := processQueue stringify execute this h in
             setItem_throws (snd r) = false
             /\ stored (snd r) = Some (stringify (queue (snd (fst r))))).
  { intros execute t h' Hs Hi. unfold processQueue.
    destruct (processing t || (List.length (queue t) =? 0)%nat);
      [split; assumption|].
    pose proof (drain_stored execute (queue t) h' Hs) as H.
    destruct (drain stringify execute (queue t) h') as [[os q'] h''].
    simpl in *. destruct H as [H1 H2]. split; [exact H1|].
    destruct H2 as [[-> ->]|H2]; assumption. }
  intros Hs Hi. destruct c as [a execute|execute| |execute|]; simpl.
  - unfold push. rewrite onLine_saveQueue.
    assert (Hs1 : setItem_throws
                    (saveQueue stringify
                       (queue this ++ [mkOp (inject_Z (at_ms a) + rnd a)%Q (tag a)
                                         (payload a)
                                         match meta a with
                                         | Some m => m
                                         | None => JObj []
                                         end (iso a) 0])%list h) = false
                  /\ stored
                       (saveQueue stringify
                          (queue this ++ [mkOp (inject_Z (at_ms a) + rnd a)%Q (tag a)
                                            (payload a)
                                            match meta a with
                                            | Some m => m
                                            | None => JObj []
                                            end (iso a) 0])%list h)
                     = Some (stringify
                               (queue this ++ [mkOp (inject_Z (at_ms a) + rnd a)%Q
                                                 (tag a) (payload a)
                                                 match meta a with
                                                 | Some m => m
                                                 | None => JObj []
                                                 end (iso a) 0])%list)).
    { unfold saveQueue. rewrite Hs. simpl. split; [exact Hs|reflexivity]. }
    destruct Hs1 as [Hs1 Hi1].
    destruct (onLine h); [|simpl; split; assumption].
    pose proof (Hp execute (mkThis _ (processing this)) _ Hs1 Hi1) as H.
    destruct (processQueue stringify execute _ _) as [[os this2] h2].
    exact H.
  - pose proof (Hp execute this h Hs Hi) as H.
    destruct (processQueue stringify execute this h) as [[os this'] h'].
    exact H.
  - unfold saveQueue. rewrite Hs. simpl. split; [exact Hs|reflexivity].
  - pose proof (Hp execute this (set_onLine true h) Hs Hi) as H.
    destruct (processQueue stringify execute this (set_onLine true h))
      as [[os this'] h'].
    exact H.
  - split; assumption.
Qed.

(** The storage follows the queue.  On a storage whose writes succeed, once
    the stored text is that of the queue in memory it remains so after every
    call and every connectivity event: each change of the queue is written
    before the next one. *)
Theorem stored_follows_queue (cs : list Command) (seen : list Outcome)
        (this : This) (h : Host) :
  setItem_throws h = false ->
  stored h = Some (stringify (queue this)) ->
  let r := run stringify cs (seen, this, h) in
  stored (snd r) = Some (stringify (queue (snd (fst r)))).
Proof.
  intros Hs Hi r. subst r. unfold run.
  assert (H : setItem_throws
                (snd (fold_left (fun st c => step stringify c st) cs (seen, this, h)))
              = false
              /\ stored
                   (snd (fold_left (fun st c => step stringify c st) cs
                           (seen, this, h)))
                 = Some (stringify
                           (queue (snd (fst (fold_left
                                               (fun st c => step stringify c st) cs
                                               (seen, this, h))))))).
  { revert seen this h Hs Hi.
    induction cs as [|c cs IH]; intros seen this h Hs Hi; cbn [fold_left].
    - split; assumption.
    - pose proof (step_stored c seen this h Hs Hi) as H.
      destruct (step stringify c (seen, this, h)) as [[seen1 this1] h1].
      cbn [fst snd] in H. destruct H as [H1 H2]. apply IH; assumption. }
  apply H.
Qed.

Lemma drain_memory (execute : QueuedOperation -> bool)
      (q : list QueuedOperation) (h1 h2 : Host) :
  onLine h1 = onLine h2 ->
  fst (drain stringify execute q h1) = fst (drain stringify execute q h2)
  /\ onLine (snd (drain stringify execute q h1))
     = onLine (snd (drain stringify execute q h2)).
Proof.
  revert h1 h2; induction q as [|item rest IH]; intros h1 h2 Ho; simpl.
  - split; [reflexivity|exact Ho].
  - rewrite Ho. destruct (onLine h2) eqn:E2; simpl;
      [|split; [reflexivity|congruence]].
    unfold turn. destruct (execute item).
    + specialize (IH (saveQueue stringify rest (print (log_processing item) h1))
                     (saveQueue stringify rest (print (log_processing item) h2))).
      rewrite !onLine_saveQueue, !onLine_print in IH.
      specialize (IH (eq_trans Ho (eq_sym E2))).
      destruct (drain stringify execute rest
                  (saveQueue stringify rest (print (log_processing item) h1)))
        as [[os1 q1] g1].
      destruct (drain stringify execute rest
                  (saveQueue stringify rest (print (log_processing item) h2)))
        as [[os2 q2] g2].
      simpl in *. destruct IH as [H1 H2]. inversion H1; subst.
      split; [reflexivity|exact H2].
    + destruct (3 <=? attempts item); simpl;
        rewrite !onLine_saveQueue; simpl; split; try reflexivity; congruence.
Qed.

Lemma processQueue_memory (execute : QueuedOperation -> bool) (this : This)
      (h1 h2 : Host) :
  onLine h1 = onLine h2 ->
  fst (processQueue stringify execute this h1)
  = fst (processQueue stringify execute this h2)
  /\ onLine (snd (processQueue stringify execute this h1))
     = onLine (snd (processQueue stringify execute this h2)).
Proof.
  intros Ho. unfold processQueue.
  destruct (processing this || (List.length (queue this) =? 0)%nat);
    [split; [reflexivity|exact Ho]|].
  pose proof (drain_memory execute (queue this) h1 h2 Ho) as H.
  destruct (drain stringify execute (queue this) h1) as [[os1 q1] g1].
  destruct (drain stringify execute (queue this) h2) as [[os2 q2] g2].
  simpl in *. destruct H as [H1 H2]. inversion H1; subst.
  split; [reflexivity|exact H2].
Qed.

Lemma step_memory (c : Command) (seen : list Outcome) (this : This)
      (h1 h2 : Host) :
  onLine h1 = onLine h2 ->
  fst (step stringify c (seen, this, h1)) = fst (step stringify c (seen, this, h2))
  /\ onLine (snd (step stringify c (seen, this, h1)))
     = onLine (snd (step stringify c (seen, this, h2))).
Proof.
  intros Ho. destruct c as [a execute|execute| |execute|]; simpl.
  - unfold push. rewrite !onLine_saveQueue, Ho.
    destruct (onLine h2) eqn:E2; [|simpl; rewrite !onLine_saveQueue;
                                    split; [reflexivity|congruence]].
    match goal with
    | |- context [processQueue stringify execute ?t (saveQueue stringify ?q h1)] =>
        pose proof (processQueue_memory execute t (saveQueue stringify q h1)
                      (saveQueue stringify q h2)) as H
    end.
    rewrite !onLine_saveQueue in H. specialize (H (eq_trans Ho (eq_sym E2))).
    destruct (processQueue stringify execute _ (saveQueue stringify _ h1))
      as [[os1 t1] g1].
    destruct (processQueue stringify execute _ (saveQueue stringify _ h2))
      as [[os2 t2] g2].
    simpl in *. destruct H as [H1 H2]. inversion H1; subst.
    split; [reflexivity|exact H2].
  - pose proof (processQueue_memory execute this h1 h2 Ho) as H.
    destruct (processQueue stringify execute this h1) as [[os1 t1] g1].
    destruct (processQueue stringify execute this h2) as [[os2 t2] g2].
    simpl in *. destruct H as [H1 H2]. inversion H1; subst.
    split; [reflexivity|exact H2].
  - rewrite !onLine_saveQueue. split; [reflexivity|exact Ho].
  - pose proof (processQueue_memory execute this (set_onLine true h1)
                  (set_onLine true h2) eq_refl) as H.
    destruct (processQueue stringify execute this (set_onLine true h1))
      as [[os1 t1] g1].
    destruct (processQueue stringify execute this (set_onLine true h2))
      as [[os2 t2] g2].
    simpl in *. destruct H as [H1 H2]. inversion H1; subst.
    split; [reflexivity|exact H2].
  - split; reflexivity.
Qed.

(** The queue in memory does not depend on the storage.  Two browsers that
    agree on connectivity take every run to the same queue, the same flag
    and the same fates of the operations, whatever is stored and whether
    or not reading and writing the storage throw: a failed write is not
    rolled back. *)
Theorem memory_ignores_storage (cs : list Command) (seen : list Outcome)
        (this : This) (h1 h2 : Host) :
  onLine h1 = onLine h2 ->
  fst (run stringify cs (seen, this, h1)) = fst (run stringify cs (seen, this, h2)).
Proof.
  intros Ho. unfold run.
  assert (H : fst (fold_left (fun st c => step stringify c st) cs (seen, this, h1))
              = fst (fold_left (fun st c => step stringify c st) cs (seen, this, h2))
              /\ onLine (snd (fold_left (fun st c => step stringify c st) cs
                                (seen, this, h1)))
                 = onLine (snd (fold_left (fun st c => step stringify c st) cs
                                  (seen, this, h2)))).
  { revert seen this h1 h2 Ho.
    induction cs as [|c cs IH]; intros seen this h1 h2 Ho; cbn [fold_left].
    - split; [reflexivity|exact Ho].
    - pose proof (step_memory c seen this h1 h2 Ho) as H.
      destruct (step stringify c (seen, this, h1)) as [[s1 t1] g1].
      destruct (step stringify c (seen, this, h2)) as [[s2 t2] g2].
      cbn [fst snd] in H. destruct H as [H1 H2]. inversion H1; subst.
      apply IH. exact H2. }
  apply H.
Qed.

Lemma run_offline_adds (adds : list AddCall) (seen : list Outcome)
      (this : This) (h : Host) :
  onLine h = false ->
  let r := run stringify (map (fun a => call_add a as_written) adds)
               (seen, this, h) in
  fst (fst r) = seen
  /\ snd (fst r)
     = mkThis (queue this ++ map created adds)%list (processing this)
  /\ onLine (snd r) = false.
Proof.
  unfold run. revert seen this h.
  induction adds as [|a adds IH]; intros seen this h Hoff; cbn [map fold_left].
  - rewrite app_nil_r. destruct this; repeat split. exact Hoff.
  - cbn [step]. unfold push. fold (created a).
    rewrite onLine_saveQueue, Hoff.
    specialize (IH seen (mkThis (queue this ++ [created a]) (processing this))
                   (saveQueue stringify (queue this ++ [created a]) h)).
    rewrite onLine_saveQueue in IH. specialize (IH Hoff).
    cbn [queue processing] in IH. rewrite <- app_assoc in IH. exact IH.
Qed.

(** First in, first out.  Operations added while offline are appended in
    the order of the calls, none being handled; when the browser comes back
    online the listener makes one pass, and the class as written handles
    the whole queue in that order, the earlier operations first, and leaves
    it empty. *)
Theorem offline_adds_then_online (adds : list AddCall) (seen : list Outcome)
        (this : This) (h : Host) :
  onLine h = false -> processing this = false ->
  let queued := run stringify (map (fun a => call_add a as_written) adds)
                    (seen, this, h) in
  let r := run stringify [event_online as_written] queued in
  fst (fst queued) = seen
  /\ queue (snd (fst queued)) = (queue this ++ map created adds)%list
  /\ fst (fst r)
     = (seen ++ map (fun op => processed (increment op))
                    (queue this ++ map created adds))%list
  /\ queue (snd (fst r)) = [].
Proof.
  intros Hoff Hp queued r.
  destruct (run_offline_adds adds seen this h Hoff) as [H1 [H2 H3]].
  fold queued in H1, H2, H3.
  subst r. destruct queued as [[seen1 this1] h1]. cbn [fst snd] in *.
  subst seen1 this1.
  split; [reflexivity|]. split; [reflexivity|].
  unfold run. cbn [fold_left step].
  destruct (processQueue_online stringify as_written
              (mkThis (queue this ++ map created adds) (processing this))
              (set_onLine true h1) Hp eq_refl) as [G1 [G2 _]].
  destruct (processQueue stringify as_written _ (set_onLine true h1))
    as [[os this'] h'].
  cbn [fst snd queue] in *. rewrite G1, G2.
  destruct (completing_as_written (queue this ++ map created adds))
    as [-> ->].
  simpl. rewrite app_nil_r. split; reflexivity.
Qed.

End Runs.

Lemma stored_follows_queue_witness :
  let r := run stringify_tags
             [call_add (sample_add 0) always_throws;
              event_online always_throws; call_clearQueue;
              call_add (sample_add 1) as_written]
             ([], mkThis [] false, holds_empty_array) in
  stored (snd r) = Some (stringify_tags (queue (snd (fst r)))).
Proof.
  apply (stored_follows_queue stringify_tags
           [call_add (sample_add 0) always_throws;
            event_online always_throws; call_clearQueue;
            call_add (sample_add 1) as_written]
           [] (mkThis [] false) holds_empty_array); reflexivity.
Defined.

Lemma memory_ignores_storage_witness :
  fst (run stringify_tags
         [call_add (sample_add 0) always_throws; event_online as_written]
         ([], mkThis [] false, mkHost None true true false []))
  = fst (run stringify_tags
           [call_add (sample_add 0) always_throws; event_online as_written]
           fresh).
Proof.
  apply (memory_ignores_storage stringify_tags
           [call_add (sample_add 0) always_throws; event_online as_written]
           [] (mkThis [] false) (mkHost None true true false [])
           (mkHost None false false false [])).
  reflexivity.
Defined.

Lemma offline_adds_then_online_witness :
  queue (snd (fst (run stringify_tags
                     (map (fun a => call_add a as_written)
                          [sample_add 0; sample_add 1; sample_add 2])
                     fresh)))
  = [created (sample_add 0); created (sample_add 1); created (sample_add 2)].
Proof.
  apply (offline_adds_then_online stringify_tags
           [sample_add 0; sample_add 1; sample_add 2]
           [] (mkThis [] false) (mkHost None false false false []));
    reflexivity.
Defined.

Lemma counters_stay_zero_witness :
  filter is_discarded
    (fst (fst (run stringify_tags
                 [call_add (sample_add 0) always_throws;
                  event_online always_throws;
                  call_processQueue always_throws;
                  call_processQueue always_throws;
                  call_add (sample_add 1) always_throws]
                 fresh))) = [].
Proof.
  apply (counters_stay_zero stringify_tags
           [call_add (sample_add 0) always_throws;
            event_online always_throws;
            call_processQueue always_throws;
            call_processQueue always_throws;
            call_add (sample_add 1) always_throws]
           [] (mkThis [] false) (mkHost None false false false [])).
  constructor.
Defined.

End QueueRunFacts.

(* ===================================================================== *)
(** * Further properties of the insight helpers *)
(* ===================================================================== *)

Module InsightMoreFacts.

Import AIInsightsHelpers InsightSpec InsightOrder JSArrayFacts InsightFacts.

Lemma filter_perm {A : Type} (f : A -> bool) (l l' : list A) :
  Permutation l l' -> Permutation (filter f l) (filter f l').
Proof.
  induction 1 as [|x l l' _ IH|x y l|l l' l'' _ IH1 _ IH2]; simpl.
  - reflexivity.
  - destruct (f x); [apply perm_skip|]; exact IH.
  - destruct (f x), (f y); try reflexivity. apply perm_swap.
  - etransitivity; eassumption.
Qed.

Lemma minutes_perm (l l' : list FocusSession) :
  Permutation l l' ->
  fold_left (fun sum session => sum + or0 (duration session)) l 0
  = fold_left (fun sum session => sum + or0 (duration session)) l' 0.
Proof.
  induction 1 as [|x l l' _ IH|x y l|l l' l'' _ IH1 _ IH2]; simpl.
  - reflexivity.
  - rewrite (fold_minutes_shift l), (fold_minutes_shift l'), IH. reflexivity.
  - rewrite fold_minutes_shift. symmetry. rewrite fold_minutes_shift. lia.
  - congruence.
Qed.

(** The burnout analysis depends only on the sessions that started within
    the last seven days, taken as a bag: the order of the sessions, the
    sessions that have no start or started a week or more ago, and the task
    list have no influence on any field of the answer. *)
Theorem analyzeBurnoutRisk_recent_only (now : Z)
        (sessions sessions' : list FocusSession) (tasks tasks' : list Task) :
  Permutation (recentSessions now sessions) (recentSessions now sessions') ->
  analyzeBurnoutRisk now sessions tasks = analyzeBurnoutRisk now sessions' tasks'.
Proof.
  intros H. unfold analyzeBurnoutRisk, totalMinutes.
  rewrite (minutes_perm _ _ H). reflexivity.
Qed.

Lemma analyzeBurnoutRisk_recent_only_witness :
  analyzeBurnoutRisk noon_2023_11_14
    [session 600 (noon_2023_11_14 - 8 * day_ms);
     session 90 (noon_2023_11_14 - day_ms); mkSession (Some 45) None true;
     session 30 noon_2023_11_14] [task_low]
  = analyzeBurnoutRisk noon_2023_11_14
      [session 30 noon_2023_11_14; session 90 (noon_2023_11_14 - day_ms)] [].
Proof.
  apply analyzeBurnoutRisk_recent_only. apply perm_swap.
Defined.

Lemma minutesAfter_app (bound : Z) (l l' : list FocusSession) :
  minutesAfter bound (l ++ l') = minutesAfter bound l + minutesAfter bound l'.
Proof.
  induction l as [|s l IH]; simpl; [reflexivity|].
  destruct (started_at s) as [t|]; [|exact IH].
  destruct (bound <? t); lia.
Qed.

Lemma minutesAfter_nonneg (bound : Z) (l : list FocusSession) :
  Forall (fun s => 0 <= or0 (duration s)) l -> 0 <= minutesAfter bound l.
Proof.
  induction 1 as [|s l Hs _ IH]; simpl; [lia|].
  destruct (started_at s) as [t|]; [|exact IH].
  destruct (bound <? t); lia.
Qed.

(** Further sessions never lower the risk level.  When the sessions that
    are added have non-negative durations, the level for the longer list
    is the same or a higher one (low, medium, high). *)
Theorem analyzeBurnoutRisk_monotone (now : Z)
        (sessions extra : list FocusSession) (tasks tasks' : list Task) :
  Forall (fun s => 0 <= or0 (duration s)) extra ->
  rank (riskLevel (analyzeBurnoutRisk now sessions tasks))
  <= rank (riskLevel (analyzeBurnoutRisk now (sessions ++ extra) tasks')).
Proof.
  intros Hx. rewrite !riskLevel_by_total, !totalMinutes_minutesAfter.
  rewrite minutesAfter_app.
  pose proof (minutesAfter_nonneg (now - week_ms) extra Hx) as Hn.
  set (a := minutesAfter (now - week_ms) sessions) in *.
  set (b := minutesAfter (now - week_ms) extra) in *.
  destruct (Z.ltb_spec 4200 a), (Z.ltb_spec 4200 (a + b)),
           (Z.ltb_spec 3360 a), (Z.ltb_spec 3360 (a + b));
    unfold rank; simpl; lia.
Qed.

Lemma analyzeBurnoutRisk_monotone_witness :
  rank (riskLevel (analyzeBurnoutRisk noon_2023_11_14
                     (ten_sessions noon_2023_11_14) []))
  <= rank (riskLevel (analyzeBurnoutRisk noon_2023_11_14
                        (ten_sessions noon_2023_11_14
                           ++ [session 3000 noon_2023_11_14]) [])).
Proof.
  apply analyzeBurnoutRisk_monotone.
  constructor; [simpl; lia|constructor].
Defined.

(** *** The peak hour does not depend on the order of the sessions *)

Lemma bestOf_characterised (stats : HourlyStats) :
  StronglySorted Z.lt (map fst stats) ->
  Forall (fun e => 0 < count (snd e)) stats ->
  match fst (bestOf stats) with
  | Some k => snd (bestOf stats) = countAt k stats
              /\ 0 < countAt k stats
              /\ (forall h, countAt h stats <= countAt k stats)
              /\ (forall h, h < k -> countAt h stats < countAt k stats)
  | None => snd (bestOf stats) = 0 /\ forall h, countAt h stats = 0
  end.
Proof.
  intros Hsorted Hpos.
  destruct (bestOf_scan stats None 0) as [_ [Hmax Hwho]].
  fold (bestOf stats) in Hmax, Hwho.
  destruct (bestOf stats) as [best cnt]. simpl in *.
  destruct Hwho as [Hinit|[pre [e [post [Hs [Hr [Hc Hpre]]]]]]].
  - inversion Hinit; subst. split; [reflexivity|].
    intros h. destruct (countAt_cases h stats) as [H0|[st [Hin Hst]]]; [exact H0|].
    specialize (Hmax _ Hin). rewrite Forall_forall in Hpos.
    specialize (Hpos _ Hin). simpl in Hmax, Hpos. lia.
  - inversion Hr; subst best cnt. destruct e as [k st]. simpl in *.
    assert (Hk : countAt k stats = count st).
    { apply countAt_In; [exact Hsorted|]. rewrite Hs.
      apply in_or_app. right. left. reflexivity. }
    rewrite Hk. split; [reflexivity|]. split; [lia|]. split.
    + intros h. destruct (countAt_cases h stats) as [H0|[st' [Hin Hst]]]; [lia|].
      rewrite Hst. apply (Hmax _ Hin).
    + intros h Hlt.
      destruct (countAt_cases h stats) as [H0|[st' [Hin Hst]]]; [lia|].
      rewrite Hst. rewrite Hs in Hin, Hsorted.
      apply (Hpre (h, st')).
      apply (sorted_before pre post (k, st) h st' Hsorted Hin Hlt).
Qed.

Lemma bestOf_by_counts (s1 s2 : HourlyStats) :
  StronglySorted Z.lt (map fst s1) -> Forall (fun e => 0 < count (snd e)) s1 ->
  StronglySorted Z.lt (map fst s2) -> Forall (fun e => 0 < count (snd e)) s2 ->
  (forall h, countAt h s1 = countAt h s2) ->
  bestOf s1 = bestOf s2.
Proof.
  intros A1 P1 A2 P2 Heq.
  pose proof (bestOf_characterised s1 A1 P1) as C1.
  pose proof (bestOf_characterised s2 A2 P2) as C2.
  destruct (bestOf s1) as [b1 c1], (bestOf s2) as [b2 c2]. simpl in *.
  destruct b1 as [k1|], b2 as [k2|].
  - destruct C1 as [E1 [Q1 [M1 L1]]], C2 as [E2 [Q2 [M2 L2]]].
    assert (k1 = k2).
    { destruct (Z.lt_trichotomy k1 k2) as [Hlt|[He|Hgt]]; [|exact He|].
      - specialize (L2 k1 Hlt). specialize (M1 k2). rewrite <- !Heq in L2. lia.
      - specialize (L1 k2 Hgt). specialize (M2 k1). rewrite !Heq in L1. lia. }
    subst k2. rewrite E1, E2, Heq. reflexivity.
  - destruct C1 as [_ [Q1 _]], C2 as [_ Z2]. rewrite Heq, Z2 in Q1. lia.
  - destruct C1 as [_ Z1], C2 as [_ [Q2 _]]. rewrite <- Heq, Z1 in Q2. lia.
  - destruct C1 as [-> _], C2 as [-> _]. reflexivity.
Qed.

(** The productivity pattern does not depend on the order of the sessions:
    the hours are scanned in ascending order whatever the order in which
    they were met, so two lists that are permutations of one another get
    the same answer, message included. *)
Theorem detectProductivityPatterns_order (tz : Z)
        (sessions sessions' : list FocusSession) :
  Permutation sessions sessions' ->
  detectProductivityPatterns tz sessions = detectProductivityPatterns tz sessions'.
Proof.
  intros H. unfold detectProductivityPatterns.
  pose proof (filter_perm completed _ _ H) as Hc.
  rewrite (Permutation_length Hc).
  destruct (List.length (filter completed sessions') <? 5)%nat; [reflexivity|].
  destruct (hourlyStats_invariant tz (filter completed sessions) []
              (SSorted_nil _) (Forall_nil _)) as [A1 [P1 C1]].
  destruct (hourlyStats_invariant tz (filter completed sessions') []
              (SSorted_nil _) (Forall_nil _)) as [A2 [P2 C2]].
  fold (hourlyStats tz (filter completed sessions)) in A1, P1, C1.
  fold (hourlyStats tz (filter completed sessions')) in A2, P2, C2.
  rewrite (bestOf_by_counts _ _ A1 P1 A2 P2); [reflexivity|].
  intros h. rewrite C1, C2. simpl. unfold sessionsInHour.
  rewrite (Permutation_length (filter_perm _ _ _ Hc)). reflexivity.
Qed.

Lemma detectProductivityPatterns_order_witness :
  detectProductivityPatterns 0
    [session_at 14; session_at 14; session_at 9; session_at 9; session_at 10]
  = detectProductivityPatterns 0
      [session_at 14; session_at 9; session_at 14; session_at 9; session_at 10].
Proof.
  apply detectProductivityPatterns_order.
  apply perm_skip, perm_swap.
Defined.

(** *** The estimate drawn from the history *)

Lemma estimates_between (lo hi : Z) (l : list Task) :
  (forall t, In t l -> lo <= or0 (time_estimate t) <= hi) ->
  lo * Z.of_nat (List.length l)
  <= fold_right Z.add 0 (map (fun t => or0 (time_estimate t)) l)
  <= hi * Z.of_nat (List.length l).
Proof.
  induction l as [|t l IH]; intros H; [simpl; lia|].
  cbn [List.length map fold_right].
  assert (Ht := H t (or_introl eq_refl)).
  assert (Hl := IH (fun u Hu => H u (or_intror Hu))).
  lia.
Qed.

(** An estimate drawn from the history lies within the history.  For a
    task without estimate of its own, when some completed task of its
    category has a non-zero estimate, the answer is at least the smallest
    and at most the largest of the estimates that are averaged. *)
Theorem estimateTaskDuration_within_history (inherited : string -> bool)
        (t0 : Task) (historicalTasks : list Task) (lo hi : Z) :
  truthy (time_estimate t0) = false ->
  similar t0 historicalTasks <> [] ->
  (forall t, In t (similar t0 historicalTasks) ->
             lo <= or0 (time_estimate t) <= hi) ->
  exists m,
    estimateTaskDuration inherited t0 historicalTasks = minutes m
    /\ lo <= m <= hi.
Proof.
  intros Hf Hne Hb. unfold estimateTaskDuration. rewrite Hf.
  pose proof (estimates_between lo hi _ Hb) as Hsum.
  destruct (similar t0 historicalTasks) as [|t1 l] eqn:Es; [congruence|].
  rewrite fold_estimates_shift, Z.add_0_l.
  set (total := fold_right Z.add 0
                  (map (fun t => or0 (time_estimate t)) (t1 :: l))) in *.
  set (n := Z.of_nat (List.length (t1 :: l))) in *.
  assert (Hn : 0 < n) by (subst n; simpl List.length; lia).
  destruct n as [|pn|pn] eqn:En; try lia.
  rewrite Math_round_quotient.
  pose proof (nearest_bounds total (Z.pos pn) Hn) as Hr.
  set (r := (2 * total + Z.pos pn) / (2 * Z.pos pn)) in *.
  exists r. split; [reflexivity|]. split; nia.
Qed.

Lemma estimateTaskDuration_within_history_witness :
  exists m,
    estimateTaskDuration JSObject.standard_prototype (daily_task None)
      [done_daily 10; done_daily 15; done_daily 12]
    = minutes m
    /\ 10 <= m <= 15.
Proof.
  apply estimateTaskDuration_within_history.
  - reflexivity.
  - simpl. discriminate.
  - simpl. intros t [<-|[<-|[<-|[]]]]; simpl; lia.
Defined.

(** *** How many tasks are recommended *)

Lemma recommendations_length (tasks : list Task) :
  List.length (recommendations (generateSmartTaskRecommendations tasks))
  = Nat.min 3 (List.length (pendingTasks tasks)).
Proof.
  rewrite <- (length_map task).
  fold (recommended tasks). rewrite recommended_prioritized.
  unfold prioritized, JSArray.slice0. rewrite length_firstn.
  rewrite <- (Permutation_length (sort_perm compareTasks (pendingTasks tasks))).
  reflexivity.
Qed.

(** The number of recommendations is the number of pending tasks, capped
    at three; nothing is recommended exactly when every task is completed;
    and a recommended task is always a pending task of the input. *)
Theorem recommendations_are_pending (tasks : list Task) :
  List.length (recommendations (generateSmartTaskRecommendations tasks))
  = Nat.min 3 (List.length (pendingTasks tasks))
  /\ (recommendations (generateSmartTaskRecommendations tasks) = []
      <-> forall t, In t tasks -> status t = "completed")
  /\ (forall r, In r (recommendations (generateSmartTaskRecommendations tasks)) ->
                In (task r) tasks /\ status (task r) <> "completed").
Proof.
  pose proof (recommendations_length tasks) as Hlen.
  split; [exact Hlen|]. split.
  - split.
    + intros He t Ht. rewrite He in Hlen. simpl in Hlen.
      destruct (pendingTasks tasks) as [|p l] eqn:Ep; [|simpl in Hlen; lia].
      destruct (String.eqb_spec (status t) "completed") as [E|E]; [exact E|].
      assert (Hin : In t (pendingTasks tasks)).
      { unfold pendingTasks. apply filter_In. split; [exact Ht|].
        apply String.eqb_neq in E. rewrite E. reflexivity. }
      rewrite Ep in Hin. contradiction.
    + intros Hall. apply length_zero_iff_nil. rewrite Hlen.
      destruct (pendingTasks tasks) as [|p l] eqn:Ep; [reflexivity|].
      assert (Hin : In p (pendingTasks tasks)) by (rewrite Ep; left; reflexivity).
      unfold pendingTasks in Hin. apply filter_In in Hin.
      destruct Hin as [Hin Hs]. rewrite (Hall p Hin) in Hs. discriminate.
  - intros r Hr. apply (in_map task) in Hr. fold (recommended tasks) in Hr.
    rewrite recommended_prioritized in Hr.
    unfold prioritized, JSArray.slice0 in Hr.
    assert (Hin : In (task r) (pendingTasks tasks)).
    { apply (Permutation_in _ (Permutation_sym (sort_perm compareTasks _))).
      rewrite <- (firstn_skipn 3 (JSArray.sort compareTasks (pendingTasks tasks))).
      apply in_or_app. left. exact Hr. }
    unfold pendingTasks in Hin. apply filter_In in Hin.
    destruct Hin as [Hin Hs]. split; [exact Hin|].
    intros E. rewrite E in Hs. discriminate.
Qed.

Lemma recommendations_are_pending_witness :
  recommendations (generateSmartTaskRecommendations
                     [done_daily 10; done_daily 15]) = [].
Proof.
  apply recommendations_are_pending.
  simpl. intros t [<-|[<-|[]]]; reflexivity.
Defined.

End InsightMoreFacts.

(* ===================================================================== *)
(** * Further properties of the streak, and the two pages *)
(* ===================================================================== *)

Module PageFacts.

Import JSArray Streak StreakFacts JSArrayFacts AIInsightsHelpers InsightSpec
       InsightFacts.

Section Days.

Variable formatDay : Z -> string.
Variable prevDay : string -> string.

Lemma walk_bounds (dates : list string) (checkDate : string) (n : Z) :
  n <= walk prevDay dates checkDate n <= n + Z.of_nat (List.length dates)
  /\ (n < walk prevDay dates checkDate n -> hd_error dates = Some checkDate).
Proof.
  revert checkDate n; induction dates as [|d dates IH]; intros c n; simpl.
  - split; lia.
  - destruct (String.eqb_spec d c) as [->|Hne].
    + destruct (IH (prevDay c) (n + 1)) as [H1 _].
      split; [lia|]. intros _. reflexivity.
    + split; lia.
Qed.

Lemma uniq_from_length (l seen : list string) :
  (List.length (uniq_from seen l) <= List.length l)%nat.
Proof.
  revert seen; induction l as [|x l IH]; intros seen; simpl; [lia|].
  destruct (existsb (String.eqb x) seen); simpl.
  - specialize (IH seen). lia.
  - specialize (IH (x :: seen)). lia.
Qed.

Lemma uniqueDates_length (tasks : list Task) :
  (List.length (uniqueDates formatDay tasks)
   <= List.length (filter (fun t => present (completed_at t)) tasks))%nat.
Proof.
  unfold uniqueDates. rewrite length_rev.
  rewrite <- (Permutation_length (sort_perm defaultCompare _)).
  unfold fromSet.
  pose proof (uniq_from_length (completedDates formatDay tasks) []) as H.
  unfold completedDates in *. rewrite length_map in H. exact H.
Qed.

(** The streak is positive only on a day with a completed task.  The
    streak is never negative and never more than the number of tasks that
    have a completion time.  If it is positive, some task was completed on
    the current day; and if some task was completed on the current day and
    no completion day is later than the current day, it is at least 1. *)
Theorem streak_today (today : string) (tasks : list Task) :
  0 <= streak formatDay prevDay today tasks
    <= Z.of_nat (List.length (filter (fun t => present (completed_at t)) tasks))
  /\ (0 < streak formatDay prevDay today tasks ->
      In today (completedDates formatDay tasks))
  /\ (In today (completedDates formatDay tasks) ->
      (forall d, In d (completedDates formatDay tasks) ->
                 d = today \/ before d today) ->
      1 <= streak formatDay prevDay today tasks).
Proof.
  unfold streak.
  destruct (walk_bounds (uniqueDates formatDay tasks) today 0) as [Hb Hhd].
  destruct (uniqueDates_canonical formatDay prevDay tasks) as [Hs He].
  pose proof (uniqueDates_length tasks) as Hl.
  split; [lia|]. split.
  - intros Hpos. specialize (Hhd Hpos). apply He.
    destruct (uniqueDates formatDay tasks) as [|d l]; [discriminate|].
    inversion Hhd; subst. left. reflexivity.
  - intros Hin Hall. apply He in Hin.
    destruct (uniqueDates formatDay tasks) as [|d l] eqn:Eu; [contradiction|].
    assert (Hd : d = today).
    { destruct (Hall d (proj1 (He d) (or_introl eq_refl))) as [E|Hbefore];
        [exact E|].
      destruct Hin as [E|Hin]; [exact E|].
      apply StronglySorted_inv in Hs. destruct Hs as [_ Hd].
      rewrite Forall_forall in Hd. specialize (Hd today Hin).
      exfalso. apply (before_irrefl d). exact (before_trans _ _ _ Hbefore Hd). }
    subst d. simpl. rewrite String.eqb_refl.
    destruct (walk_bounds l (prevDay today) 1) as [H1 _]. lia.
Qed.

(** The streak depends only on the set of days on which tasks were
    completed.  Two task lists with the same completion days have the same
    streak: a further task completed on a day already present, and tasks
    without completion time, change nothing. *)
Theorem streak_days_only (today : string) (tasks tasks' : list Task) :
  (forall d, In d (completedDates formatDay tasks)
             <-> In d (completedDates formatDay tasks')) ->
  streak formatDay prevDay today tasks = streak formatDay prevDay today tasks'.
Proof.
  intros Hsame. unfold streak.
  destruct (uniqueDates_canonical formatDay prevDay tasks) as [H1 E1].
  destruct (uniqueDates_canonical formatDay prevDay tasks') as [H2 E2].
  rewrite (strictly_descending_unique _ _ H1 H2); [reflexivity|].
  intros d. rewrite E1, E2. apply Hsame.
Qed.

(** Taking a task back from completed removes its day.  [handleToggleTask]
    keeps status and completion time in step -- the completion time is
    present exactly for the status completed -- and changes no other field;
    a task toggled to another status brings no completion day, whatever
    completion time it had. *)
Theorem handleToggleTask_days (t : Task) (newStatus : string) (now : Z)
        (tasks : list Task) :
  let t' := DashboardPage.handleToggleTask t newStatus now in
  (present (completed_at t') = true <-> status t' = "completed")
  /\ (title t', priority t', category t', due_date t', time_estimate t')
     = (title t, priority t, category t, due_date t, time_estimate t)
  /\ (newStatus = "completed" ->
      completedDates formatDay (t' :: tasks)
      = formatDay now :: completedDates formatDay tasks)
  /\ (newStatus <> "completed" ->
      completedDates formatDay (t' :: tasks) = completedDates formatDay tasks).
Proof.
  intros t'. subst t'. unfold DashboardPage.handleToggleTask, completedDates.
  simpl. destruct (String.eqb_spec newStatus "completed") as [E|E]; simpl.
  - split; [split; intros; [exact E|reflexivity]|].
    split; [reflexivity|].
    split; [intros _; reflexivity|intros H; contradiction].
  - split; [split; intros H; [discriminate|contradiction]|].
    split; [reflexivity|].
    split; [intros H; contradiction|intros _; reflexivity].
Qed.

End Days.

Lemma streak_today_witness :
  1 <= streak Calendar.formatDay Calendar.prevDay "2023-11-14"
         [Calendar.completed_days_ago 1; Calendar.completed_days_ago 0].
Proof.
  apply (streak_today Calendar.formatDay Calendar.prevDay "2023-11-14"
           [Calendar.completed_days_ago 1; Calendar.completed_days_ago 0]).
  - right. left. reflexivity.
  - intros d [<-|[<-|[]]]; [right; reflexivity|left; reflexivity].
Defined.

Lemma streak_days_only_witness :
  streak Calendar.formatDay Calendar.prevDay "2023-11-14"
    [Calendar.completed_days_ago 0; Calendar.open_task;
     Calendar.completed_days_ago 0]
  = streak Calendar.formatDay Calendar.prevDay "2023-11-14"
      [Calendar.completed_days_ago 0].
Proof.
  apply streak_days_only. intros d. simpl. tauto.
Defined.

Lemma handleToggleTask_days_witness :
  completedDates Calendar.formatDay
    (DashboardPage.handleToggleTask (Calendar.completed_days_ago 0) "todo"
       Calendar.noon_2023_11_14 :: [Calendar.completed_days_ago 1])
  = completedDates Calendar.formatDay [Calendar.completed_days_ago 1].
Proof.
  apply (handleToggleTask_days Calendar.formatDay
           (Calendar.completed_days_ago 0) "todo" Calendar.noon_2023_11_14
           [Calendar.completed_days_ago 1]).
  discriminate.
Defined.

End PageFacts.

(* ===================================================================== *)
(** * Properties of the figures of the two pages *)
(* ===================================================================== *)

Module FigureFacts.

Import AIInsightsHelpers InsightSpec InsightFacts InsightsPage.

Lemma filter_split_length {A : Type} (f : A -> bool) (l : list A) :
  (List.length (filter f l) + List.length (filter (fun x => negb (f x)) l)
   = List.length l)%nat.
Proof.
  induction l as [|x l IH]; simpl; [reflexivity|].
  destruct (f x); simpl; lia.
Qed.

Lemma filter_narrower_length {A : Type} (f g : A -> bool) (l : list A) :
  (forall x, g x = true -> f x = true) ->
  (List.length (filter g l) <= List.length (filter f l))%nat.
Proof.
  intros H. induction l as [|x l IH]; simpl; [lia|].
  destruct (g x) eqn:Eg.
  - rewrite (H x Eg). simpl. lia.
  - destruct (f x); simpl; lia.
Qed.

(** The counters of the Insights page add up.  Every task is counted
    either as completed or as pending, the high-priority pending tasks are
    among the pending ones, the tasks completed this week are among the
    completed ones, and recommendations are shown exactly when some task is
    pending. *)
Theorem task_counters (isThisWeek : Z -> bool) (tasks : list Task) :
  completedTasks tasks + pendingTasks tasks = Z.of_nat (List.length tasks)
  /\ 0 <= highPriorityPending tasks <= pendingTasks tasks
  /\ 0 <= completedThisWeek isThisWeek tasks <= completedTasks tasks
  /\ (0 < pendingTasks tasks <->
      recommendations (generateSmartTaskRecommendations tasks) <> []).
Proof.
  unfold completedTasks, pendingTasks, highPriorityPending, completedThisWeek.
  pose proof (filter_split_length is_completed tasks) as H1.
  pose proof (filter_narrower_length (fun t => negb (is_completed t))
                (fun t => negb (is_completed t) && is_high t) tasks) as H2.
  pose proof (filter_narrower_length is_completed
                (fun t => is_completed t && present (completed_at t)
                          && isThisWeek (or0 (completed_at t))) tasks) as H3.
  split; [lia|]. split.
  - split; [lia|]. apply Nat2Z.inj_le, H2.
    intros x Hx. apply andb_true_iff in Hx. tauto.
  - split.
    + split; [lia|]. apply Nat2Z.inj_le, H3.
      intros x Hx. rewrite !andb_true_iff in Hx. tauto.
    + assert (Hp : filter (fun t => negb (is_completed t)) tasks
                   = AIInsightsHelpers.pendingTasks tasks) by reflexivity.
      rewrite Hp.
      pose proof (InsightMoreFacts.recommendations_length tasks) as Hlen.
      split.
      * intros Hpos He. rewrite He in Hlen. cbn [List.length] in Hlen. lia.
      * intros Hne.
        destruct (recommendations (generateSmartTaskRecommendations tasks))
          as [|r rs]; [congruence|].
        cbn [List.length] in Hlen. lia.
Qed.

Lemma durations_between (lo hi : Z) (l : list FocusSession) (a : Z) :
  (forall s, In s l -> lo <= or0 (duration s) <= hi) ->
  a + lo * Z.of_nat (List.length l)
  <= fold_left (fun sum s => sum + or0 (duration s)) l a
  <= a + hi * Z.of_nat (List.length l).
Proof.
  revert a; induction l as [|s l IH]; intros a H; [simpl; lia|].
  cbn [List.length fold_left].
  assert (Hs := H s (or_introl eq_refl)).
  assert (Hl := IH (a + or0 (duration s)) (fun u Hu => H u (or_intror Hu))).
  lia.
Qed.

(** The average session lies within the sessions.  With no session the
    average shown is 0, nothing being divided; otherwise it is at least the
    smallest and at most the largest duration of the sessions, a missing
    duration counting as 0. *)
Theorem avgSessionDuration_within (focusSessions : list FocusSession)
        (lo hi : Z) :
  avgSessionDuration [] = 0
  /\ (focusSessions <> [] ->
      (forall s, In s focusSessions -> lo <= or0 (duration s) <= hi) ->
      lo <= avgSessionDuration focusSessions <= hi).
Proof.
  split; [reflexivity|].
  intros Hne Hb. unfold avgSessionDuration, totalFocusTime.
  pose proof (durations_between lo hi focusSessions 0 Hb) as Hsum.
  destruct focusSessions as [|s l]; [congruence|].
  change (0 <? List.length (s :: l))%nat with true. cbv iota.
  set (total := fold_left (fun sum s0 => sum + or0 (duration s0)) (s :: l) 0) in *.
  set (n := Z.of_nat (List.length (s :: l))) in *.
  assert (Hn : 0 < n) by (subst n; simpl List.length; lia).
  destruct n as [|pn|pn] eqn:En; try lia.
  rewrite Math_round_quotient.
  pose proof (nearest_bounds total (Z.pos pn) Hn) as Hr.
  set (r := (2 * total + Z.pos pn) / (2 * Z.pos pn)) in *.
  split; nia.
Qed.

Lemma avgSessionDuration_within_witness :
  25 <= avgSessionDuration [session 25 0; session 50 0; session 30 0] <= 50.
Proof.
  apply avgSessionDuration_within.
  - discriminate.
  - simpl. intros s [<-|[<-|[<-|[]]]]; simpl; lia.
Defined.

Lemma message_of_nonempty (tz : Z) (focusSessions : list FocusSession) :
  (message_of (detectProductivityPatterns tz focusSessions) =? "")%string
  = false.
Proof.
  unfold detectProductivityPatterns.
  destruct (List.length (filter completed focusSessions) <? 5)%nat;
    [reflexivity|].
  destruct (bestOf _) as [b c]. reflexivity.
Qed.

(** When the page raises its alerts.  The Burnout Alert is shown exactly
    when more than 3360 minutes were spent in sessions started within the
    last seven days, and then carries the recommendation of the analysis;
    the Productivity Pattern is shown exactly when five or more sessions
    are completed, and then carries the message of the detector, never the
    fallback text. *)
Theorem alerts_shown (isThisWeek : Z -> bool) (formatDay : Z -> string)
        (prevDay : string -> string) (now : Z) (today : string) (tz : Z)
        (tasks : list Task) (focusSessions : list FocusSession) :
  let active := activeInsights isThisWeek formatDay prevDay now today tz
                  tasks focusSessions in
  ((exists i, In i active /\ title i = "Burnout Alert")
   <-> 3360 < minutesAfter (now - week_ms) focusSessions)
  /\ (forall i, In i active -> title i = "Burnout Alert" ->
        message i = recommendation (analyzeBurnoutRisk now focusSessions tasks)
        /\ message i <> "You're maintaining a healthy work balance.")
  /\ ((exists i, In i active /\ title i = "Productivity Pattern")
      <-> (5 <= List.length (filter completed focusSessions))%nat)
  /\ (forall i, In i active -> title i = "Productivity Pattern" ->
        message i = message_of (detectProductivityPatterns tz focusSessions)).
Proof.
  intros active.
  assert (Hrisk := riskLevel_by_total now focusSessions tasks).
  rewrite totalMinutes_minutesAfter in Hrisk.
  set (total := minutesAfter (now - week_ms) focusSessions) in *.
  assert (Hshow : ((riskLevel (analyzeBurnoutRisk now focusSessions tasks)
                    =? "high")%string
                   || (riskLevel (analyzeBurnoutRisk now focusSessions tasks)
                       =? "medium")%string) = (3360 <? total)).
  { rewrite Hrisk.
    destruct (Z.ltb_spec 4200 total), (Z.ltb_spec 3360 total);
      try reflexivity; lia. }
  assert (Hpat : (pattern_of (detectProductivityPatterns tz focusSessions)
                  =? "identified")%string
                 = (5 <=? List.length (filter completed focusSessions))%nat).
  { unfold detectProductivityPatterns.
    destruct (Nat.ltb_spec (List.length (filter completed focusSessions)) 5),
             (Nat.leb_spec 5 (List.length (filter completed focusSessions)));
      try lia; [reflexivity|].
    destruct (bestOf _) as [b c]. reflexivity. }
  assert (Hin : forall i, In i active <->
                          In i (insights isThisWeek formatDay prevDay now today tz
                                  tasks focusSessions) /\ show i = true).
  { intros i. subst active. unfold activeInsights. apply filter_In. }
  split; [|split; [|split]].
  - split.
    + intros [i [Hi Ht]]. apply Hin in Hi. destruct Hi as [Hi Hs].
      unfold insights in Hi. simpl in Hi.
      destruct Hi as [<-|[<-|[<-|[<-|[<-|[<-|[]]]]]]]; simpl in Ht, Hs;
        try discriminate.
      rewrite Hshow in Hs. apply Z.ltb_lt, Hs.
    + intros Ht. eexists. split.
      * apply Hin. split; [right; left; reflexivity|]. simpl.
        rewrite Hshow. apply Z.ltb_lt, Ht.
      * reflexivity.
  - intros i Hi Ht. apply Hin in Hi. destruct Hi as [Hi Hs].
    unfold insights in Hi. simpl in Hi.
    destruct Hi as [<-|[<-|[<-|[<-|[<-|[<-|[]]]]]]]; simpl in Ht, Hs;
      try discriminate.
    split; [reflexivity|]. simpl.
    rewrite Hshow in Hs. apply Z.ltb_lt in Hs.
    unfold analyzeBurnoutRisk. rewrite hours_gt_10, hours_gt_8.
    rewrite totalMinutes_minutesAfter. fold total.
    destruct (Z.ltb_spec 4200 total); [simpl; discriminate|].
    destruct (Z.ltb_spec 3360 total); [simpl; discriminate|lia].
  - split.
    + intros [i [Hi Ht]]. apply Hin in Hi. destruct Hi as [Hi Hs].
      unfold insights in Hi. simpl in Hi.
      destruct Hi as [<-|[<-|[<-|[<-|[<-|[<-|[]]]]]]]; simpl in Ht, Hs;
        try discriminate.
      rewrite Hpat in Hs. apply Nat.leb_le, Hs.
    + intros Ht. eexists. split.
      * apply Hin. split; [right; right; right; left; reflexivity|]. simpl.
        rewrite Hpat. apply Nat.leb_le, Ht.
      * reflexivity.
  - intros i Hi Ht. apply Hin in Hi. destruct Hi as [Hi Hs].
    unfold insights in Hi. simpl in Hi.
    destruct Hi as [<-|[<-|[<-|[<-|[<-|[<-|[]]]]]]]; simpl in Ht, Hs;
      try discriminate.
    simpl. rewrite message_of_nonempty. reflexivity.
Qed.

Lemma task_counters_witness :
  0 < InsightsPage.pendingTasks
        [Calendar.completed_days_ago 1; Calendar.open_task]
  /\ recommendations
       (generateSmartTaskRecommendations
          [Calendar.completed_days_ago 1; Calendar.open_task])
     <> [].
Proof.
  destruct (task_counters never_this_week
              [Calendar.completed_days_ago 1; Calendar.open_task])
    as [_ [_ [_ [H _]]]].
  split; [reflexivity|]. apply H. reflexivity.
Defined.

Lemma alerts_shown_witness :
  exists i,
    In i (activeInsights never_this_week Calendar.formatDay Calendar.prevDay
            noon_2023_11_14 "2023-11-14" 0 []
            [session 3400 noon_2023_11_14])
    /\ title i = "Burnout Alert".
Proof.
  apply (alerts_shown never_this_week Calendar.formatDay Calendar.prevDay
           noon_2023_11_14 "2023-11-14" 0 [] [session 3400 noon_2023_11_14]).
  vm_compute. reflexivity.
Defined.

(** Today's figures of the Dashboard are parts of the totals.  The tasks
    completed today are among the completed tasks, and when no duration is
    negative the minutes of focus of today do not exceed the total focus
    time. *)
Theorem today_within_totals (isToday : Z -> bool) (tasks : list Task)
        (focusSessions : list FocusSession) :
  0 <= DashboardPage.completedToday isToday tasks <= completedTasks tasks
  /\ (Forall (fun s => 0 <= or0 (duration s)) focusSessions ->
      0 <= DashboardPage.focusMinutesToday isToday focusSessions
        <= totalFocusTime focusSessions).
Proof.
  split.
  - unfold DashboardPage.completedToday, completedTasks.
    split; [lia|]. apply Nat2Z.inj_le, filter_narrower_length.
    intros x Hx. rewrite !andb_true_iff in Hx. unfold is_completed. tauto.
  - unfold DashboardPage.focusMinutesToday, DashboardPage.todaySessions,
      totalFocusTime.
    intros Hall.
    assert (H : forall a b, a <= b ->
                  a <= fold_left (fun sum s => sum + or0 (duration s))
                         (filter (fun s => present (started_at s)
                                           && isToday (or0 (started_at s)))
                                 focusSessions) a
                    <= fold_left (fun sum s => sum + or0 (duration s))
                         focusSessions b).
    { induction Hall as [|s l Hs _ IH]; intros a b Hab; cbn [filter fold_left];
        [lia|].
      destruct (present (started_at s) && isToday (or0 (started_at s)));
        cbn [fold_left].
      - specialize (IH (a + or0 (duration s)) (b + or0 (duration s))). lia.
      - specialize (IH a (b + or0 (duration s))). lia. }
    apply H. lia.
Qed.

Lemma today_within_totals_witness :
  0 <= DashboardPage.focusMinutesToday (fun t => 0 <=? t)
         [session 25 5; session 50 (-5)]
    <= totalFocusTime [session 25 5; session 50 (-5)].
Proof.
  destruct (today_within_totals (fun t => 0 <=? t) []
              [session 25 5; session 50 (-5)]) as [_ H].
  apply H. constructor; [simpl; lia|]. constructor; [simpl; lia|]. constructor.
Defined.

End FigureFacts.

(* ===================================================================== *)
(** * Properties of safeAsync *)
(* ===================================================================== *)

Module SafeAsyncFacts.

Import SafeAsync.

Section Facts.

Variable Data : Type.
Variable Err : Type.
Variable asyncFn : nat -> @Settled Data Err.
Variable hasWindow : bool.
Variable options : @Options Data Err.

Lemma calls_app (t1 t2 : list (Event Data Err)) :
  calls (t1 ++ t2) = (calls t1 ++ calls t2)%list.
Proof. apply flat_map_app. Qed.

Lemma waits_app (t1 t2 : list (Event Data Err)) :
  waits (t1 ++ t2) = (waits t1 ++ waits t2)%list.
Proof. apply flat_map_app. Qed.

Lemma told_app (t1 t2 : list (Event Data Err)) :
  errors_told (t1 ++ t2) = (errors_told t1 ++ errors_told t2)%list.
Proof. apply flat_map_app. Qed.

(** The turn [attempt] either completes or goes to the handler. *)
Lemma loop_step (remaining attempt : nat) (lastError : option Err)
      (trace : list (Event Data Err)) :
  loop asyncFn hasWindow options (S remaining) attempt lastError trace
  = match attempt_error asyncFn options attempt with
    | None =>
        (resolved (mkResult true (attempt_data asyncFn attempt) None None),
         match onSuccess options, attempt_data asyncFn attempt with
         | Some _, Some d => (trace ++ [called attempt] ++ [told_success d])%list
         | _, _ => (trace ++ [called attempt])%list
         end)
    | Some e =>
        handler hasWindow options attempt e
          (match onSuccess options, attempt_data asyncFn attempt with
           | Some _, Some d => (trace ++ [called attempt] ++ [told_success d])%list
           | _, _ => (trace ++ [called attempt])%list
           end)
          (loop asyncFn hasWindow options remaining (S attempt))
    end.
Proof.
  unfold SafeAsync.attempt_error, SafeAsync.attempt_data. cbn [SafeAsync.loop].
  destruct (asyncFn attempt) as [d|e].
  - destruct (onSuccess options) as [f|]; [|reflexivity].
    rewrite <- app_assoc. destruct (f d); reflexivity.
  - destruct (onSuccess options); reflexivity.
Qed.

Lemma calls_turn (attempt : nat) (trace : list (Event Data Err)) :
  calls (match onSuccess options, attempt_data asyncFn attempt with
         | Some _, Some d => (trace ++ [called attempt] ++ [told_success d])%list
         | _, _ => (trace ++ [called attempt])%list
         end) = (calls trace ++ [attempt])%list
  /\ waits (match onSuccess options, attempt_data asyncFn attempt with
            | Some _, Some d => (trace ++ [called attempt] ++ [told_success d])%list
            | _, _ => (trace ++ [called attempt])%list
            end) = waits trace
  /\ errors_told (match onSuccess options, attempt_data asyncFn attempt with
                  | Some _, Some d =>
                      (trace ++ [called attempt] ++ [told_success d])%list
                  | _, _ => (trace ++ [called attempt])%list
                  end) = errors_told trace.
Proof.
  destruct (onSuccess options), (attempt_data asyncFn attempt);
    rewrite ?calls_app, ?waits_app, ?told_app; simpl;
    rewrite ?app_nil_r; repeat split; reflexivity.
Qed.

Lemma handler_retries (attempt : nat) (e : Err) (trace : list (Event Data Err))
      (next : option Err -> list (Event Data Err) ->
              Promise Data Err * list (Event Data Err)) :
  Z.of_nat attempt < retryCount options ->
  handler hasWindow options attempt e trace next
  = next (Some e)
         ((trace ++ [logged_attempt (attempt + 1) e])
            ++ [waited (retryDelay options)])%list.
Proof.
  intros H. unfold handler.
  destruct (Z.ltb_spec (Z.of_nat attempt) (retryCount options)); [reflexivity|lia].
Qed.

Lemma handler_gives_up (attempt : nat) (e : Err) (trace : list (Event Data Err))
      (next : option Err -> list (Event Data Err) ->
              Promise Data Err * list (Event Data Err)) :
  retryCount options <= Z.of_nat attempt ->
  calls (snd (handler hasWindow options attempt e trace next)) = calls trace
  /\ waits (snd (handler hasWindow options attempt e trace next)) = waits trace
  /\ (onError_returns options ->
      fst (handler hasWindow options attempt e trace next)
      = resolved (mkResult false None (Some e) (Some (errorMessage options)))
      /\ errors_told (snd (handler hasWindow options attempt e trace next))
         = (errors_told trace
              ++ match onError options with Some _ => [e] | None => [] end)%list)
  /\ (forall thrown,
        fst (handler hasWindow options attempt e trace next) = rejected thrown ->
        exists f, onError options = Some f /\ f e = Some thrown).
Proof.
  intros H. unfold handler, onError_returns.
  destruct (Z.ltb_spec (Z.of_nat attempt) (retryCount options)); [lia|].
  destruct (onError options) as [f|].
  - destruct (f e) as [thrown|] eqn:Ef; cbn [fst snd].
    + rewrite !calls_app, !waits_app. simpl. rewrite !app_nil_r.
      split; [reflexivity|]. split; [reflexivity|]. split.
      * intros Hret. rewrite Hret in Ef. discriminate.
      * intros t Ht. inversion Ht; subst. exists f. split; [reflexivity|exact Ef].
    + destruct (showNotification options && hasWindow); cbn [fst snd];
        rewrite ?calls_app, ?waits_app, ?told_app; simpl;
        rewrite ?app_nil_r;
        (split; [reflexivity|]; split; [reflexivity|]; split;
         [intros _; split; reflexivity|intros t Ht; discriminate]).
  - destruct (showNotification options && hasWindow); cbn [fst snd];
      rewrite ?calls_app, ?waits_app, ?told_app; simpl;
      rewrite ?app_nil_r;
      (split; [reflexivity|]; split; [reflexivity|]; split;
       [intros _; split; reflexivity|intros t Ht; discriminate]).
Qed.

(** The turns from [attempt] on: what is common to every run. *)
Lemma loop_budget (remaining attempt : nat) (lastError : option Err)
      (trace : list (Event Data Err)) :
  (0 < remaining)%nat ->
  Z.of_nat remaining + Z.of_nat attempt = retryCount options + 1 ->
  exists m,
    (0 < m <= remaining)%nat
    /\ calls (snd (loop asyncFn hasWindow options remaining attempt lastError trace))
       = (calls trace ++ seq attempt m)%list
    /\ waits (snd (loop asyncFn hasWindow options remaining attempt lastError trace))
       = (waits trace ++ repeat (retryDelay options) (m - 1))%list
    /\ (forall thrown,
          fst (loop asyncFn hasWindow options remaining attempt lastError trace)
          = rejected thrown ->
          exists f e, onError options = Some f /\ f e = Some thrown)
    /\ (forall r,
          fst (loop asyncFn hasWindow options remaining attempt lastError trace)
          = resolved r ->
          (success r = true /\ error r = None /\ message r = None
           /\ exists d, data r = Some d)
          \/ (success r = false /\ data r = None
              /\ message r = Some (errorMessage options)
              /\ exists e, error r = Some e)).
Proof.
  revert attempt lastError trace.
  induction remaining as [|remaining IH]; intros attempt lastError trace Hpos Hinv;
    [lia|].
  rewrite loop_step.
  destruct (calls_turn attempt trace) as [Hc [Hw _]].
  set (trace1 := match onSuccess options, attempt_data asyncFn attempt with
                 | Some _, Some d =>
                     (trace ++ [called attempt] ++ [told_success d])%list
                 | _, _ => (trace ++ [called attempt])%list
                 end) in *.
  destruct (attempt_error asyncFn options attempt) as [e|] eqn:Ee.
  - destruct (Z.lt_ge_cases (Z.of_nat attempt) (retryCount options)) as [Hlt|Hge].
    + rewrite handler_retries by exact Hlt.
      destruct (IH (S attempt) (Some e)
                   ((trace1 ++ [logged_attempt (attempt + 1) e])
                      ++ [waited (retryDelay options)])%list)
        as [m [Hm [H1 [H2 [H3 H4]]]]]; [lia|lia|].
      exists (S m). split; [lia|].
      split; [|split; [|split; [exact H3|exact H4]]].
      * rewrite H1, !calls_app, Hc. simpl.
        rewrite !app_nil_r, <- !app_assoc. reflexivity.
      * rewrite H2, !waits_app, Hw. simpl.
        rewrite !app_nil_r, <- !app_assoc. simpl.
        f_equal. destruct m as [|m']; [lia|]. simpl. rewrite Nat.sub_0_r.
        reflexivity.
    + destruct (handler_gives_up attempt e trace1
                  (loop asyncFn hasWindow options remaining (S attempt)) Hge)
        as [G1 [G2 [G3 G4]]].
      exists 1%nat. split; [lia|].
      rewrite G1, G2, Hc, Hw. simpl. rewrite app_nil_r.
      split; [reflexivity|]. split; [reflexivity|]. split.
      * intros thrown Ht. destruct (G4 thrown Ht) as [f [Hf He]].
        exists f, e. split; assumption.
      * intros r Hr. right.
        unfold handler in Hr.
        destruct (Z.ltb_spec (Z.of_nat attempt) (retryCount options)); [lia|].
        destruct (onError options) as [f|].
        -- destruct (f e); [discriminate|]. inversion Hr; subst. simpl.
           repeat split. exists e. reflexivity.
        -- inversion Hr; subst. simpl. repeat split. exists e. reflexivity.
  - exists 1%nat. split; [lia|]. simpl fst. simpl snd.
    rewrite Hc, Hw. simpl. rewrite app_nil_r.
    split; [reflexivity|]. split; [reflexivity|]. split.
    + intros thrown Ht. discriminate.
    + intros r Hr. inversion Hr; subst. left. simpl.
      repeat split.
      unfold SafeAsync.attempt_error, SafeAsync.attempt_data in *.
      destruct (asyncFn attempt) as [d|e]; [exists d; reflexivity|discriminate].
Qed.

(** The retry budget is never exceeded.  [asyncFn] is called once per turn,
    the turns being numbered from 0, and never more than [retryCount + 1]
    times (not at all for a negative [retryCount]); between two calls there
    is exactly one wait of [retryDelay]; the promise is rejected only with
    something [onError] threw; and a result is either a success with data
    and no error, or a failure with an error and the configured message
    (a failure without error when no call was made). *)
Theorem safeAsync_budget :
  exists m,
    Z.of_nat m <= Z.max 0 (retryCount options + 1)
    /\ calls (snd (safeAsync asyncFn hasWindow options)) = seq 0 m
    /\ waits (snd (safeAsync asyncFn hasWindow options))
       = repeat (retryDelay options) (m - 1)
    /\ (forall thrown,
          fst (safeAsync asyncFn hasWindow options) = rejected thrown ->
          exists f e, onError options = Some f /\ f e = Some thrown)
    /\ (forall r,
          fst (safeAsync asyncFn hasWindow options) = resolved r ->
          (success r = true /\ error r = None /\ message r = None
           /\ exists d, data r = Some d)
          \/ (success r = false /\ data r = None
              /\ message r = Some (errorMessage options)
              /\ (error r = None <-> m = 0%nat))).
Proof.
  unfold safeAsync.
  destruct (Z.to_nat (retryCount options + 1)) as [|n] eqn:En.
  - exists 0%nat. simpl. split; [lia|]. split; [reflexivity|].
    split; [reflexivity|]. split; [intros t Ht; discriminate|].
    intros r Hr. inversion Hr; subst. right. simpl. repeat split.
  - destruct (loop_budget (S n) 0 None []) as [m [Hm [H1 [H2 [H3 H4]]]]];
      [lia|lia|].
    exists m. split; [lia|]. split; [exact H1|]. split; [exact H2|].
    split; [exact H3|].
    intros r Hr. destruct (H4 r Hr) as [Hs|[Hf [Hd [Hmsg [e He]]]]];
      [left; exact Hs|].
    right. repeat split; try assumption.
    + intros Hn. rewrite He in Hn. discriminate.
    + intros Hz. lia.
Qed.

Lemma loop_first_success (k remaining attempt : nat) (lastError : option Err)
      (trace : list (Event Data Err)) :
  Z.of_nat remaining + Z.of_nat attempt = retryCount options + 1 ->
  (attempt <= k < attempt + remaining)%nat ->
  (forall j, (attempt <= j < k)%nat -> attempt_error asyncFn options j <> None) ->
  attempt_error asyncFn options k = None ->
  fst (loop asyncFn hasWindow options remaining attempt lastError trace)
  = resolved (mkResult true (attempt_data asyncFn k) None None)
  /\ calls (snd (loop asyncFn hasWindow options remaining attempt lastError trace))
     = (calls trace ++ seq attempt (k - attempt + 1))%list
  /\ waits (snd (loop asyncFn hasWindow options remaining attempt lastError trace))
     = (waits trace ++ repeat (retryDelay options) (k - attempt))%list
  /\ errors_told
       (snd (loop asyncFn hasWindow options remaining attempt lastError trace))
     = errors_told trace.
Proof.
  revert attempt lastError trace.
  induction remaining as [|remaining IH];
    intros attempt lastError trace Hinv Hk Hfail Hok; [lia|].
  rewrite loop_step.
  destruct (calls_turn attempt trace) as [Hc [Hw Ht]].
  set (trace1 := match onSuccess options, attempt_data asyncFn attempt with
                 | Some _, Some d =>
                     (trace ++ [called attempt] ++ [told_success d])%list
                 | _, _ => (trace ++ [called attempt])%list
                 end) in *.
  destruct (Nat.eq_dec attempt k) as [->|Hne].
  - rewrite Hok. simpl fst. simpl snd. rewrite Hc, Hw, Ht.
    replace (k - k + 1)%nat with 1%nat by lia.
    replace (k - k)%nat with 0%nat by lia.
    simpl. rewrite app_nil_r. repeat split; reflexivity.
  - destruct (attempt_error asyncFn options attempt) as [e|] eqn:Ee;
      [|exfalso; apply (Hfail attempt); [lia|exact Ee]].
    rewrite handler_retries by lia.
    destruct (IH (S attempt) (Some e)
                 ((trace1 ++ [logged_attempt (attempt + 1) e])
                    ++ [waited (retryDelay options)])%list)
      as [H1 [H2 [H3 H4]]]; [lia|lia| |exact Hok|].
    { intros j Hj. apply Hfail. lia. }
    rewrite H1, H2, H3, H4, !calls_app, !waits_app, !told_app, Hc, Hw, Ht.
    simpl. rewrite !app_nil_r, <- !app_assoc. simpl.
    replace (k - attempt + 1)%nat with (S (k - S attempt + 1)) by lia.
    replace (k - attempt)%nat with (S (k - S attempt)) by lia.
    simpl. repeat split; reflexivity.
Qed.

(** The first turn that completes decides.  If the turn [k] is the first
    in which [asyncFn] returns (and [onSuccess], if any, returns on its
    result), and [k] is within the retry count, the result is a success
    with the data of that turn; [asyncFn] has been called [k + 1] times,
    with [k] waits of [retryDelay], and [onError] has not been called. *)
Theorem safeAsync_first_success (k : nat) :
  Z.of_nat k <= retryCount options ->
  (forall j, (j < k)%nat -> attempt_error asyncFn options j <> None) ->
  attempt_error asyncFn options k = None ->
  fst (safeAsync asyncFn hasWindow options)
  = resolved (mkResult true (attempt_data asyncFn k) None None)
  /\ calls (snd (safeAsync asyncFn hasWindow options)) = seq 0 (k + 1)
  /\ waits (snd (safeAsync asyncFn hasWindow options))
     = repeat (retryDelay options) k
  /\ errors_told (snd (safeAsync asyncFn hasWindow options)) = [].
Proof.
  intros Hk Hfail Hok. unfold safeAsync.
  destruct (loop_first_success k (Z.to_nat (retryCount options + 1)) 0 None [])
    as [H1 [H2 [H3 H4]]]; try lia; try assumption.
  - intros j Hj. apply Hfail. lia.
  - rewrite H1, H2, H3, H4. rewrite Nat.sub_0_r. repeat split; reflexivity.
Qed.

Lemma loop_exhausted (err : nat -> Err) (remaining attempt : nat)
      (lastError : option Err) (trace : list (Event Data Err)) :
  (0 < remaining)%nat ->
  Z.of_nat remaining + Z.of_nat attempt = retryCount options + 1 ->
  (forall j, (attempt <= j < attempt + remaining)%nat ->
             attempt_error asyncFn options j = Some (err j)) ->
  onError_returns options ->
  fst (loop asyncFn hasWindow options remaining attempt lastError trace)
  = resolved (mkResult false None (Some (err (attempt + remaining - 1)%nat))
                (Some (errorMessage options)))
  /\ calls (snd (loop asyncFn hasWindow options remaining attempt lastError trace))
     = (calls trace ++ seq attempt remaining)%list
  /\ errors_told
       (snd (loop asyncFn hasWindow options remaining attempt lastError trace))
     = (errors_told trace
          ++ match onError options with
             | Some _ => [err (attempt + remaining - 1)%nat]
             | None => []
             end)%list.
Proof.
  revert attempt lastError trace.
  induction remaining as [|remaining IH];
    intros attempt lastError trace Hpos Hinv Hfail Hret; [lia|].
  rewrite loop_step.
  destruct (calls_turn attempt trace) as [Hc [Hw Ht]].
  set (trace1 := match onSuccess options, attempt_data asyncFn attempt with
                 | Some _, Some d =>
                     (trace ++ [called attempt] ++ [told_success d])%list
                 | _, _ => (trace ++ [called attempt])%list
                 end) in *.
  rewrite (Hfail attempt) by lia.
  destruct remaining as [|remaining'].
  - destruct (handler_gives_up attempt (err attempt) trace1
                (loop asyncFn hasWindow options 0 (S attempt)))
      as [G1 [_ [G3 _]]]; [lia|].
    destruct (G3 Hret) as [G4 G5].
    replace (attempt + 1 - 1)%nat with attempt by lia.
    rewrite G4, G1, G5, Hc, Ht. repeat split; reflexivity.
  - rewrite handler_retries by lia.
    destruct (IH (S attempt) (Some (err attempt))
                 ((trace1 ++ [logged_attempt (attempt + 1) (err attempt)])
                    ++ [waited (retryDelay options)])%list)
      as [H1 [H2 H3]]; [lia|lia| |exact Hret|].
    { intros j Hj. apply Hfail. lia. }
    replace (attempt + S (S remaining') - 1)%nat
      with (S attempt + S remaining' - 1)%nat by lia.
    rewrite H1, H2, H3, !calls_app, !told_app, Hc, Ht.
    simpl. rewrite !app_nil_r, <- !app_assoc. simpl.
    repeat split; reflexivity.
Qed.

(** When every turn fails.  If all the turns up to [retryCount] end in an
    error and [onError] returns, the result is a failure that carries the
    error of the last turn and the configured message; [asyncFn] has been
    called [retryCount + 1] times and [onError], if given, once, with that
    last error.  A turn whose [onSuccess] throws is a failed turn like any
    other, although [asyncFn] returned. *)
Theorem safeAsync_exhausted (err : nat -> Err) :
  0 <= retryCount options ->
  (forall j, Z.of_nat j <= retryCount options ->
             attempt_error asyncFn options j = Some (err j)) ->
  onError_returns options ->
  fst (safeAsync asyncFn hasWindow options)
  = resolved (mkResult false None
                (Some (err (Z.to_nat (retryCount options))))
                (Some (errorMessage options)))
  /\ calls (snd (safeAsync asyncFn hasWindow options))
     = seq 0 (Z.to_nat (retryCount options) + 1)
  /\ errors_told (snd (safeAsync asyncFn hasWindow options))
     = match onError options with
       | Some _ => [err (Z.to_nat (retryCount options))]
       | None => []
       end.
Proof.
  intros Hpos Hfail Hret. unfold safeAsync.
  destruct (loop_exhausted err (Z.to_nat (retryCount options + 1)) 0 None [])
    as [H1 [H2 H3]]; try lia; try assumption.
  - intros j Hj. apply Hfail. lia.
  - rewrite H1, H2, H3. simpl.
    replace (Z.to_nat (retryCount options + 1) - 1)%nat
      with (Z.to_nat (retryCount options)) by lia.
    replace (Z.to_nat (retryCount options + 1))
      with (Z.to_nat (retryCount options) + 1)%nat by lia.
    repeat split; reflexivity.
Qed.

End Facts.

Lemma safeAsync_budget_witness :
  exists m,
    Z.of_nat m <= Z.max 0 (2 + 1)
    /\ calls (snd (safeAsync (flaky 5) true
                     (mkOptions "Failed to save task" true 2 1000 None None)))
       = seq 0 m.
Proof.
  destruct (safeAsync_budget Z string (flaky 5) true
              (mkOptions "Failed to save task" true 2 1000 None None))
    as [m [H1 [H2 _]]].
  exists m. split; [exact H1|exact H2].
Defined.

Lemma safeAsync_first_success_witness :
  fst (safeAsync (flaky 2) true
         (mkOptions "Failed to save task" false 3 1000 None None))
  = resolved (mkResult true (Some 200) None None).
Proof.
  apply (safeAsync_first_success Z string (flaky 2) true
           (mkOptions "Failed to save task" false 3 1000 None None) 2%nat).
  - simpl. lia.
  - intros j Hj. destruct j as [|[|j]]; [discriminate|discriminate|lia].
  - reflexivity.
Defined.

Lemma safeAsync_exhausted_witness :
  fst (safeAsync (flaky 5) true
         (mkOptions "Failed to save task" false 1 1000
            (Some (fun _ => None)) None))
  = resolved (mkResult false None (Some "fetch failed")
                (Some "Failed to save task")).
Proof.
  apply (safeAsync_exhausted Z string (flaky 5) true
           (mkOptions "Failed to save task" false 1 1000
              (Some (fun _ => None)) None)
           (fun _ => "fetch failed")).
  - simpl. lia.
  - intros j Hj. simpl in Hj. destruct j as [|[|j]]; [reflexivity|reflexivity|lia].
  - simpl. intros e. reflexivity.
Defined.

End SafeAsyncFacts.

(* ===================================================================== *)
(** * Properties of validateData and safeCRUD *)
(* ===================================================================== *)

Module SafeCRUDFacts.

Import SafeCRUD.

Lemma ltb_false (x y : Q) : ltb x y = false <-> (y <= x)%Q.
Proof.
  unfold ltb. rewrite negb_false_iff. apply Qle_bool_iff.
Qed.

Lemma truthy_number_Some (x : option Q) (q : Q) :
  truthy_number x = Some q <-> x = Some q /\ ~ (q == 0)%Q.
Proof.
  unfold truthy_number. destruct x as [y|]; [|split; [discriminate|intros [H _]; discriminate]].
  destruct (Qeq_bool y 0) eqn:E.
  - apply Qeq_bool_iff in E. split; [discriminate|].
    intros [H Hn]. inversion H; subst. contradiction.
  - split.
    + intros H. inversion H; subst. split; [reflexivity|].
      intros Hq. apply Qeq_bool_iff in Hq. congruence.
    + intros [H _]. exact H.
Qed.

Lemma truthy_number_idem (x : option Q) :
  truthy_number (truthy_number x) = truthy_number x.
Proof.
  unfold truthy_number. destruct x as [q|]; [|reflexivity].
  destruct (Qeq_bool q 0) eqn:E; [reflexivity|]. rewrite E. reflexivity.
Qed.

Lemma truthy_string_None (x : option string) :
  truthy_string x = None <-> x = None \/ x = Some "".
Proof.
  unfold truthy_string. destruct x as [s|].
  - destruct (String.eqb_spec s "") as [->|Hne].
    + split; [right; reflexivity|reflexivity].
    + split; [discriminate|]. intros [H|H]; [discriminate|].
      inversion H; subst. contradiction.
  - split; [left; reflexivity|reflexivity].
Qed.

Lemma truthy_string_nonempty (x : option string) : truthy_string x <> Some "".
Proof.
  unfold truthy_string. destruct x as [s|]; [|discriminate].
  destruct (String.eqb_spec s ""); [discriminate|congruence].
Qed.

Lemma truthy_string_keeps (x : option string) :
  x <> Some "" -> truthy_string x = x.
Proof.
  unfold truthy_string. destruct x as [s|]; [|reflexivity].
  destruct (String.eqb_spec s "") as [->|]; [congruence|reflexivity].
Qed.

Lemma orElse_None (a b : option string) :
  orElse a b = None <-> a = None /\ b = None.
Proof.
  unfold orElse. destruct a; split; try discriminate; try tauto.
Qed.

Lemma append_nonempty (s t : string) : t <> "" -> (s ++ t)%string <> "".
Proof.
  intros Ht. destruct s; simpl; [exact Ht|discriminate].
Qed.

Section Checks.

Variable toString : Q -> string.
Variable inherited : string -> bool.

Lemma type_error_None (field ty : string) (plain : option OfflineQueue.JSValue) :
  ty <> "" ->
  type_error field ty plain = None
  <-> ((ty = "string" -> exists s, plain = Some (OfflineQueue.JStr s))
       /\ (ty = "number" -> exists x, plain = Some (OfflineQueue.JNum x))
       /\ (ty = "boolean" -> exists b, plain = Some (OfflineQueue.JBool b))
       /\ (ty = "array" -> exists items, plain = Some (OfflineQueue.JArr items))).
Proof.
  intros Hne. unfold type_error. split.
  - intros H.
    destruct plain as [[]|]; cbn in H;
      repeat split; intros ->; cbn in H; try discriminate; eauto.
  - intros [H1 [H2 [H3 H4]]].
    destruct (String.eqb_spec ty "string") as [E1|N1].
    { destruct (H1 E1) as [s ->]. subst ty. reflexivity. }
    destruct (String.eqb_spec ty "number") as [E2|N2].
    { destruct (H2 E2) as [x ->]. subst ty. reflexivity. }
    destruct (String.eqb_spec ty "boolean") as [E3|N3].
    { destruct (H3 E3) as [b ->]. subst ty. reflexivity. }
    destruct (String.eqb_spec ty "array") as [E4|N4].
    { destruct (H4 E4) as [items ->]. subst ty. reflexivity. }
    reflexivity.
Qed.

Lemma type_check_None (field : string) (rule : Rule) (value : Property) :
  type_check field rule value = None
  <-> (forall ty, type rule = Some ty -> nullish value = false ->
         (ty = "string" -> exists s, value = own (OfflineQueue.JStr s))
         /\ (ty = "number" -> exists x, value = own (OfflineQueue.JNum x))
         /\ (ty = "boolean" -> exists b, value = own (OfflineQueue.JBool b))
         /\ (ty = "array" ->
             exists items, value = own (OfflineQueue.JArr items))).
Proof.
  unfold type_check.
  destruct (type rule) as [ty|];
    [|split; [intros _ ty H; discriminate|reflexivity]].
  unfold truthy_string.
  destruct (String.eqb_spec ty "") as [->|Hne].
  - split; [|reflexivity]. intros _ ty Hty _. inversion Hty; subst.
    repeat split; discriminate.
  - assert (G : forall plain,
               type_error field ty plain = None
               <-> ((ty = "string" -> exists s, plain = Some (OfflineQueue.JStr s))
                    /\ (ty = "number" -> exists x, plain = Some (OfflineQueue.JNum x))
                    /\ (ty = "boolean" -> exists b, plain = Some (OfflineQueue.JBool b))
                    /\ (ty = "array" ->
                        exists items, plain = Some (OfflineQueue.JArr items))))
      by (intros plain; apply type_error_None, Hne).
    destruct value as [|v|name].
    + split; [|reflexivity]. intros _ ty' _ Hn. discriminate.
    + destruct v;
        try (rewrite G; split;
             [intros [H1 [H2 [H3 H4]]] ty' Hty _; inversion Hty; subst ty';
              repeat split; intros E;
              [destruct (H1 E) as [? ?]|destruct (H2 E) as [? ?]
              |destruct (H3 E) as [? ?]|destruct (H4 E) as [? ?]];
              try discriminate; eauto
             |intros H; destruct (H ty eq_refl eq_refl) as [H1 [H2 [H3 H4]]];
              repeat split; intros E;
              [destruct (H1 E) as [? ?]|destruct (H2 E) as [? ?]
              |destruct (H3 E) as [? ?]|destruct (H4 E) as [? ?]];
              try discriminate; eauto]).
      split; [|reflexivity]. intros _ ty' _ Hn. discriminate.
    + rewrite G. split.
      * intros [H1 [H2 [H3 H4]]] ty' Hty _. inversion Hty; subst ty'.
        repeat split; intros E;
          [destruct (H1 E) as [? ?]|destruct (H2 E) as [? ?]
          |destruct (H3 E) as [? ?]|destruct (H4 E) as [? ?]]; discriminate.
      * intros H. destruct (H ty eq_refl eq_refl) as [H1 [H2 [H3 H4]]].
        repeat split; intros E;
          [destruct (H1 E) as [? ?]|destruct (H2 E) as [? ?]
          |destruct (H3 E) as [? ?]|destruct (H4 E) as [? ?]]; discriminate.
Qed.

Lemma length_check_None (field : string) (rule : Rule) (value : Property) :
  length_check toString field rule value = None
  <-> (forall s, value = own (OfflineQueue.JStr s) ->
         (forall n, minLength rule = Some n -> ~ n == 0 ->
                    n <= inject_Z (Z.of_nat (String.length s)))
         /\ (forall m, maxLength rule = Some m -> ~ m == 0 ->
                       inject_Z (Z.of_nat (String.length s)) <= m))%Q.
Proof.
  unfold length_check.
  destruct value as [|v|name];
    try (split; [intros _ s H; discriminate|reflexivity]).
  destruct v; try (split; [intros _ s' H; discriminate|reflexivity]).
  cbv zeta. rewrite orElse_None. split.
  - intros [Hmin Hmax] s' Hs. inversion Hs; subst s'. split.
    + intros n Hn Hz.
      assert (T : truthy_number (minLength rule) = Some n)
        by (apply truthy_number_Some; split; assumption).
      rewrite T in Hmin.
      destruct (ltb _ n) eqn:E; [discriminate|]. apply ltb_false. exact E.
    + intros m Hm Hz.
      assert (T : truthy_number (maxLength rule) = Some m)
        by (apply truthy_number_Some; split; assumption).
      rewrite T in Hmax.
      destruct (ltb m _) eqn:E; [discriminate|]. apply ltb_false. exact E.
  - intros H. destruct (H s eq_refl) as [Hmin Hmax]. split.
    + destruct (truthy_number (minLength rule)) as [n|] eqn:T; [|reflexivity].
      apply truthy_number_Some in T. destruct T as [Hn Hz].
      specialize (Hmin n Hn Hz). apply ltb_false in Hmin.
      rewrite Hmin. reflexivity.
    + destruct (truthy_number (maxLength rule)) as [m|] eqn:T; [|reflexivity].
      apply truthy_number_Some in T. destruct T as [Hm Hz].
      specialize (Hmax m Hm Hz). apply ltb_false in Hmax.
      rewrite Hmax. reflexivity.
Qed.

Lemma range_check_None (field : string) (rule : Rule) (value : Property) :
  range_check toString field rule value = None
  <-> (forall x, value = own (OfflineQueue.JNum x) ->
         (forall n, min rule = Some n -> n <= x)
         /\ (forall m, max rule = Some m -> x <= m))%Q.
Proof.
  unfold range_check.
  destruct value as [|v|name];
    try (split; [intros _ s H; discriminate|reflexivity]).
  destruct v; try (split; [intros _ s' H; discriminate|reflexivity]).
  rewrite orElse_None. split.
  - intros [Hmin Hmax] x Hx. inversion Hx; subst x. split.
    + intros n Hn. rewrite Hn in Hmin.
      destruct (ltb q n) eqn:E; [discriminate|]. apply ltb_false. exact E.
    + intros m Hm. rewrite Hm in Hmax.
      destruct (ltb m q) eqn:E; [discriminate|]. apply ltb_false. exact E.
  - intros H. destruct (H q eq_refl) as [Hmin Hmax]. split.
    + destruct (min rule) as [n|]; [|reflexivity].
      specialize (Hmin n eq_refl). apply ltb_false in Hmin.
      rewrite Hmin. reflexivity.
    + destruct (max rule) as [m|]; [|reflexivity].
      specialize (Hmax m eq_refl). apply ltb_false in Hmax.
      rewrite Hmax. reflexivity.
Qed.

Lemma builtin_check_None (field : string) (rule : Rule) (value : Property) :
  builtin_check toString field rule value = None
  <-> (required rule = true -> blank value = false)
      /\ type_check field rule value = None
      /\ length_check toString field rule value = None
      /\ range_check toString field rule value = None.
Proof.
  unfold builtin_check.
  destruct (required rule); simpl.
  - destruct (blank value).
    + split; [discriminate|]. intros [H _]. specialize (H eq_refl). discriminate.
    + rewrite !orElse_None. tauto.
  - rewrite !orElse_None. split; [|tauto]. intros H.
    split; [discriminate|tauto].
Qed.

Lemma builtin_check_nonempty (field : string) (rule : Rule) (value : Property) :
  builtin_check toString field rule value <> Some "".
Proof.
  assert (A : forall t, t <> "" -> Some (field ++ t)%string <> Some "").
  { intros t Ht H. inversion H as [H']. revert H'. apply append_nonempty, Ht. }
  unfold builtin_check, orElse.
  destruct (required rule && blank value); [apply A; discriminate|].
  destruct (type_check field rule value) as [m|] eqn:E1.
  { rewrite <- E1. unfold type_check.
    destruct (truthy_string (type rule)) as [ty|]; [|discriminate].
    assert (G : forall plain, type_error field ty plain <> Some "").
    { intros plain. unfold type_error.
      repeat match goal with
             | |- (if ?c then _ else _) <> _ => destruct c
             end; try discriminate; apply A; discriminate. }
    destruct value as [|[]|]; try discriminate; apply G. }
  destruct (length_check toString field rule value) as [m|] eqn:E2.
  { rewrite <- E2. unfold length_check, orElse.
    destruct value as [|[]|]; try discriminate. cbv zeta.
    destruct (truthy_number (minLength rule)); [destruct (ltb _ _)|];
      try (apply A; discriminate);
      (destruct (truthy_number (maxLength rule)); [destruct (ltb _ _)|];
       try discriminate; apply A; discriminate). }
  unfold range_check, orElse.
  destruct value as [|[]|]; try discriminate.
  destruct (min rule); [destruct (ltb _ _)|];
    try (apply A; discriminate);
    (destruct (max rule); [destruct (ltb _ _)|];
     try discriminate; apply A; discriminate).
Qed.

Lemma custom_check_None (rule : Rule) (value : Property) :
  custom_check rule value = SafeAsync.returns None
  <-> (forall f, validate rule = Some f ->
                 f value = SafeAsync.returns None
                 \/ f value = SafeAsync.returns (Some "")).
Proof.
  unfold custom_check. destruct (validate rule) as [f|].
  - destruct (f value) as [answer|e] eqn:Ef.
    + split.
      * intros H f' Hf. inversion Hf; subst f'. rewrite Ef.
        inversion H as [H']. apply truthy_string_None in H'.
        destruct H' as [->| ->]; [left|right]; reflexivity.
      * intros H. f_equal. apply truthy_string_None.
        destruct (H f eq_refl) as [H'|H']; rewrite Ef in H';
          inversion H'; auto.
    + split; [discriminate|].
      intros H. destruct (H f eq_refl) as [H'|H']; rewrite Ef in H';
        discriminate.
  - split; [intros _ f Hf; discriminate|reflexivity].
Qed.

Lemma custom_check_nonempty (rule : Rule) (value : Property) :
  custom_check rule value <> SafeAsync.returns (Some "").
Proof.
  unfold custom_check. destruct (validate rule) as [f|]; [|discriminate].
  destruct (f value) as [answer|e]; [|discriminate].
  intros H. inversion H as [H']. revert H'. apply truthy_string_nonempty.
Qed.

(** An entry lets a value through exactly when the value is accepted. *)
Lemma check_accepted (field : string) (rule : Rule) (value : Property) :
  check toString field rule value = SafeAsync.returns None
  <-> accepted rule value.
Proof.
  unfold check, accepted.
  rewrite <- type_check_None with (field := field).
  rewrite <- length_check_None with (field := field).
  rewrite <- range_check_None with (field := field).
  rewrite <- custom_check_None.
  pose proof (builtin_check_None field rule value) as B.
  destruct (builtin_check toString field rule value) as [m|].
  - split; [discriminate|]. intros [H1 [H2 [H3 [H4 _]]]].
    assert (C : Some m = None) by (apply B; tauto). discriminate.
  - destruct B as [B _]. specialize (B eq_refl). tauto.
Qed.

Lemma check_nonempty (field : string) (rule : Rule) (value : Property) :
  check toString field rule value <> SafeAsync.returns (Some "").
Proof.
  unfold check.
  destruct (builtin_check toString field rule value) as [m|] eqn:E.
  - intros H. inversion H; subst. revert E. apply builtin_check_nonempty.
  - apply custom_check_nonempty.
Qed.

(** When an entry throws, it is its validator that does, on a value that
    has passed the tests before it. *)
Lemma check_throws (field : string) (rule : Rule) (value : Property)
      (e : Error) :
  check toString field rule value = SafeAsync.throws e
  <-> builtin_check toString field rule value = None
      /\ exists f, validate rule = Some f /\ f value = SafeAsync.throws e.
Proof.
  unfold check, custom_check.
  destruct (builtin_check toString field rule value) as [m|].
  - split; [discriminate|]. intros [H _]. discriminate.
  - destruct (validate rule) as [f|].
    + destruct (f value) as [answer|e'] eqn:Ef.
      * split; [discriminate|]. intros [_ [f' [Hf He]]].
        inversion Hf; subst f'. congruence.
      * split.
        -- intros H. inversion H; subst. split; [reflexivity|].
           exists f. split; [reflexivity|exact Ef].
        -- intros [_ [f' [Hf He]]]. inversion Hf; subst f'. congruence.
    + split; [discriminate|]. intros [_ [f [Hf _]]]. discriminate.
Qed.

Lemma validateData_app (fields : Fields) (before after : list (string * Rule)) :
  validateData toString inherited fields (before ++ after)
  = match validateData toString inherited fields before with
    | SafeAsync.returns None => validateData toString inherited fields after
    | outcome => outcome
    end.
Proof.
  induction before as [|[field rule] before IH]; [reflexivity|].
  simpl. destruct (check toString field rule (get inherited fields field))
    as [[m|]|e]; [reflexivity|exact IH|reflexivity].
Qed.

Lemma validateData_None (fields : Fields) (rs : list (string * Rule)) :
  validateData toString inherited fields rs = SafeAsync.returns None
  <-> (forall field rule, In (field, rule) rs ->
                          accepted rule (get inherited fields field)).
Proof.
  induction rs as [|[field rule] rs IH]; simpl.
  - split; [intros _ f r []|reflexivity].
  - destruct (check toString field rule (get inherited fields field))
      as [[m|]|e] eqn:E.
    + split; [discriminate|]. intros H.
      assert (A : accepted rule (get inherited fields field))
        by (apply H; left; reflexivity).
      apply (check_accepted field) in A. congruence.
    + rewrite IH. split.
      * intros H f r [Heq|Hin]; [|apply H; exact Hin].
        inversion Heq; subst. apply (check_accepted f). exact E.
      * intros H f r Hin. apply H. right. exact Hin.
    + split; [discriminate|]. intros H.
      assert (A : accepted rule (get inherited fields field))
        by (apply H; left; reflexivity).
      apply (check_accepted field) in A. congruence.
Qed.

Lemma validateData_nonempty (fields : Fields) (rs : list (string * Rule)) :
  validateData toString inherited fields rs <> SafeAsync.returns (Some "").
Proof.
  induction rs as [|[field rule] rs IH]; simpl; [discriminate|].
  destruct (check toString field rule (get inherited fields field))
    as [[m|]|e] eqn:E; [|exact IH|discriminate].
  rewrite <- E. apply check_nonempty.
Qed.

(** The outcome at the first entry that does not accept its value. *)
Lemma validateData_at_first_failure
      (fields : Fields) (before after : list (string * Rule))
      (field : string) (rule : Rule) :
  (forall f r, In (f, r) before -> accepted r (get inherited fields f)) ->
  ~ accepted rule (get inherited fields field) ->
  validateData toString inherited fields (before ++ (field, rule) :: after)
  = check toString field rule (get inherited fields field)
  /\ check toString field rule (get inherited fields field)
     <> SafeAsync.returns None
  /\ check toString field rule (get inherited fields field)
     <> SafeAsync.returns (Some "").
Proof.
  intros Hbefore Hrule.
  assert (Hc : check toString field rule (get inherited fields field)
               <> SafeAsync.returns None).
  { intros H. apply Hrule. apply (check_accepted field). exact H. }
  split; [|split; [exact Hc|apply check_nonempty]].
  rewrite validateData_app.
  apply validateData_None in Hbefore. rewrite Hbefore.
  simpl.
  destruct (check toString field rule (get inherited fields field))
    as [[m|]|e]; [reflexivity|congruence|reflexivity].
Qed.

(** If the rules do not all accept, some entry is the first that does
    not. *)
Lemma first_not_accepted (fields : Fields) (rs : list (string * Rule)) :
  validateData toString inherited fields rs <> SafeAsync.returns None ->
  exists before field rule after,
    rs = (before ++ (field, rule) :: after)%list
    /\ (forall f r, In (f, r) before -> accepted r (get inherited fields f))
    /\ ~ accepted rule (get inherited fields field).
Proof.
  induction rs as [|[field rule] rs IH]; simpl; intros H; [congruence|].
  destruct (check toString field rule (get inherited fields field))
    as [[m|]|e] eqn:E.
  - exists [], field, rule, rs. split; [reflexivity|].
    split; [intros f r []|].
    intros A. apply (check_accepted field) in A. congruence.
  - destruct (IH H) as [before [f0 [r0 [after [Hrs [Hb Hn]]]]]].
    exists ((field, rule) :: before), f0, r0, after.
    split; [rewrite Hrs; reflexivity|]. split; [|exact Hn].
    intros f r [Heq|Hin]; [|apply Hb; exact Hin].
    inversion Heq; subst. apply (check_accepted f). exact E.
  - exists [], field, rule, rs. split; [reflexivity|].
    split; [intros f r []|].
    intros A. apply (check_accepted field) in A. congruence.
Qed.

Lemma validationError_None (input : option Fields) (validation : Validation) :
  validationError toString inherited input validation = SafeAsync.returns None
  <-> valid inherited input validation.
Proof.
  unfold validationError, valid.
  destruct input as [fields|]; [|split; [intros _ f r H; discriminate|reflexivity]].
  destruct (rules validation) as [rs|];
    [|split; [intros _ f r _ H; discriminate|reflexivity]].
  pose proof (validateData_nonempty fields rs) as Hne.
  pose proof (validateData_None fields rs) as Hn.
  destruct (validateData toString inherited fields rs) as [answer|e].
  - split.
    + intros H f r Hf Hr. inversion Hf; subst. inversion Hr; subst.
      apply Hn. f_equal.
      assert (H' : truthy_string answer = None) by congruence.
      apply truthy_string_None in H'. destruct H' as [H'|H']; [exact H'|].
      subst. congruence.
    + intros H. specialize (H fields rs eq_refl eq_refl).
      apply Hn in H. inversion H. reflexivity.
  - split; [discriminate|]. intros H.
    specialize (H fields rs eq_refl eq_refl). apply Hn in H. discriminate.
Qed.

(** The outcome of the validation when [(field, rule)] is the first entry
    that does not accept its value. *)
Lemma validationError_first_failure
      (input : option Fields) (validation : Validation)
      (field : string) (rule : Rule) (value : Property) :
  first_failure inherited input validation field rule value ->
  validationError toString inherited input validation
  = check toString field rule value
  /\ check toString field rule value <> SafeAsync.returns None
  /\ check toString field rule value <> SafeAsync.returns (Some "").
Proof.
  intros [fields [before [after [Hi [Hr [Hb [Hv Hn]]]]]]]. subst value.
  destruct (validateData_at_first_failure fields before after field rule Hb Hn)
    as [H1 [H2 H3]].
  split; [|split; assumption].
  unfold validationError. rewrite Hi, Hr, H1.
  destruct (check toString field rule (get inherited fields field))
    as [answer|e]; [|reflexivity].
  f_equal. apply truthy_string_keeps. congruence.
Qed.

(** An input is valid, or some entry is the first that does not accept
    its value. *)
Lemma valid_or_first_failure (input : option Fields) (validation : Validation) :
  valid inherited input validation
  \/ exists field rule value,
       first_failure inherited input validation field rule value.
Proof.
  destruct input as [fields|];
    [|left; intros f r H; discriminate].
  destruct (rules validation) as [rs|] eqn:Er;
    [|left; intros f r _ H; rewrite Er in H; discriminate].
  destruct (validateData toString inherited fields rs) as [[m|]|e] eqn:Ev.
  - right.
    destruct (first_not_accepted fields rs) as [before [f0 [r0 [after [H1 [H2 H3]]]]]];
      [congruence|].
    exists f0, r0, (get inherited fields f0), fields, before, after.
    rewrite Er, H1.
    split; [reflexivity|]. split; [reflexivity|]. split; [exact H2|].
    split; [reflexivity|exact H3].
  - left. intros f r Hf Hr. inversion Hf; subst. rewrite Er in Hr.
    inversion Hr; subst. apply validateData_None. exact Ev.
  - right.
    destruct (first_not_accepted fields rs) as [before [f0 [r0 [after [H1 [H2 H3]]]]]];
      [congruence|].
    exists f0, r0, (get inherited fields f0), fields, before, after.
    rewrite Er, H1.
    split; [reflexivity|]. split; [reflexivity|]. split; [exact H2|].
    split; [reflexivity|exact H3].
Qed.

(** The answer of [validateData] is [null] exactly when every entry of the
    rules accepts the value that [data[field]] gives for its field, own or
    inherited: a required field is neither missing, [null] nor the empty
    string; a value that is there and not [null] has the type the entry
    names; a string respects the length bounds that are not zero, a zero
    bound being no bound at all; a number respects [min] and [max], zero
    included; and the custom validator, given the value even when the
    field is missing, returns nothing or the empty string.  The length
    bounds do not apply to values that are not strings, nor [min] and
    [max] to values that are not numbers. *)
Theorem validateData_accepts (fields : Fields) (rs : list (string * Rule)) :
  validateData toString inherited fields rs = SafeAsync.returns None
  <-> (forall field rule, In (field, rule) rs ->
                          accepted rule (get inherited fields field)).
Proof.
  apply validateData_None.
Qed.

(** The outcome of [validateData] is the one of the first entry, in the
    order of [Object.entries], whose value is not accepted: the error
    message of that entry, which is never the empty string, or what its
    validator threw, the tests before the validator having found nothing.
    The entries after it play no part. *)
Theorem validateData_first_failure
        (fields : Fields) (before after : list (string * Rule))
        (field : string) (rule : Rule) :
  (forall f r, In (f, r) before -> accepted r (get inherited fields f)) ->
  ~ accepted rule (get inherited fields field) ->
  validateData toString inherited fields (before ++ (field, rule) :: after)
  = check toString field rule (get inherited fields field)
  /\ ((exists m,
         m <> ""
         /\ check toString field rule (get inherited fields field)
            = SafeAsync.returns (Some m))
      \/ (exists e f,
            builtin_check toString field rule (get inherited fields field)
            = None
            /\ validate rule = Some f
            /\ f (get inherited fields field) = SafeAsync.throws e
            /\ check toString field rule (get inherited fields field)
               = SafeAsync.throws e)).
Proof.
  intros Hbefore Hrule.
  destruct (validateData_at_first_failure fields before after field rule
              Hbefore Hrule) as [H1 [H2 H3]].
  split; [exact H1|].
  destruct (check toString field rule (get inherited fields field))
    as [[m|]|e] eqn:E.
  - left. exists m. split; [congruence|reflexivity].
  - congruence.
  - right. apply check_throws in E. destruct E as [Hb [f [Hf He]]].
    exists e, f. repeat split; assumption.
Qed.

(** A length bound of zero is not enforced: with [maxLength: 0] or
    [minLength: 0] the answer is the one the rules give without them. *)
Theorem validateData_zero_length_bounds
        (fields : Fields) (rs : list (string * Rule)) :
  validateData toString inherited fields
    (map (fun entry => (fst entry, without_zero_lengths (snd entry))) rs)
  = validateData toString inherited fields rs.
Proof.
  induction rs as [|[field rule] rs IH]; [reflexivity|].
  cbn [map fst snd validateData]. rewrite IH.
  replace (check toString field (without_zero_lengths rule)
             (get inherited fields field))
    with (check toString field rule (get inherited fields field));
    [reflexivity|].
  unfold check, builtin_check, type_check, length_check, range_check,
    custom_check, without_zero_lengths.
  cbn [required type minLength maxLength min max validate].
  rewrite !truthy_number_idem. reflexivity.
Qed.

Section CRUD.

Variable Data : Type.
Variable operation : option Fields -> @SafeAsync.Settled Data Error.

Lemma classify_flags (validation : Validation) (e : Error) :
  success (@classify Data validation e) = false
  /\ data (@classify Data validation e) = None
  /\ error (@classify Data validation e) = Some e
  /\ isNetworkError (@classify Data validation e)
     = (mentions e "network" || mentions e "fetch")
  /\ isAuthError (@classify Data validation e)
     = negb (mentions e "network" || mentions e "fetch")
       && (mentions e "unauthorized" || status_is e 401).
Proof.
  unfold classify.
  destruct (mentions e "network" || mentions e "fetch");
    [repeat split|].
  destruct (mentions e "unauthorized" || status_is e 401); repeat split.
Qed.

(** What reaches the [catch] block is classified there. *)
Lemma safeCRUD_thrown (input : option Fields) (validation : Validation)
      (e : Error) :
  thrown_in_try toString inherited operation input validation e ->
  fst (safeCRUD toString inherited operation input validation)
  = classify validation e.
Proof.
  unfold safeCRUD. intros [[Hv Ho]|[field [rule [value [Hf Hc]]]]].
  - apply validationError_None in Hv. rewrite Hv, Ho. reflexivity.
  - destruct (validationError_first_failure input validation field rule value Hf)
      as [H1 _].
    rewrite H1, Hc. reflexivity.
Qed.

(** The operation is guarded by the validation.  On a valid input -- no
    data, no rules, or data that every entry of the rules accepts -- the
    operation is called once, on the data, [null] included; if it
    returns, the result is a success with what it returned, and if it
    throws, the failure the [catch] block makes of what it threw.
    Otherwise some entry is the first that does not accept its value, and
    the operation is not called: if that entry gives an error message, the
    result is a failure whose message and error carry it, with neither
    flag; if its validator throws, the result is the failure the [catch]
    block makes of what it threw. *)
Theorem safeCRUD_guards_operation
        (input : option Fields) (validation : Validation) :
  (valid inherited input validation
   \/ exists field rule value,
        first_failure inherited input validation field rule value)
  /\ (valid inherited input validation ->
      calls (snd (safeCRUD toString inherited operation input validation))
      = [input]
      /\ (forall d, operation input = SafeAsync.returns d ->
            fst (safeCRUD toString inherited operation input validation)
            = mkResult true (Some d) None None false false)
      /\ (forall e, operation input = SafeAsync.throws e ->
            fst (safeCRUD toString inherited operation input validation)
            = classify validation e))
  /\ (forall field rule value,
        first_failure inherited input validation field rule value ->
        calls (snd (safeCRUD toString inherited operation input validation))
        = []
        /\ (forall m,
              check toString field rule value = SafeAsync.returns (Some m) ->
              m <> ""
              /\ fst (safeCRUD toString inherited operation input validation)
                 = mkResult false None (Some (mkError (Some m) None))
                     (Some m) false false)
        /\ (forall e,
              check toString field rule value = SafeAsync.throws e ->
              fst (safeCRUD toString inherited operation input validation)
              = classify validation e)
        /\ check toString field rule value <> SafeAsync.returns None).
Proof.
  split; [apply valid_or_first_failure|]. split.
  - intros Hv. unfold safeCRUD.
    apply validationError_None in Hv. rewrite Hv.
    destruct (operation input) as [d|e]; simpl.
    + split; [reflexivity|]. split.
      * intros d' Hd. inversion Hd; subst. reflexivity.
      * intros e He. discriminate.
    + split; [reflexivity|]. split.
      * intros d Hd. discriminate.
      * intros e' He. inversion He; subst. reflexivity.
  - intros field rule value Hf.
    destruct (validationError_first_failure input validation field rule value Hf)
      as [H1 [H2 H3]].
    unfold safeCRUD. rewrite H1.
    destruct (check toString field rule value) as [[m|]|e]; [| |].
    + split; [reflexivity|]. split; [|split; [|exact H2]].
      * intros m' Hm. inversion Hm; subst m'.
        split; [congruence|reflexivity].
      * intros e He. discriminate.
    + congruence.
    + split; [reflexivity|]. split; [|split; [|exact H2]].
      * intros m Hm. discriminate.
      * intros e' He. inversion He; subst. reflexivity.
Qed.

(** The two flags of a failure.  At most one is set, and only for
    something thrown inside the [try] block, by the operation or by a
    validator, the result carrying that error.  For whatever is thrown
    there, a message that mentions "network" or "fetch" makes it a network
    error, whatever else the error says: an error with status 401, or a
    message that mentions "unauthorized", is an authentication error only
    when it is not a network error. *)
Theorem safeCRUD_flags (input : option Fields) (validation : Validation) :
  (isNetworkError (fst (safeCRUD toString inherited operation input validation))
   && isAuthError (fst (safeCRUD toString inherited operation input validation))
   = false)
  /\ (isNetworkError
        (fst (safeCRUD toString inherited operation input validation))
      || isAuthError
           (fst (safeCRUD toString inherited operation input validation))
      = true ->
      exists e,
        thrown_in_try toString inherited operation input validation e
        /\ error (fst (safeCRUD toString inherited operation input validation))
           = Some e)
  /\ (forall e,
        thrown_in_try toString inherited operation input validation e ->
        error (fst (safeCRUD toString inherited operation input validation))
        = Some e
        /\ isNetworkError
             (fst (safeCRUD toString inherited operation input validation))
           = (mentions e "network" || mentions e "fetch")
        /\ isAuthError
             (fst (safeCRUD toString inherited operation input validation))
           = negb (mentions e "network" || mentions e "fetch")
             && (mentions e "unauthorized" || status_is e 401)).
Proof.
  split; [|split].
  - unfold safeCRUD.
    destruct (validationError toString inherited input validation)
      as [[m|]|e]; [reflexivity| |].
    + destruct (operation input) as [d|e]; [reflexivity|].
      cbn [fst]. destruct (classify_flags validation e) as [_ [_ [_ [H4 H5]]]].
      rewrite H4, H5.
      destruct (mentions e "network" || mentions e "fetch"); reflexivity.
    + cbn [fst]. destruct (classify_flags validation e) as [_ [_ [_ [H4 H5]]]].
      rewrite H4, H5.
      destruct (mentions e "network" || mentions e "fetch"); reflexivity.
  - intros Hflag.
    destruct (valid_or_first_failure input validation)
      as [Hv|[field [rule [value Hf]]]].
    + pose proof Hv as Hv0. apply validationError_None in Hv.
      unfold safeCRUD in *. rewrite Hv in *.
      destruct (operation input) as [d|e] eqn:Eo; [discriminate|].
      exists e. split; [left; split; assumption|].
      apply classify_flags.
    + destruct (validationError_first_failure input validation field rule value Hf)
        as [H1 [H2 H3]].
      unfold safeCRUD in *. rewrite H1 in *.
      destruct (check toString field rule value) as [[m|]|e] eqn:Ec;
        [discriminate|congruence|].
      exists e. split; [|apply classify_flags].
      right. exists field, rule, value. split; assumption.
  - intros e He. rewrite (safeCRUD_thrown input validation e He).
    destruct (classify_flags validation e) as [_ [_ [H3 [H4 H5]]]].
    repeat split; assumption.
Qed.

End CRUD.

End Checks.

(** A required field whose name every object inherits is there for any
    data: with the rules [{constructor: {required: true}}] and the data
    [{title: "x"}] the answer is [null]. *)
Lemma validateData_inherited_name :
  validateData show_integer JSObject.standard_prototype
    [("title", OfflineQueue.JStr "x")] [("constructor", constructor_rule)]
  = SafeAsync.returns None.
Proof. reflexivity. Qed.

Lemma validateData_first_failure_witness :
  validateData show_integer JSObject.standard_prototype
    [("title", OfflineQueue.JStr "Write report");
     ("time_estimate", OfflineQueue.JNum 600%Q)]
    ([("title", title_rule)] ++ ("time_estimate", estimate_rule) :: [])
  = SafeAsync.returns (Some "time_estimate must be no more than 480").
Proof.
  destruct (validateData_first_failure show_integer
              JSObject.standard_prototype
              [("title", OfflineQueue.JStr "Write report");
               ("time_estimate", OfflineQueue.JNum 600%Q)]
              [("title", title_rule)] [] "time_estimate" estimate_rule)
    as [H _].
  - intros f r [H|[]]. inversion H; subst.
    apply (check_accepted show_integer JSObject.standard_prototype "title"). reflexivity.
  - intros H. apply (check_accepted show_integer JSObject.standard_prototype "time_estimate") in H.
    discriminate.
  - rewrite H. reflexivity.
Defined.

Lemma safeCRUD_guards_operation_witness :
  calls (snd (safeCRUD show_integer JSObject.standard_prototype saves
                (Some task_fields) (mkValidation (Some task_rules) None)))
  = [Some task_fields].
Proof.
  destruct (safeCRUD_guards_operation show_integer
              JSObject.standard_prototype Z saves (Some task_fields)
              (mkValidation (Some task_rules) None)) as [_ [H _]].
  apply H.
  intros fields rs Hf Hr field rule Hin.
  inversion Hf; subst. inversion Hr; subst.
  apply (validateData_None show_integer JSObject.standard_prototype
           task_fields task_rules);
    [reflexivity|exact Hin].
Defined.

Lemma safeCRUD_flags_witness :
  isNetworkError
    (fst (safeCRUD show_integer JSObject.standard_prototype saves
            (Some task_fields)
            (mkValidation (Some [("title", remote_rule)]) None)))
  = true
  /\ calls (snd (safeCRUD show_integer JSObject.standard_prototype saves
                   (Some task_fields)
                   (mkValidation (Some [("title", remote_rule)]) None)))
     = [].
Proof.
  destruct (safeCRUD_flags show_integer JSObject.standard_prototype Z saves
              (Some task_fields)
              (mkValidation (Some [("title", remote_rule)]) None))
    as [_ [_ H]].
  destruct (H lookup_failed) as [_ [Hn _]].
  - right. exists "title", remote_rule,
      (get JSObject.standard_prototype task_fields "title").
    split; [|reflexivity].
    exists task_fields, [], [].
    split; [reflexivity|]. split; [reflexivity|].
    split; [intros f r []|]. split; [reflexivity|].
    intros A.
    apply (check_accepted show_integer JSObject.standard_prototype "title") in A. discriminate.
  - split; [rewrite Hn; reflexivity|reflexivity].
Defined.

End SafeCRUDFacts.

(* ===================================================================== *)
(** * Properties of safeBatchOperation *)
(* ===================================================================== *)

Module SafeBatchFacts.

Import SafeBatch.

Lemma firstn_add {A : Type} (a b : nat) (l : list A) :
  firstn (a + b) l = (firstn a l ++ firstn b (skipn a l))%list.
Proof.
  revert l. induction a as [|a IH]; intros l; [reflexivity|].
  destruct l as [|x l]; simpl.
  - rewrite firstn_nil. reflexivity.
  - rewrite IH. reflexivity.
Qed.

Lemma skipn_add {A : Type} (a b : nat) (l : list A) :
  skipn (a + b) l = skipn b (skipn a l).
Proof.
  revert l. induction a as [|a IH]; intros l; [reflexivity|].
  destruct l as [|x l]; simpl.
  - rewrite skipn_nil. reflexivity.
  - apply IH.
Qed.

Lemma In_firstn {A : Type} (n : nat) (l : list A) (x : A) :
  In x (firstn n l) -> In x l.
Proof.
  intros H. rewrite <- (firstn_skipn n l). apply in_or_app. left. exact H.
Qed.

Lemma In_skipn {A : Type} (n : nat) (l : list A) (x : A) :
  In x (skipn n l) -> In x l.
Proof.
  intros H. rewrite <- (firstn_skipn n l). apply in_or_app. right. exact H.
Qed.

(** A batch taken at an index inside the array. *)
Lemma slice_batch {A : Type} (l : list A) (i c : Z) :
  0 <= i -> 0 <= c ->
  slice l i (i + c) = firstn (Z.to_nat c) (skipn (Z.to_nat i) l).
Proof.
  intros Hi Hc. unfold slice, clamp.
  destruct (Z.ltb_spec i 0); [lia|].
  destruct (Z.ltb_spec (i + c) 0); [lia|].
  set (len := Z.of_nat (List.length l)).
  destruct (Z.le_gt_cases len i) as [Hout|Hin].
  - rewrite (skipn_all2 l) by lia. rewrite (skipn_all2 l) by lia.
    rewrite !firstn_nil. reflexivity.
  - rewrite (Z.min_l i len) by lia.
    destruct (Z.le_gt_cases (i + c) len) as [Hfit|Hlong].
    + rewrite Z.min_l by lia. f_equal. lia.
    + rewrite Z.min_r by lia.
      rewrite !firstn_all2; [reflexivity| |];
        rewrite length_skipn; lia.
Qed.

(** A batch taken with a step that is not positive, after the first. *)
Lemma slice_backwards {A : Type} (l : list A) (i c : Z) :
  c <= 0 -> i < 0 \/ (i = 0 /\ c = 0) -> slice l i (i + c) = [].
Proof.
  intros Hc Hi. unfold slice, clamp.
  set (len := Z.of_nat (List.length l)).
  replace (Z.to_nat _) with 0%nat; [reflexivity|].
  destruct (Z.ltb_spec i 0), (Z.ltb_spec (i + c) 0); lia.
Qed.

Section Facts.

Variable Item : Type.
Variable Data : Type.
Variable Err : Type.
Variable items : list Item.
Variable operation : Item -> @SafeAsync.Settled Data Err.
Variable settle : list (nat * Item) -> list (nat * Item).
Variable options : Options.

Hypothesis settle_permutes : forall entries, Permutation (settle entries) entries.

Lemma count_app (p : Item -> bool) (l1 l2 : list Item) :
  count p (l1 ++ l2) = count p l1 + count p l2.
Proof.
  unfold count. rewrite filter_app, length_app. lia.
Qed.

Lemma count_perm (p : Item -> bool) (l1 l2 : list Item) :
  Permutation l1 l2 -> count p l1 = count p l2.
Proof.
  intros H. unfold count. f_equal.
  induction H; simpl.
  - reflexivity.
  - destruct (p x); simpl; congruence.
  - destruct (p x), (p y); reflexivity.
  - congruence.
Qed.

Lemma count_split (l : list Item) :
  count (returned operation) l + count (threw operation) l
  = Z.of_nat (List.length l).
Proof.
  unfold count, threw. induction l as [|x l IH]; [reflexivity|].
  simpl. destruct (returned operation x); simpl List.length; lia.
Qed.

Lemma indexed_items_from (start : nat) (batch : list Item) :
  map snd (combine (seq start (List.length batch)) batch) = batch.
Proof.
  revert start. induction batch as [|x batch IH]; intros start; [reflexivity|].
  simpl. rewrite IH. reflexivity.
Qed.

Lemma settle_items (batch : list Item) :
  Permutation (map snd (settle (indexed batch))) batch.
Proof.
  rewrite <- (indexed_items_from 0 batch) at 2.
  apply Permutation_map, settle_permutes.
Qed.

Lemma started_app (t1 t2 : list (Event Item Err)) :
  started_items (t1 ++ t2) = (started_items t1 ++ started_items t2)%list.
Proof.
  apply flat_map_app.
Qed.

Lemma started_map (batch : list Item) :
  started_items (map (@started Item Err) batch) = batch.
Proof.
  induction batch as [|x batch IH]; [reflexivity|].
  unfold started_items in *. simpl. rewrite IH. reflexivity.
Qed.

Lemma started_report (i : Z) (index : nat) (s f : Z) :
  started_items (@report Item Err items options i index s f) = [].
Proof.
  unfold report. destruct (onProgress options); reflexivity.
Qed.

(** What one batch does to the counters and to the items started. *)
Lemma fold_settled (i : Z) (entries : list (nat * Item)) (s f : Z)
      (trace : list (Event Item Err)) :
  fst (fst (fold_left (settled items operation options i) entries (s, f, trace)))
  = s + count (returned operation) (map snd entries)
  /\ snd (fst (fold_left (settled items operation options i) entries
                 (s, f, trace)))
     = f + count (threw operation) (map snd entries)
  /\ started_items
       (snd (fold_left (settled items operation options i) entries
               (s, f, trace)))
     = started_items trace.
Proof.
  revert s f trace.
  induction entries as [|[index item] entries IH]; intros s f trace.
  - unfold count. simpl. repeat split; lia.
  - cbn [fold_left map snd]. unfold settled at 2 4 6.
    unfold count, threw, returned in *. cbn [filter].
    destruct (operation item) as [d|e]; cbn [negb].
    + destruct (IH (s + 1) f
                  (trace ++ report items options i index (s + 1) f)%list)
        as [H1 [H2 H3]].
      rewrite H1, H2, H3, started_app, started_report, app_nil_r.
      cbn [List.length]. repeat split; lia.
    + destruct (IH s (f + 1)
                  (trace ++ [logged item e]
                     ++ report items options i index s (f + 1))%list)
        as [H1 [H2 H3]].
      rewrite H1, H2, H3, !started_app, started_report, app_nil_r.
      cbn [List.length]. repeat split; lia.
Qed.

Lemma batch_settled (i : Z) (batch : list Item) (s f : Z)
      (trace : list (Event Item Err)) :
  exists trace',
    fold_left (settled items operation options i) (settle (indexed batch))
      (s, f, (trace ++ map (@started Item Err) batch)%list)
    = (s + count (returned operation) batch,
       f + count (threw operation) batch, trace')
    /\ started_items trace' = (started_items trace ++ batch)%list.
Proof.
  destruct (fold_settled i (settle (indexed batch)) s f
              (trace ++ map (@started Item Err) batch)%list) as [H1 [H2 H3]].
  destruct (fold_left _ _ _) as [[s' f'] trace'].
  cbn [fst snd] in *. exists trace'.
  rewrite (count_perm (returned operation) _ _ (settle_items batch)) in H1.
  rewrite (count_perm (threw operation) _ _ (settle_items batch)) in H2.
  rewrite started_app, started_map in H3.
  subst s' f'. split; [reflexivity|exact H3].
Qed.

Lemma first_rejection_continue (entries : list (nat * Item)) :
  continueOnError options = true ->
  first_rejection operation options entries = None.
Proof.
  intros Hc. induction entries as [|[index item] entries IH]; [reflexivity|].
  simpl. rewrite Hc. destruct (operation item); exact IH.
Qed.

Lemma first_rejection_none (entries : list (nat * Item)) :
  (forall item, In item (map snd entries) -> returned operation item = true) ->
  first_rejection operation options entries = None.
Proof.
  induction entries as [|[index item] entries IH]; intros H; [reflexivity|].
  simpl. assert (R : returned operation item = true) by (apply H; left; reflexivity).
  unfold returned in R. destruct (operation item); [|discriminate].
  apply IH. intros x Hx. apply H. right. exact Hx.
Qed.

Lemma first_rejection_some (entries : list (nat * Item)) (bad : Item) :
  continueOnError options = false ->
  In bad (map snd entries) -> returned operation bad = false ->
  exists item e,
    In item (map snd entries)
    /\ operation item = SafeAsync.throws e
    /\ first_rejection operation options entries = Some e.
Proof.
  intros Hc Hin Hbad.
  induction entries as [|[index item] entries IH]; [destruct Hin|].
  simpl. rewrite Hc. destruct (operation item) as [d|e] eqn:E.
  - destruct Hin as [Heq|Hin].
    + simpl in Heq. subst. unfold returned in Hbad. rewrite E in Hbad.
      discriminate.
    + destruct (IH Hin) as [x [e [H1 [H2 H3]]]].
      exists x, e. split; [right; exact H1|]. split; assumption.
  - exists item, e. split; [left; reflexivity|]. split; [exact E|reflexivity].
Qed.

(** One turn of the loop at an index inside the array. *)
Lemma loop_turn (fuel : nat) (i s f : Z)
      (res : list (ItemResult Item Data Err)) (trace : list (Event Item Err)) :
  i < Z.of_nat (List.length items) ->
  exists trace',
    started_items trace'
    = (started_items trace
         ++ slice items i (i + concurrency options))%list
    /\ loop items operation settle options (S fuel) i s f res trace
       = match first_rejection operation options
                 (settle (indexed (slice items i (i + concurrency options))))
         with
         | Some e => (rejected e, trace')
         | None =>
             loop items operation settle options fuel
               (i + concurrency options)
               (s + count (returned operation)
                      (slice items i (i + concurrency options)))
               (f + count (threw operation)
                      (slice items i (i + concurrency options)))
               (res ++ map (result_of operation)
                         (slice items i (i + concurrency options)))%list
               trace'
         end.
Proof.
  intros Hi.
  destruct (batch_settled i (slice items i (i + concurrency options)) s f trace)
    as [trace' [Hfold Hstarted]].
  exists trace'. split; [exact Hstarted|].
  cbn [loop]. destruct (Z.ltb_spec i (Z.of_nat (List.length items))); [|lia].
  cbv zeta. rewrite Hfold. reflexivity.
Qed.

Lemma loop_all (fuel : nat) (i s f : Z)
      (res : list (ItemResult Item Data Err)) (trace : list (Event Item Err)) :
  continueOnError options = true ->
  1 <= concurrency options ->
  0 <= i ->
  Z.max 0 (Z.of_nat (List.length items) - i) < Z.of_nat fuel ->
  fst (loop items operation settle options fuel i s f res trace)
  = resolved
      (mkSummary
         (s + count (returned operation) (skipn (Z.to_nat i) items))
         (f + count (threw operation) (skipn (Z.to_nat i) items))
         (Z.of_nat (List.length items))
         (res ++ map (result_of operation) (skipn (Z.to_nat i) items))%list)
  /\ started_items (snd (loop items operation settle options fuel i s f res trace))
     = (started_items trace ++ skipn (Z.to_nat i) items)%list.
Proof.
  intros Hc Hpos. revert i s f res trace.
  induction fuel as [|fuel IH]; intros i s f res trace Hi Hfuel; [lia|].
  destruct (Z.lt_ge_cases i (Z.of_nat (List.length items))) as [Hin|Hout].
  - destruct (loop_turn fuel i s f res trace Hin) as [trace' [Hst Hloop]].
      rewrite Hloop, first_rejection_continue by exact Hc.
      rewrite slice_batch in * by lia.
      set (c := Z.to_nat (concurrency options)) in *.
      set (rest := skipn (Z.to_nat i) items) in *.
      destruct (IH (i + concurrency options)
                   (s + count (returned operation) (firstn c rest))
                   (f + count (threw operation) (firstn c rest))
                   (res ++ map (result_of operation) (firstn c rest))%list
                   trace') as [H1 H2]; [lia|lia|].
      replace (Z.to_nat (i + concurrency options)) with (Z.to_nat i + c)%nat
        in H1, H2 by lia.
      rewrite skipn_add in H1, H2. fold rest in H1, H2.
      rewrite H1, H2, Hst.
      rewrite <- !Z.add_assoc, <- !count_app, <- !app_assoc, <- map_app.
      rewrite !firstn_skipn. split; reflexivity.
  - rewrite skipn_all2 by lia. cbn [loop].
      destruct (Z.ltb_spec i (Z.of_nat (List.length items))); [lia|].
      unfold count. cbn [fst snd filter List.length map].
      rewrite !Z.add_0_r, !app_nil_r. split; reflexivity.
Qed.

Lemma loop_stuck (fuel : nat) (i s f : Z)
      (res : list (ItemResult Item Data Err)) (trace : list (Event Item Err))
      (sm : Summary Item Data Err) :
  concurrency options <= 0 -> items <> [] -> i <= 0 ->
  fst (loop items operation settle options fuel i s f res trace) <> resolved sm.
Proof.
  intros Hc Hne. revert i s f res trace.
  assert (Hlen : 0 < Z.of_nat (List.length items))
    by (destruct items; [contradiction|simpl; lia]).
  induction fuel as [|fuel IH]; intros i s f res trace Hi; [discriminate|].
  destruct (loop_turn fuel i s f res trace) as [trace' [_ Hloop]]; [lia|].
  rewrite Hloop. destruct (first_rejection _ _ _); [discriminate|].
  apply IH. lia.
Qed.

Lemma loop_idle (fuel : nat) (i s f : Z)
      (res : list (ItemResult Item Data Err)) (trace : list (Event Item Err)) :
  continueOnError options = true ->
  concurrency options <= 0 -> items <> [] ->
  i < 0 \/ (i = 0 /\ concurrency options = 0) ->
  fst (loop items operation settle options fuel i s f res trace) = pending
  /\ started_items (snd (loop items operation settle options fuel i s f res trace))
     = started_items trace.
Proof.
  intros Hce Hc Hne. revert i s f res trace.
  assert (Hlen : 0 < Z.of_nat (List.length items))
    by (destruct items; [contradiction|simpl; lia]).
  induction fuel as [|fuel IH]; intros i s f res trace Hi;
    [split; reflexivity|].
  destruct (loop_turn fuel i s f res trace) as [trace' [Hst Hloop]]; [lia|].
  rewrite Hloop, first_rejection_continue by exact Hce.
  rewrite slice_backwards in * by assumption.
  rewrite app_nil_r in Hst. rewrite <- Hst. apply IH. lia.
Qed.

Lemma loop_rejects (before after : list Item) (bad : Item) (fuel : nat)
      (q s f : Z) (res : list (ItemResult Item Data Err))
      (trace : list (Event Item Err)) :
  items = (before ++ bad :: after)%list ->
  1 <= concurrency options ->
  continueOnError options = false ->
  (forall x, In x before -> returned operation x = true) ->
  returned operation bad = false ->
  0 <= q ->
  concurrency options * q <= Z.of_nat (List.length before) ->
  Z.of_nat (List.length before) - concurrency options * q < Z.of_nat fuel ->
  exists item e,
    fst (loop items operation settle options fuel (concurrency options * q)
           s f res trace)
    = rejected e
    /\ operation item = SafeAsync.throws e
    /\ In item
         (started_items
            (snd (loop items operation settle options fuel
                    (concurrency options * q) s f res trace)))
    /\ started_items
         (snd (loop items operation settle options fuel
                 (concurrency options * q) s f res trace))
       = (started_items trace
            ++ firstn (Z.to_nat
                         (concurrency options
                          * (Z.of_nat (List.length before)
                             / concurrency options + 1)
                          - concurrency options * q))
                 (skipn (Z.to_nat (concurrency options * q)) items))%list.
Proof.
  intros Hitems Hc Hce Hbefore Hbad.
  set (c := concurrency options) in *.
  set (k := Z.of_nat (List.length before)) in *.
  revert q s f res trace.
  assert (Hlen : k < Z.of_nat (List.length items)).
  { rewrite Hitems, length_app. simpl. lia. }
  induction fuel as [|fuel IH]; intros q s f res trace Hq Hi Hfuel; [lia|].
  destruct (loop_turn fuel (c * q) s f res trace) as [trace' [Hst Hloop]];
    [lia|].
  fold c in Hst, Hloop.
  rewrite slice_batch in Hst, Hloop by lia.
  set (rest := skipn (Z.to_nat (c * q)) items) in *.
  assert (Hrest : rest
                  = (skipn (Z.to_nat (c * q)) before ++ bad :: after)%list).
  { unfold rest. rewrite Hitems, skipn_app.
    replace (Z.to_nat (c * q) - List.length before)%nat with 0%nat by lia.
    reflexivity. }
  assert (Hskip : Z.of_nat (List.length (skipn (Z.to_nat (c * q)) before))
                  = k - c * q).
  { rewrite length_skipn. lia. }
  destruct (Z.lt_ge_cases k (c * q + c)) as [Hhere|Hlater].
  - (* the batch of the first failure *)
    assert (Hin : In bad (firstn (Z.to_nat c) rest)).
    { rewrite Hrest, firstn_app. apply in_or_app. right.
      replace (Z.to_nat c - List.length (skipn (Z.to_nat (c * q)) before))%nat
        with (S (Z.to_nat (c * q + c - k - 1))) by lia.
      left. reflexivity. }
    destruct (first_rejection_some
                (settle (indexed (firstn (Z.to_nat c) rest))) bad Hce)
      as [item [e [H1 [H2 H3]]]].
    { apply (Permutation_in bad (Permutation_sym (settle_items _))). exact Hin. }
    { exact Hbad. }
    exists item, e. rewrite Hloop, H3. cbn [fst snd].
    split; [reflexivity|]. split; [exact H2|].
    assert (Hdiv : k / c = q).
    { symmetry. apply (Z.div_unique k c q (k - c * q)); lia. }
    rewrite Hst, Hdiv.
    replace (c * (q + 1) - c * q) with c by lia.
    split; [|reflexivity].
    apply in_or_app. right.
    apply (Permutation_in item (settle_items _)). exact H1.
  - (* a batch before it *)
    assert (Hall : forall x, In x (firstn (Z.to_nat c) rest) ->
                             returned operation x = true).
    { intros x Hx. apply Hbefore. rewrite Hrest, firstn_app in Hx.
      replace (Z.to_nat c - List.length (skipn (Z.to_nat (c * q)) before))%nat
        with 0%nat in Hx by lia.
      rewrite firstn_O, app_nil_r in Hx.
      apply In_firstn in Hx.
      apply (In_skipn (Z.to_nat (c * q))), Hx. }
    rewrite Hloop, first_rejection_none.
    2:{ intros x Hx. apply Hall.
        apply (Permutation_in x (settle_items _)). exact Hx. }
    replace (c * q + c) with (c * (q + 1)) by lia.
    destruct (IH (q + 1)
                (s + count (returned operation) (firstn (Z.to_nat c) rest))
                (f + count (threw operation) (firstn (Z.to_nat c) rest))
                (res ++ map (result_of operation) (firstn (Z.to_nat c) rest))%list
                trace') as [item [e [H1 [H2 [H3 H4]]]]]; [lia|lia|lia|].
    exists item, e. split; [exact H1|]. split; [exact H2|].
    split; [exact H3|].
    rewrite H4, Hst, <- app_assoc. f_equal.
    assert (Hq1 : q + 1 <= k / c)
      by (apply Z.div_le_lower_bound; lia).
    replace (Z.to_nat (c * (k / c + 1) - c * q))
      with (Z.to_nat c + Z.to_nat (c * (k / c + 1) - c * (q + 1)))%nat by nia.
    rewrite firstn_add. f_equal. f_equal.
    replace (Z.to_nat (c * (q + 1))) with (Z.to_nat (c * q) + Z.to_nat c)%nat
      by nia.
    unfold rest. apply skipn_add.
Qed.

Lemma upto_S (base : Z) (n : nat) :
  upto base (S n) = (base + 1) :: upto (base + 1) n.
Proof.
  unfold upto. cbn [seq map]. f_equal.
  rewrite <- seq_shift, map_map. apply map_ext. intros k. lia.
Qed.

Lemma upto_add (base : Z) (a b : nat) :
  upto base (a + b) = (upto base a ++ upto (base + Z.of_nat a) b)%list.
Proof.
  revert base. induction a as [|a IH]; intros base.
  - simpl. rewrite Z.add_0_r. reflexivity.
  - cbn [Nat.add]. rewrite !upto_S, IH. cbn [app]. f_equal. f_equal. f_equal.
    lia.
Qed.

Lemma reports_app (t1 t2 : list (Event Item Err)) :
  reports (t1 ++ t2) = (reports t1 ++ reports t2)%list.
Proof.
  apply flat_map_app.
Qed.

Lemma reports_started (batch : list Item) :
  reports (map (@started Item Err) batch) = [].
Proof.
  induction batch as [|x batch IH]; [reflexivity|].
  unfold reports in *. simpl. exact IH.
Qed.

(** What one batch reports. *)
Lemma fold_reports (i : Z) (entries : list (nat * Item)) (s f : Z)
      (trace : list (Event Item Err)) :
  onProgress options = true ->
  exists added,
    reports (snd (fold_left (settled items operation options i) entries
                    (s, f, trace)))
    = (reports trace ++ added)%list
    /\ map settled_so_far added = upto (s + f) (List.length entries)
    /\ map current added
       = map (fun entry => i + Z.of_nat (fst entry) + 1) entries
    /\ Forall (fun p => progress_total p = Z.of_nat (List.length items)) added.
Proof.
  intros Hp. revert s f trace.
  induction entries as [|[index item] entries IH]; intros s f trace.
  - exists []. rewrite app_nil_r. repeat split; constructor.
  - cbn [fold_left]. unfold settled at 2. unfold report. rewrite Hp.
    destruct (operation item) as [d|e].
    + destruct (IH (s + 1) f
                  (trace ++ [progress
                               (mkProgress (i + Z.of_nat index + 1)
                                  (Z.of_nat (List.length items))
                                  (s + 1) f)])%list)
        as [added [H1 [H2 [H3 H4]]]].
      exists (mkProgress (i + Z.of_nat index + 1)
                (Z.of_nat (List.length items)) (s + 1) f :: added).
      rewrite H1, reports_app, <- app_assoc. split; [reflexivity|].
      cbn [map List.length fst]. rewrite upto_S, H2, H3.
      unfold settled_so_far at 1. cbn [progress_success progress_failed current].
      split; [f_equal; [lia|f_equal; lia]|].
      split; [reflexivity|]. constructor; [reflexivity|exact H4].
    + destruct (IH s (f + 1)
                  (trace ++ [logged item e]
                     ++ [progress
                           (mkProgress (i + Z.of_nat index + 1)
                              (Z.of_nat (List.length items))
                              s (f + 1))])%list)
        as [added [H1 [H2 [H3 H4]]]].
      exists (mkProgress (i + Z.of_nat index + 1)
                (Z.of_nat (List.length items)) s (f + 1) :: added).
      rewrite H1, !reports_app, <- app_assoc. split; [reflexivity|].
      cbn [map List.length fst]. rewrite upto_S, H2, H3.
      unfold settled_so_far at 1. cbn [progress_success progress_failed current].
      split; [f_equal; [lia|f_equal; lia]|].
      split; [reflexivity|]. constructor; [reflexivity|exact H4].
Qed.

Lemma indexed_positions (i : Z) (batch : list Item) :
  map (fun entry : nat * Item => i + Z.of_nat (fst entry) + 1) (indexed batch)
  = upto i (List.length batch).
Proof.
  unfold indexed, upto.
  assert (G : forall start,
             map (fun entry : nat * Item => i + Z.of_nat (fst entry) + 1)
               (combine (seq start (List.length batch)) batch)
             = map (fun k => i + Z.of_nat k)
                 (seq (S start) (List.length batch))).
  { induction batch as [|x batch IH]; intros start; [reflexivity|].
    cbn [List.length seq combine map fst]. rewrite IH. f_equal. lia. }
  apply G.
Qed.

Lemma indexed_length (batch : list Item) :
  List.length (settle (indexed batch)) = List.length batch.
Proof.
  rewrite (Permutation_length (settle_permutes _)).
  unfold indexed. rewrite length_combine, length_seq. lia.
Qed.

(** The reports of a whole run. *)
Lemma loop_reports (fuel : nat) (i s f : Z)
      (res : list (ItemResult Item Data Err)) (trace : list (Event Item Err)) :
  onProgress options = true ->
  continueOnError options = true ->
  1 <= concurrency options ->
  0 <= i ->
  Z.max 0 (Z.of_nat (List.length items) - i) < Z.of_nat fuel ->
  exists added,
    reports (snd (loop items operation settle options fuel i s f res trace))
    = (reports trace ++ added)%list
    /\ map settled_so_far added
       = upto (s + f) (List.length (skipn (Z.to_nat i) items))
    /\ Permutation (map current added)
         (upto i (List.length (skipn (Z.to_nat i) items)))
    /\ Forall (fun p => progress_total p = Z.of_nat (List.length items)) added.
Proof.
  intros Hp Hc Hpos. revert i s f res trace.
  induction fuel as [|fuel IH]; intros i s f res trace Hi Hfuel; [lia|].
  destruct (Z.lt_ge_cases i (Z.of_nat (List.length items))) as [Hin|Hout].
  - cbn [loop]. destruct (Z.ltb_spec i (Z.of_nat (List.length items))); [|lia].
    cbv zeta. rewrite first_rejection_continue by exact Hc.
    rewrite slice_batch by lia.
    set (c := Z.to_nat (concurrency options)) in *.
    set (rest := skipn (Z.to_nat i) items) in *.
    destruct (fold_reports i (settle (indexed (firstn c rest))) s f
                (trace ++ map (@started Item Err) (firstn c rest))%list Hp)
      as [added1 [A1 [A2 [A3 A4]]]].
    destruct (fold_settled i (settle (indexed (firstn c rest))) s f
                (trace ++ map (@started Item Err) (firstn c rest))%list)
      as [S1 [S2 _]].
    destruct (fold_left _ _ _) as [[s' f'] trace'].
    cbn [fst snd] in *.
    destruct (IH (i + concurrency options) s' f'
                (res ++ map (result_of operation) (firstn c rest))%list trace')
      as [added2 [B1 [B2 [B3 B4]]]]; [lia|lia|].
    replace (Z.to_nat (i + concurrency options)) with (Z.to_nat i + c)%nat
      in B2, B3 by lia.
    rewrite skipn_add in B2, B3. fold rest in B2, B3.
    exists (added1 ++ added2)%list.
    rewrite B1, A1, reports_app, reports_started, app_nil_r, <- app_assoc.
    split; [reflexivity|].
    rewrite !map_app, A2, A3, B2.
    rewrite indexed_length in A2 |- *.
    rewrite (count_perm (returned operation) _ _ (settle_items _)) in S1.
    rewrite (count_perm (threw operation) _ _ (settle_items _)) in S2.
    assert (Hlen : List.length rest
                   = (List.length (firstn c rest)
                      + List.length (skipn c rest))%nat).
    { rewrite <- (firstn_skipn c rest) at 1. apply length_app. }
    split; [|split].
    + rewrite Hlen, upto_add. f_equal. f_equal.
      pose proof (count_split (firstn c rest)). lia.
    + rewrite Hlen, upto_add. apply Permutation_app.
      * rewrite <- indexed_positions. apply Permutation_map, settle_permutes.
      * destruct (Nat.le_gt_cases c (List.length rest)) as [Hfit|Hshort].
        -- rewrite length_firstn, Nat.min_l by exact Hfit.
           replace (i + Z.of_nat c) with (i + concurrency options) by lia.
           exact B3.
        -- rewrite (skipn_all2 rest) in B3 |- * by lia. exact B3.
    + apply Forall_app. split; assumption.
  - exists []. cbn [loop].
    destruct (Z.ltb_spec i (Z.of_nat (List.length items))); [lia|].
    rewrite skipn_all2 by lia. cbn [snd]. rewrite app_nil_r.
    repeat split; constructor.
Qed.

(** The summary does not depend on the batching.  With a concurrency of
    at least one and [continueOnError], the promise is fulfilled (as soon
    as more turns are allowed than there are items): the results are those
    of the items, one each and in the order of the items, whatever the
    order in which the operations settle; [success] and [failed] count the
    items whose operation returned and threw, and add up to [total]; and
    every item has had its operation started, once, in order. *)
Theorem safeBatchOperation_summary (fuel : nat) :
  1 <= concurrency options ->
  continueOnError options = true ->
  (List.length items < fuel)%nat ->
  fst (safeBatchOperation items operation settle options fuel)
  = resolved (mkSummary (count (returned operation) items)
                (count (threw operation) items)
                (Z.of_nat (List.length items))
                (map (result_of operation) items))
  /\ count (returned operation) items + count (threw operation) items
     = Z.of_nat (List.length items)
  /\ started_items (snd (safeBatchOperation items operation settle options fuel))
     = items.
Proof.
  intros Hc Hce Hfuel. unfold safeBatchOperation.
  destruct (loop_all fuel 0 0 0 [] [] Hce Hc) as [H1 H2]; [lia|lia|].
  rewrite H1, H2. simpl. split; [reflexivity|].
  split; [apply count_split|reflexivity].
Qed.

(** A concurrency that is not positive.  With items to process the
    promise is never fulfilled, however many turns are allowed.  With
    [continueOnError] it stays pending, and the only operations ever
    started are those of [items.slice(0, concurrency)]: none for zero, and
    for a negative concurrency all the items but the last ones. *)
Theorem safeBatchOperation_never_returns (fuel : nat) :
  concurrency options <= 0 ->
  items <> [] ->
  (forall sm,
     fst (safeBatchOperation items operation settle options fuel)
     <> resolved sm)
  /\ (continueOnError options = true ->
      fst (safeBatchOperation items operation settle options fuel) = pending
      /\ ((1 <= fuel)%nat ->
          started_items
            (snd (safeBatchOperation items operation settle options fuel))
          = slice items 0 (concurrency options))).
Proof.
  intros Hc Hne. unfold safeBatchOperation. split.
  - intros sm. apply loop_stuck; [exact Hc|exact Hne|lia].
  - intros Hce.
    assert (Hlen : 0 < Z.of_nat (List.length items))
      by (destruct items; [contradiction|simpl; lia]).
    destruct fuel as [|fuel]; [split; [reflexivity|lia]|].
    destruct (loop_turn fuel 0 0 0 [] []) as [trace' [Hst Hloop]]; [lia|].
    rewrite Hloop, first_rejection_continue by exact Hce.
    cbn [started_items flat_map app] in Hst. rewrite Z.add_0_l in *.
    destruct (Z.eq_dec (concurrency options) 0) as [Hz|Hnz].
    + destruct (loop_idle fuel (concurrency options)
                  (0 + count (returned operation)
                         (slice items 0 (concurrency options)))
                  (0 + count (threw operation)
                         (slice items 0 (concurrency options)))
                  ([] ++ map (result_of operation)
                           (slice items 0 (concurrency options)))%list
                  trace' Hce Hc Hne) as [H1 H2]; [right; lia|].
      split; [exact H1|]. intros _. rewrite H2. exact Hst.
    + destruct (loop_idle fuel (concurrency options)
                  (0 + count (returned operation)
                         (slice items 0 (concurrency options)))
                  (0 + count (threw operation)
                         (slice items 0 (concurrency options)))
                  ([] ++ map (result_of operation)
                           (slice items 0 (concurrency options)))%list
                  trace' Hce Hc Hne) as [H1 H2]; [left; lia|].
      split; [exact H1|]. intros _. rewrite H2. exact Hst.
Qed.

(** Without [continueOnError] the first failure ends the run at its
    batch.  If the item after [before] is the first whose operation
    throws, the promise is rejected with what an operation of that batch
    threw; the operations started are those of the batches up to that one,
    whole: the items of the batch that come after the failing one have
    been started too, the items of the later batches have not. *)
Theorem safeBatchOperation_stops_at_failure
        (before after : list Item) (bad : Item) (fuel : nat) :
  items = (before ++ bad :: after)%list ->
  1 <= concurrency options ->
  continueOnError options = false ->
  (forall x, In x before -> returned operation x = true) ->
  returned operation bad = false ->
  (List.length before < fuel)%nat ->
  exists item e,
    fst (safeBatchOperation items operation settle options fuel) = rejected e
    /\ operation item = SafeAsync.throws e
    /\ In item
         (started_items
            (snd (safeBatchOperation items operation settle options fuel)))
    /\ started_items
         (snd (safeBatchOperation items operation settle options fuel))
       = firstn (Z.to_nat
                   (concurrency options
                    * (Z.of_nat (List.length before)
                       / concurrency options + 1)))
           items.
Proof.
  intros Hitems Hc Hce Hbefore Hbad Hfuel. unfold safeBatchOperation.
  destruct (loop_rejects before after bad fuel 0 0 0 [] []
              Hitems Hc Hce Hbefore Hbad) as [item [e [H1 [H2 [H3 H4]]]]];
    [lia|lia|lia|].
  rewrite Z.mul_0_r in *. exists item, e.
  split; [exact H1|]. split; [exact H2|]. split; [exact H3|].
  rewrite H4. simpl. rewrite Z.sub_0_r. reflexivity.
Qed.

(** What a progress callback sees.  With a concurrency of at least one
    and [continueOnError], the callback is called once for each item, with
    the right total.  The number of operations settled that it is shown,
    [success + failed], is 1 at the first call, 2 at the second, and so on
    to the number of items, whatever the order in which the operations
    settle.  [current] is something else: the position of the item that
    has just settled; over the run the positions are all there, each once,
    but not necessarily in increasing order. *)
Theorem safeBatchOperation_progress (fuel : nat) :
  onProgress options = true ->
  continueOnError options = true ->
  1 <= concurrency options ->
  (List.length items < fuel)%nat ->
  map settled_so_far
    (reports (snd (safeBatchOperation items operation settle options fuel)))
  = upto 0 (List.length items)
  /\ Permutation
       (map current
          (reports (snd (safeBatchOperation items operation settle options
                           fuel))))
       (upto 0 (List.length items))
  /\ Forall (fun p => progress_total p = Z.of_nat (List.length items))
       (reports (snd (safeBatchOperation items operation settle options fuel))).
Proof.
  intros Hp Hce Hc Hfuel. unfold safeBatchOperation.
  destruct (loop_reports fuel 0 0 0 [] [] Hp Hce Hc) as [added [H1 [H2 [H3 H4]]]];
    [lia|lia|].
  rewrite H1. simpl in *. repeat split; assumption.
Qed.

End Facts.

Lemma last_first_permutes (entries : list (nat * Z)) :
  Permutation (last_first entries) entries.
Proof.
  apply Permutation_sym, Permutation_rev.
Qed.

Lemma in_order_permutes (entries : list (nat * Z)) :
  Permutation (in_order entries) entries.
Proof.
  apply Permutation_refl.
Qed.

Lemma safeBatchOperation_summary_witness :
  fst (safeBatchOperation [1; 2; 3; 4; 5; 6; 7] even_only last_first
         (mkOptions 3 true true) 8)
  = resolved (mkSummary 3 4 7
                (map (result_of even_only) [1; 2; 3; 4; 5; 6; 7])).
Proof.
  apply (safeBatchOperation_summary Z Z string [1; 2; 3; 4; 5; 6; 7]
           even_only last_first (mkOptions 3 true true)
           last_first_permutes 8%nat).
  - simpl. lia.
  - reflexivity.
  - simpl. lia.
Defined.

Lemma safeBatchOperation_never_returns_witness :
  fst (safeBatchOperation [1; 2; 3] even_only in_order
         (mkOptions 0 true false) 50)
  = pending.
Proof.
  destruct (safeBatchOperation_never_returns Z Z string [1; 2; 3]
              even_only in_order (mkOptions 0 true false)
              in_order_permutes 50%nat) as [_ H].
  - simpl. lia.
  - discriminate.
  - apply H. reflexivity.
Defined.

Lemma safeBatchOperation_stops_at_failure_witness :
  exists item e,
    fst (safeBatchOperation [2; 4; 3; 5; 6; 7; 8] even_only last_first
           (mkOptions 2 false false) 3)
    = rejected e
    /\ even_only item = SafeAsync.throws e
    /\ started_items
         (snd (safeBatchOperation [2; 4; 3; 5; 6; 7; 8] even_only last_first
                 (mkOptions 2 false false) 3))
       = [2; 4; 3; 5].
Proof.
  destruct (safeBatchOperation_stops_at_failure Z Z string
              [2; 4; 3; 5; 6; 7; 8] even_only last_first
              (mkOptions 2 false false) last_first_permutes
              [2; 4] [5; 6; 7; 8] 3 3%nat)
    as [item [e [H1 [H2 [_ H3]]]]].
  - reflexivity.
  - simpl. lia.
  - reflexivity.
  - intros x [H|[H|[]]]; subst; reflexivity.
  - reflexivity.
  - simpl. lia.
  - exists item, e. split; [exact H1|]. split; [exact H2|exact H3].
Defined.

Lemma safeBatchOperation_progress_witness :
  map settled_so_far
    (reports (snd (safeBatchOperation [1; 2; 3; 4; 5; 6; 7] even_only
                     last_first (mkOptions 3 true true) 8)))
  = [1; 2; 3; 4; 5; 6; 7]
  /\ map current
       (reports (snd (safeBatchOperation [1; 2; 3; 4; 5; 6; 7] even_only
                        last_first (mkOptions 3 true true) 8)))
     = [3; 2; 1; 6; 5; 4; 7].
Proof.
  split.
  - apply (safeBatchOperation_progress Z Z string [1; 2; 3; 4; 5; 6; 7]
             even_only last_first (mkOptions 3 true true)
             last_first_permutes 8%nat).
    + reflexivity.
    + reflexivity.
    + simpl. lia.
    + simpl. lia.
  - reflexivity.
Defined.

End SafeBatchFacts.
